(** * Periscope: the opportunity detection pipeline

    A shallow embedding of the strategy manager, the two built-in strategies
    (arbitrage and sandwich) and the arbitrage price cache, with the
    properties stated for them; and of the key scan of the client and a
    helper of the dashboard.

    Modelling conventions, used throughout:
    - a JavaScript number is an exact rational ([Q]): a finite number, its
      arithmetic not rounded ([parseInt], which reads up to sixteen digits,
      returns the nearest double, and NaN as an [option]).  The thresholds
      of a configuration are finite there, and a quotient is the source's
      only when its divisor is not zero: the statements that depend on it
      say so.  The sandwich strategy is embedded a second time over every
      number, infinite, NaN and the negative zero included ([SandwichNum]),
      and the two are proved to agree on finite thresholds whose divisors
      are not zero.  A timestamp is an integer number of milliseconds ([Z]);
    - a JavaScript string is a [string] of one-byte characters; a Buffer is
      its list of bytes;
    - [Math.random], [Date.now] and [uuidv4] read from oracles carried by the
      [World], each call consuming the next value;
    - an exception is an explicit [Threw] outcome; state changes made before
      it survive it, as in the source. *)

From Stdlib Require Import QArith Qminmax Qabs Lqa Lia ZArith.
From Stdlib Require Import Bool List String Ascii Strings.Byte.
From Stdlib Require Import Permutation Sorted.
Import ListNotations.

Local Open Scope string_scope.
Local Open Scope Q_scope.
Local Open Scope list_scope.

(** ** Numbers *)

Definition Qltb (x y : Q) : bool := negb (Qle_bool y x).
Definition Qzerob (x : Q) : bool := Qeq_bool x 0.

Definition isSome {A} (o : option A) : bool :=
  match o with Some _ => true | None => false end.

(** ** Outcomes and the state-and-exception monad *)

Inductive Exn : Type := TypeError | RangeError.

Inductive Outcome (A : Type) : Type :=
| Returned (a : A)
| Threw (e : Exn).
Arguments Returned {A} a.
Arguments Threw {A} e.

Definition M (S A : Type) : Type := S -> Outcome A * S.

Definition ret {S A} (a : A) : M S A := fun s => (Returned a, s).

Definition bind {S A B} (m : M S A) (k : A -> M S B) : M S B :=
  fun s => match m s with
           | (Returned a, s1) => k a s1
           | (Threw e, s1) => (Threw e, s1)
           end.

Definition throw {S A} (e : Exn) : M S A := fun s => (Threw e, s).

(** [try { m } catch (error) { h }] *)
Definition try_catch {S A} (m : M S A) (h : Exn -> M S A) : M S A :=
  fun s => match m s with
           | (Returned a, s1) => (Returned a, s1)
           | (Threw e, s1) => h e s1
           end.

Definition modify {S} (f : S -> S) : M S unit := fun s => (Returned tt, f s).
Definition lift_outcome {S A} (o : Outcome A) : M S A := fun s => (o, s).

(** A block with a local variable of type [L] next to the state: [with_local]
    runs it and returns the final value of the variable, [on_object] runs
    inside it a computation that does not touch the variable. *)
Definition with_local {S L} (init : L) (m : M (S * L) unit) : M S L :=
  fun s => match m (s, init) with
           | (Returned _, (s1, l)) => (Returned l, s1)
           | (Threw e, (s1, _)) => (Threw e, s1)
           end.

Definition on_object {S L A} (m : M S A) : M (S * L) A :=
  fun sl => let '(o, s1) := m (fst sl) in (o, (s1, snd sl)).

Declare Scope monad_scope.
Delimit Scope monad_scope with monad.
Notation "x <- m ;; k" := (bind m (fun x => k))
  (at level 61, m at next level, right associativity) : monad_scope.
Notation "m ;;; k" := (bind m (fun _ => k))
  (at level 61, right associativity) : monad_scope.

(** [for (const x of l) { body }]: an exception leaves the loop. *)
Fixpoint for_each {S A} (l : list A) (body : A -> M S unit) : M S unit :=
  match l with
  | [] => ret tt
  | x :: l' => bind (body x) (fun _ => for_each l' body)
  end.

(** ** The environment: randomness, clock and identifiers *)

Record World : Type := mkWorld {
  random_at : nat -> Q;      (* successive results of Math.random() *)
  now_at : nat -> Z;         (* successive results of Date.now() *)
  uuid_at : nat -> string;   (* successive results of uuidv4() *)
  n_random : nat;
  n_now : nat;
  n_uuid : nat
}.

Definition Math_random (w : World) : Q * World :=
  (random_at w (n_random w),
   mkWorld (random_at w) (now_at w) (uuid_at w)
           (S (n_random w)) (n_now w) (n_uuid w)).

Definition Date_now (w : World) : Z * World :=
  (now_at w (n_now w),
   mkWorld (random_at w) (now_at w) (uuid_at w)
           (n_random w) (S (n_now w)) (n_uuid w)).

Definition uuidv4 (w : World) : string * World :=
  (uuid_at w (n_uuid w),
   mkWorld (random_at w) (now_at w) (uuid_at w)
           (n_random w) (n_now w) (S (n_uuid w))).

(** Math.random() returns a value in [0, 1). *)
Definition random_in_range (w : World) : Prop :=
  forall k, 0 <= random_at w k /\ random_at w k < 1.

(** ** JavaScript values and the operations the source applies to them *)

Module Js.

#[local] Unset Elimination Schemes.
Inductive JsVal : Type :=
| JUndefined
| JNull
| JBool (b : bool)
| JNum (q : Q)
| JStr (s : string)
| JBuf (bytes : list byte)            (* a Node.js Buffer *)
| JArr (items : list JsVal)
| JObj (fields : list (string * JsVal)).
#[local] Set Elimination Schemes.

(** ToBoolean *)
Definition truthy (v : JsVal) : bool :=
  match v with
  | JUndefined | JNull => false
  | JBool b => b
  | JNum q => negb (Qzerob q)
  | JStr s => negb (String.eqb s "")
  | JBuf _ | JArr _ | JObj _ => true
  end.

Definition isArray (v : JsVal) : bool :=
  match v with JArr _ => true | _ => false end.

Definition isBuffer (v : JsVal) : bool :=
  match v with JBuf _ => true | _ => false end.

Fixpoint lookup_field (k : string) (fields : list (string * JsVal)) : JsVal :=
  match fields with
  | [] => JUndefined
  | (k', v) :: rest => if String.eqb k k' then v else lookup_field k rest
  end.

(** [v.k] for the property names the source reads ([transactions],
    [messages], [outMsgs], [data], [hash], [stdSmcAddress]): a TypeError on
    [null] and [undefined], the own property of an object, and [undefined]
    on the other values, which carry none of these names. *)
Definition get (v : JsVal) (k : string) : Outcome JsVal :=
  match v with
  | JUndefined | JNull => Threw TypeError
  | JObj fields => Returned (lookup_field k fields)
  | _ => Returned JUndefined
  end.

(** [Array.isArray(v) && v.length > 0] *)
Definition nonempty_array (v : JsVal) : bool :=
  match v with
  | JArr (_ :: _) => true
  | _ => false
  end.

(** [a[0]] of an array *)
Definition first_item (v : JsVal) : JsVal :=
  match v with
  | JArr (x :: _) => x
  | _ => JUndefined
  end.

(** *** Hexadecimal text *)

Definition hex_digit (n : N) : ascii :=
  if (n <? 10)%N then ascii_of_N (48 + n) else ascii_of_N (87 + n).

Definition hex_of_byte (b : byte) : string :=
  let n := Byte.to_N b in
  String (hex_digit (n / 16)) (String (hex_digit (n mod 16)) EmptyString).

(** [buf.toString('hex')] *)
Fixpoint toHex (bytes : list byte) : string :=
  match bytes with
  | [] => EmptyString
  | b :: rest => (hex_of_byte b ++ toHex rest)%string
  end.

(** The value of a hexadecimal digit, upper or lower case. *)
Definition hex_value (c : ascii) : option Z :=
  let n := Z.of_N (N_of_ascii c) in
  if ((48 <=? n) && (n <=? 57))%Z then Some (n - 48)%Z
  else if ((97 <=? n) && (n <=? 102))%Z then Some (n - 87)%Z
  else if ((65 <=? n) && (n <=? 70))%Z then Some (n - 55)%Z
  else None.

Definition is_hex_digit (c : ascii) : bool :=
  match hex_value c with Some _ => true | None => false end.

(** The longest prefix made of hexadecimal digits. *)
Fixpoint hex_run (s : string) : string :=
  match s with
  | EmptyString => EmptyString
  | String c s' => if is_hex_digit c then String c (hex_run s') else EmptyString
  end.

Fixpoint hex_to_Z (acc : Z) (s : string) : Z :=
  match s with
  | EmptyString => acc
  | String c s' =>
      match hex_value c with
      | Some d => hex_to_Z (16 * acc + d)%Z s'
      | None => acc
      end
  end.

Definition is_space (c : ascii) : bool :=
  let n := N_of_ascii c in
  ((9 <=? n) && (n <=? 13) || (n =? 32))%N.

Fixpoint skip_spaces (s : string) : string :=
  match s with
  | String c s' => if is_space c then skip_spaces s' else s
  | EmptyString => s
  end.

Definition strip_0x (s : string) : string :=
  match s with
  | String "0" (String "x" s') | String "0" (String "X" s') => s'
  | _ => s
  end.

(** The double nearest to a natural number (ties to even): a number below
    2^53 is a double; beyond, the 53 leading bits are kept and the bits
    dropped round them. *)
Definition nearest_double (n : Z) : Z :=
  if (n <? 2 ^ 53)%Z then n
  else
    let unit := (2 ^ (Z.log2 n - 52))%Z in
    let kept := (n / unit)%Z in
    let dropped := (n mod unit)%Z in
    let half := (unit / 2)%Z in
    if (dropped <? half)%Z then (kept * unit)%Z
    else if (half <? dropped)%Z then ((kept + 1) * unit)%Z
    else if Z.even kept then (kept * unit)%Z
    else ((kept + 1) * unit)%Z.

(** [parseInt(s, 16)]: leading white space, a sign, an optional [0x], then
    the longest run of hexadecimal digits, read as the nearest double;
    [None] stands for NaN.  Every text the source passes has at most sixteen
    characters, so the number is below 2^64. *)
Definition parseInt16 (s : string) : option Q :=
  let s1 := skip_spaces s in
  let '(sign, s2) :=
    match s1 with
    | String "-" s' => ((-1)%Z, s')
    | String "+" s' => (1%Z, s')
    | _ => (1%Z, s1)
    end in
  let digits := hex_run (strip_0x s2) in
  match digits with
  | EmptyString => None
  | _ => Some (inject_Z (sign * nearest_double (hex_to_Z 0 digits)))
  end.

(** [s.includes(t)] and [s.indexOf(t)] on strings *)
Definition str_includes (s t : string) : bool :=
  match String.index 0 t s with Some _ => true | None => false end.

Definition str_indexOf (s t : string) : nat :=
  match String.index 0 t s with Some i => i | None => 0 end.

(** [s.substring(a, b)] for [a <= b] *)
Definition str_substring (s : string) (a b : nat) : string :=
  String.substring a (b - a) s.

(** [s.match(/([0-9a-f]{8,16})/i)]: the capture of the leftmost match, a
    run of at least eight hexadecimal digits, of which at most sixteen are
    taken. *)
Fixpoint match_hex_8_16 (s : string) : option string :=
  match s with
  | EmptyString => None
  | String c s' =>
      let run := hex_run s in
      if (8 <=? String.length run)%nat
      then Some (String.substring 0 16 run)
      else match_hex_8_16 s'
  end.

(** [s.split('/')[1]] *)
Fixpoint up_to_slash (s : string) : string :=
  match s with
  | EmptyString => EmptyString
  | String c s' => if Ascii.eqb c "/" then EmptyString else String c (up_to_slash s')
  end.

Fixpoint split_slash_1 (s : string) : option string :=
  match s with
  | EmptyString => None
  | String c s' => if Ascii.eqb c "/" then Some (up_to_slash s') else split_slash_1 s'
  end.

(** An object has the key [k] of its own. *)
Definition has_key (k : string) (fields : list (string * JsVal)) : bool :=
  existsb (fun kv => String.eqb k (fst kv)) fields.

(** The conversion of a value to a string throws a TypeError on an object
    with a key [toString] of its own (no value of the model is callable, so
    the key hides the method of the prototype), and on an array that holds
    such a value; every other value has a text. *)
Fixpoint unprintable (v : JsVal) : bool :=
  match v with
  | JObj fields => has_key "toString" fields
  | JArr items => existsb unprintable items
  | _ => false
  end.

(** [v.toString('hex')] on a value that is neither [null] nor [undefined]:
    the hexadecimal text of a Buffer, the string itself, a RangeError on a
    number (['hex'] is no radix), a TypeError on an object whose [toString]
    is a key of its own and on an array whose items cannot be joined.  The
    text of an array is not modelled ([None]); no claim reads it. *)
Definition toString_hex (v : JsVal) : Outcome (option string) :=
  match v with
  | JNum _ => Threw RangeError
  | JBuf b => Returned (Some (toHex b))
  | JStr s => Returned (Some s)
  | JBool true => Returned (Some "true")
  | JBool false => Returned (Some "false")
  | JObj fields =>
      if has_key "toString" fields then Threw TypeError
      else Returned (Some "[object Object]")
  | JArr items =>
      if existsb unprintable items then Threw TypeError else Returned None
  | JUndefined | JNull => Threw TypeError
  end.

(** [tx.hash?.toString('hex')] evaluated for a log record: only whether it
    throws matters. *)
Definition log_hash (tx : JsVal) : Outcome unit :=
  match get tx "hash" with
  | Threw e => Threw e
  | Returned JUndefined | Returned JNull => Returned tt
  | Returned h =>
      match toString_hex h with
      | Threw e => Threw e
      | Returned _ => Returned tt
      end
  end.

(** [Buffer.isBuffer(v) ? v.toString('hex') : v] *)
Definition hex_or_self (v : JsVal) : JsVal :=
  match v with
  | JBuf b => JStr (toHex b)
  | _ => v
  end.

Definition is_JStr (t : string) (v : JsVal) : bool :=
  match v with JStr s => String.eqb s t | _ => false end.

(** [v.includes(t)] for a string [t]: substring search on a string, byte
    search on a Buffer, membership in an array, a TypeError where the method
    is missing. *)
Definition includes (v : JsVal) (t : string) : Outcome bool :=
  match v with
  | JStr s => Returned (str_includes s t)
  | JArr l => Returned (existsb (is_JStr t) l)
  | JBuf b => Returned (str_includes (string_of_list_byte b) t)
  | _ => Threw TypeError
  end.

(** [v.substring], [v.indexOf] and [v.match] exist on strings only. *)
Definition as_string (v : JsVal) : Outcome string :=
  match v with
  | JStr s => Returned s
  | _ => Threw TypeError
  end.

End Js.

(** ** The data model *)

(** A packet of mempool data: [data] is the raw payload, [transactions] the
    optional pre-extracted list. *)
Record MempoolPacket : Type := mkPacket {
  packet_id : string;
  packet_timestamp : Z;
  packet_data : Js.JsVal;
  packet_transactions : option (list Js.JsVal)
}.

Module ArbitrageOpportunityDetails.
Record t : Type := mk {
  buyDex : string;
  sellDex : string;
  tokenPair : string;
  priceDifferencePercent : Q;
  buyAmount : Q;
  sellAmount : Q;
  estimatedProfit : Q;
  estimatedGas : Q
}.
End ArbitrageOpportunityDetails.

Module SandwichOpportunityDetails.
Record t : Type := mk {
  targetTxHash : option string;
  tokenPair : string;
  targetSwapSize : Q;
  estimatedPriceImpact : Q;
  frontRunAmount : Q;
  backRunAmount : Q;
  estimatedFrontRunGas : Q;
  estimatedBackRunGas : Q;
  totalGasCost : Q
}.
End SandwichOpportunityDetails.

(** The strategy-specific payload of an opportunity.  The [executionPlan]
    display string of both payloads is not modelled. *)
Inductive Details : Type :=
| ArbitrageDetails (d : ArbitrageOpportunityDetails.t)
| SandwichDetails (d : SandwichOpportunityDetails.t)
| OtherDetails (d : Js.JsVal).

Record MEVOpportunity : Type := mkOpportunity {
  id : string;
  strategy : string;
  timestamp : Z;
  profitEstimate : Q;
  confidence : Q;
  details : Details;
  rawData : string * Z          (* packetId, timestamp *)
}.

(** ** The venue registry (config/dex-config) *)

Module DexConfig.

Record TokenConfig : Type := mkToken {
  address : option string;
  poolId : option string;
  tokenId : option string;
  decimals : nat;
  minAmount : Q;
  maxAmount : Q;
  swapOpCode : option string
}.

Record DexConfig : Type := mkDex {
  name : string;
  contractAddress : string;
  opCode : string;
  tokenConfigs : list (string * TokenConfig)
}.

Definition dexConfigs : list (string * DexConfig) :=
  [ ("DeDust",
     mkDex "DeDust" "EQBfBWT7X2BHg9tXAxzhz2aKiNTU1tpt5NsiK0uSDW_YAJ67" "b5ee9c72"
       [ ("USDT", mkToken
            (Some "0a519f99bb5b6d3d3c5c8d5e5f5a5b5c5d5e5f5a5b5c5d5e5f5a5b5c5d5e5f")
            None None 6 1 1000000 (Some "01e18801"));
         ("USDC", mkToken
            (Some "0b519f99bb5b6d3d3c5c8d5e5f5a5b5c5d5e5f5a5b5c5d5e5f5a5b5c5d5e5f")
            None None 6 1 1000000 (Some "01e18801"));
         ("ETH", mkToken
            (Some "0c519f99bb5b6d3d3c5c8d5e5f5a5b5c5d5e5f5a5b5c5d5e5f5a5b5c5d5e5f")
            None None 18 0.0001 100 (Some "01e18801")) ]);
    ("Ston.fi",
     mkDex "Ston.fi" "fdc7cd1d8d0e710105e2b69bbd747eb3748cc4103bc0dd581e91ba4360929b73"
       "b5ee9c72"
       [ ("USDT", mkToken None (Some "0001") None 6 1 1000000 None);
         ("USDC", mkToken None (Some "0002") None 6 1 1000000 None);
         ("ETH", mkToken None (Some "0003") None 18 0.0001 100 None) ]);
    ("Megaton",
     mkDex "Megaton" "0bfe2f05a7ccf04aa326cb3ae08c2bb7d9729ddec7fc04a5f9d01007d9c65f9f"
       "b5ee9c72"
       [ ("USDT", mkToken None None (Some "0101") 6 1 1000000 None);
         ("USDC", mkToken None None (Some "0102") 6 1 1000000 None);
         ("ETH", mkToken None None (Some "0103") 18 0.0001 100 None) ]) ].

Fixpoint assoc {A} (k : string) (l : list (string * A)) : option A :=
  match l with
  | [] => None
  | (k', v) :: rest => if String.eqb k k' then Some v else assoc k rest
  end.

(** [x || null] on an optional string: the empty string is falsy. *)
Definition nonempty (o : option string) : option string :=
  match o with
  | Some s => if String.eqb s "" then None else Some s
  | None => None
  end.

Definition tokenConfig (dexName token : string) : option TokenConfig :=
  match assoc dexName dexConfigs with
  | Some d => assoc token (tokenConfigs d)
  | None => None
  end.

Definition getDexContractAddress (dexName : string) : option string :=
  nonempty (option_map contractAddress (assoc dexName dexConfigs)).

Definition getDexOpCode (dexName : string) : option string :=
  nonempty (option_map opCode (assoc dexName dexConfigs)).

Definition getTokenAddress (dexName token : string) : option string :=
  nonempty (match tokenConfig dexName token with Some t => address t | None => None end).

Definition getTokenPoolId (dexName token : string) : option string :=
  nonempty (match tokenConfig dexName token with Some t => poolId t | None => None end).

Definition getTokenId (dexName token : string) : option string :=
  nonempty (match tokenConfig dexName token with Some t => tokenId t | None => None end).

Definition getTokenSwapOpCode (dexName token : string) : option string :=
  nonempty (match tokenConfig dexName token with Some t => swapOpCode t | None => None end).

Definition getTokenDecimals (dexName token : string) : nat :=
  match tokenConfig dexName token with
  | Some t => match decimals t with O => 18%nat | d => d end
  | None => 18%nat
  end.

Definition getSupportedDexes : list string := map fst dexConfigs.

Definition getSupportedTokens (dexName : string) : list string :=
  match assoc dexName dexConfigs with
  | Some d => map fst (tokenConfigs d)
  | None => []
  end.

End DexConfig.

(** ** The arbitrage price cache

    [Record<string, Record<string, { price, timestamp }>>]: an object keeps
    its keys in insertion order (venue and pair names are not array
    indices), so both levels are association lists. *)

Module PriceCache.

Record Entry : Type := mkEntry {
  price : Q;
  timestamp : Z
}.

Definition Pairs : Type := list (string * Entry).
Definition t : Type := list (string * Pairs).

Definition PRICE_CACHE_TTL : Z := 60000.
Definition MAX_CACHE_SIZE : nat := 1000.

Section Objects.
Context {V : Type}.

(** [obj[k]] *)
Fixpoint obj_get (k : string) (o : list (string * V)) : option V :=
  match o with
  | [] => None
  | (k', v) :: rest => if String.eqb k k' then Some v else obj_get k rest
  end.

(** [obj[k] = v]: an existing key keeps its place, a new one goes last. *)
Fixpoint obj_set (k : string) (v : V) (o : list (string * V)) : list (string * V) :=
  match o with
  | [] => [(k, v)]
  | (k', v') :: rest =>
      if String.eqb k k' then (k', v) :: rest else (k', v') :: obj_set k v rest
  end.

(** [delete obj[k]] *)
Fixpoint obj_delete (k : string) (o : list (string * V)) : list (string * V) :=
  match o with
  | [] => []
  | (k', v') :: rest =>
      if String.eqb k k' then rest else (k', v') :: obj_delete k rest
  end.
End Objects.

(** [this.priceCache[dex]?.[tokenPair]] *)
Definition entry_of (c : t) (dex tokenPair : string) : option Entry :=
  match obj_get dex c with
  | Some pairs => obj_get tokenPair pairs
  | None => None
  end.

Definition expired (now : Z) (e : Entry) : bool :=
  (now - timestamp e >? PRICE_CACHE_TTL)%Z.

(** The first loop of [cleanupPriceCache] on one venue: every pair older
    than the TTL is deleted. *)
Definition drop_expired (now : Z) (pairs : Pairs) : Pairs :=
  filter (fun kv => negb (expired now (snd kv))) pairs.

(** [entries.sort(([, a], [, b]) => a.timestamp - b.timestamp)]: ascending
    and stable. *)
Fixpoint insert_by_age (x : string * Entry) (l : Pairs) : Pairs :=
  match l with
  | [] => [x]
  | y :: l' =>
      if (timestamp (snd x) <=? timestamp (snd y))%Z
      then x :: y :: l'
      else y :: insert_by_age x l'
  end.

Definition sort_by_age (l : Pairs) : Pairs := fold_right insert_by_age [] l.

(** The capacity rule of [cleanupPriceCache] on one venue: beyond
    [MAX_CACHE_SIZE] entries, the oldest ones are deleted. *)
Definition evict_oldest (pairs : Pairs) : Pairs :=
  if (MAX_CACHE_SIZE <? List.length pairs)%nat
  then
    let victims := firstn (List.length pairs - MAX_CACHE_SIZE) (sort_by_age pairs) in
    fold_left (fun o kv => obj_delete (fst kv) o) victims pairs
  else pairs.

Definition cleanupPriceCache (now : Z) (c : t) : t :=
  map (fun dp => (fst dp, evict_oldest (drop_expired now (snd dp)))) c.

(** [getPriceFromCache(dex, tokenPair)], with the reading [now] of the
    clock: the price and the cache afterwards (an expired entry is
    deleted). *)
Definition getPriceFromCache (now : Z) (dex tokenPair : string) (c : t)
  : option Q * t :=
  match entry_of c dex tokenPair with
  | None => (None, c)
  | Some cacheEntry =>
      if expired now cacheEntry
      then (None,
            match obj_get dex c with
            | Some pairs => obj_set dex (obj_delete tokenPair pairs) c
            | None => c
            end)
      else (Some (price cacheEntry), c)
  end.

(** [updatePriceCache(dex, tokenPair, price)]: [now] is the clock reading
    stored with the price, [now'] the later one taken by the clean-up. *)
Definition updatePriceCache (now now' : Z) (dex tokenPair : string) (p : Q) (c : t) : t :=
  let c1 := match obj_get dex c with
            | Some _ => c
            | None => obj_set dex [] c
            end in
  let pairs := match obj_get dex c1 with Some ps => ps | None => [] end in
  let c2 := obj_set dex (obj_set tokenPair (mkEntry p now) pairs) c1 in
  cleanupPriceCache now' c2.

End PriceCache.

(** ** Strategies: the state a strategy method runs in *)

(** A method of a strategy object runs on the object's own state ([self])
    and on the environment. *)
Record Ctx (St : Type) : Type := mkCtx {
  self : St;
  world : World
}.
Arguments mkCtx {St} self world.
Arguments self {St} c.
Arguments world {St} c.

Definition in_world {St A} (f : World -> A * World) : M (Ctx St) A :=
  fun c => let '(a, w) := f (world c) in (Returned a, mkCtx (self c) w).

Definition get_self {St} : M (Ctx St) St := fun c => (Returned (self c), c).

Definition update_self {St} (f : St -> St) : M (Ctx St) unit :=
  fun c => (Returned tt, mkCtx (f (self c)) (world c)).

(** ** The sandwich strategy (strategies/sandwich-strategy) *)

Module Sandwich.

(** A configuration whose thresholds are finite numbers; [SandwichNum] has
    the others. *)
Record SandwichConfig : Type := mkConfig {
  enabled : bool;
  minConfidence : Q;
  minProfitEstimate : Q;
  minTargetSwapSize : Q;
  maxFrontRunGas : Q;
  maxBackRunGas : Q;
  targetPairs : list string;
  slippageTolerance : Q
}.

(** The defaults of the constructor. *)
Definition defaultConfig : SandwichConfig :=
  mkConfig true 0.8 0.05 10 0.03 0.03 ["TON/USDT"; "TON/USDC"; "JETTON/TON"] 1.

Record State : Type := mkState {
  name : string;
  config : SandwichConfig;
  opportunities : list MEVOpportunity
}.

Definition new (cfg : SandwichConfig) : State := mkState "sandwich" cfg [].

(** What [extractSwapDetails] returns: the pair is [undefined] when the
    placeholder is taken from an empty target list. *)
Record SwapDetails : Type := mkSwap {
  tokenPair : option string;
  swapSize : Q
}.

(** [amountValue > 0 && amountValue < 1e18] *)
Definition reasonable_amount (v : Q) : bool := Qltb 0 v && Qltb v 1e18.

(** The loop over [possibleOffsets]: the first offset whose sixteen digits
    fit in the text and read as a reasonable amount. *)
Fixpoint amount_at_offsets (hex : string) (opCodeIndex : nat) (offsets : list nat)
  : option Q :=
  match offsets with
  | [] => None
  | offset :: rest =>
      if (opCodeIndex + offset + 16 <=? String.length hex)%nat
      then
        match Js.parseInt16
                (Js.str_substring hex (opCodeIndex + offset) (opCodeIndex + offset + 16))
        with
        | Some amountValue =>
            if reasonable_amount amountValue then Some amountValue
            else amount_at_offsets hex opCodeIndex rest
        | None => amount_at_offsets hex opCodeIndex rest
        end
      else amount_at_offsets hex opCodeIndex rest
  end.

(** The first block of [extractSwapDetails]: the swap read from
    [tx.outMsgs[0]]. *)
Definition swap_from_outMsgs (outMsgs : Js.JsVal) : option SwapDetails :=
  if Js.truthy outMsgs && Js.nonempty_array outMsgs then
    match Js.first_item outMsgs with
    | Js.JBuf bytes =>
        let outMsgHex := Js.toHex bytes in
        if Js.str_includes outMsgHex "01e18801" then
          let opCodeIndex := Js.str_indexOf outMsgHex "01e18801" in
          match amount_at_offsets outMsgHex opCodeIndex [8; 16; 24; 32]%nat with
          | Some amountValue => Some (mkSwap (Some "TON/USDT") (amountValue / 1e9))
          | None => None
          end
        else None
    | _ => None
    end
  else None.

(** The second block: the swap read from a truthy [tx.data]; a value that
    is neither a Buffer nor a string has no [substring] and throws. *)
Definition swap_from_data (data : Js.JsVal) : Outcome (option SwapDetails) :=
  match Js.as_string (Js.hex_or_self data) with
  | Threw e => Threw e
  | Returned dataHex =>
      if Js.str_includes dataHex "swap" || Js.str_includes dataHex "exchange"
         || Js.str_includes dataHex "01e18801"
      then
        match Js.match_hex_8_16 dataHex with
        | Some amountHex =>
            match Js.parseInt16 amountHex with
            | Some amountValue =>
                if reasonable_amount amountValue
                then Returned (Some (mkSwap (Some "TON/USDT") (amountValue / 1e9)))
                else Returned None
            | None => Returned None
            end
        | None => Returned None
        end
      else Returned None
  end.

Local Open Scope monad_scope.

(** [extractSwapDetails(tx)]: [None] is the [null] of the catch block. *)
Definition extractSwapDetails (tx : Js.JsVal) : M (Ctx State) (option SwapDetails) :=
  try_catch
    (outMsgs <- lift_outcome (Js.get tx "outMsgs") ;;
     match swap_from_outMsgs outMsgs with
     | Some d => ret (Some d)
     | None =>
         data <- lift_outcome (Js.get tx "data") ;;
         fromData <- (if Js.truthy data then lift_outcome (swap_from_data data)
                      else ret None) ;;
         match fromData with
         | Some d => ret (Some d)
         | None =>
             (* the fallback with placeholder values *)
             this <- get_self ;;
             let sandwichConfig := config this in
             let tokenPair := nth_error (targetPairs sandwichConfig) 0 in
             r <- in_world Math_random ;;
             let swapSize := minTargetSwapSize sandwichConfig + r * 20 in
             ret (Some (mkSwap tokenPair swapSize))
         end
     end)
    (fun _ => ret None).

(** Whether one of the two decoding blocks of [extractSwapDetails] reads a
    swap out of [tx]; when none does, the function takes the placeholder
    (or answers [null] after an exception). *)
Definition decodes_swap (tx : Js.JsVal) : bool :=
  match Js.get tx "outMsgs" with
  | Threw _ => false
  | Returned outMsgs =>
      match swap_from_outMsgs outMsgs with
      | Some _ => true
      | None =>
          match Js.get tx "data" with
          | Threw _ => false
          | Returned data =>
              if Js.truthy data then
                match swap_from_data data with
                | Returned (Some _) => true
                | _ => false
                end
              else false
          end
      end
  end.

Definition calculatePriceImpact (cfg : SandwichConfig) (swapSize : Q) : Q :=
  let impact := 0.1 in
  let sizeAboveMin := swapSize - minTargetSwapSize cfg in
  let impact := impact + (sizeAboveMin / 10) * 0.05 in
  Qmin impact 5.

Definition calculateOptimalFrontRunAmount (targetSwapSize priceImpact : Q) : Q :=
  targetSwapSize * (0.15 + priceImpact / 100).

Definition calculateOptimalBackRunAmount (targetSwapSize frontRunAmount : Q)
  : M (Ctx State) Q :=
  r <- in_world Math_random ;;
  ret (frontRunAmount + targetSwapSize * (0.05 + r * 0.05)).

Definition calculateProfitEstimate (targetSwapSize priceImpact gasCost : Q)
  : M (Ctx State) Q :=
  r <- in_world Math_random ;;
  let captureRate := 0.6 + r * 0.2 in
  let grossProfit := (targetSwapSize * priceImpact / 100) * captureRate in
  ret (grossProfit - gasCost).

(** [calculateConfidence]: the two quotients are the source's when
    [minTargetSwapSize] and [minProfitEstimate] are not zero. *)
Definition calculateConfidence (cfg : SandwichConfig)
  (swapSize priceImpact profitEstimate : Q) : Q :=
  let confidence := 0.7 in
  let swapSizeFactor := Qmin ((swapSize / minTargetSwapSize cfg) * 0.05) 0.15 in
  let confidence := confidence + swapSizeFactor in
  let impactFactor := Qmin (priceImpact * 0.02) 0.1 in
  let confidence := confidence + impactFactor in
  let profitFactor := Qmin ((profitEstimate / minProfitEstimate cfg) * 0.02) 0.1 in
  let confidence := confidence + profitFactor in
  Qmin confidence 0.98.

(** [(tx as any).hash?.toString('hex') || 'unknown'] *)
Definition targetTxHash_of (tx : Js.JsVal) : Outcome (option string) :=
  match Js.get tx "hash" with
  | Threw e => Threw e
  | Returned Js.JUndefined | Returned Js.JNull => Returned (Some "unknown")
  | Returned h =>
      match Js.toString_hex h with
      | Threw e => Threw e
      | Returned (Some s) => Returned (Some (if String.eqb s "" then "unknown" else s))
      | Returned None => Returned None
      end
  end.

Definition includes_pair (pairs : list string) (p : option string) : bool :=
  match p with
  | Some s => existsb (String.eqb s) pairs
  | None => false
  end.

Definition pair_text (p : option string) : string :=
  match p with Some s => s | None => "" end.

Definition push (o : MEVOpportunity) (s : State) : State :=
  mkState (name s) (config s) (opportunities s ++ [o]).

(** [analyze(packet)].  The catch block returns [newOpportunities], which
    is still empty at every point that can throw. *)
Definition analyze (packet : MempoolPacket) : M (Ctx State) (list MEVOpportunity) :=
  this <- get_self ;;
  let sandwichConfig := config this in
  try_catch
    (let tx := packet_data packet in
     if negb (Js.truthy tx) then ret [] else
     swapDetails <- extractSwapDetails tx ;;
     match swapDetails with
     | None => ret []
     | Some swapDetails =>
       if negb (includes_pair (targetPairs sandwichConfig) (tokenPair swapDetails))
       then ret [] else
       if Qltb (swapSize swapDetails) (minTargetSwapSize sandwichConfig)
       then ret [] else
       let estimatedPriceImpact :=
         calculatePriceImpact sandwichConfig (swapSize swapDetails) in
       if Qltb estimatedPriceImpact 0.5 then ret [] else
       let frontRunAmount :=
         calculateOptimalFrontRunAmount (swapSize swapDetails) estimatedPriceImpact in
       backRunAmount <-
         calculateOptimalBackRunAmount (swapSize swapDetails) frontRunAmount ;;
       let estimatedFrontRunGas :=
         Qmin (maxFrontRunGas sandwichConfig) (0.01 + frontRunAmount * 0.001) in
       let estimatedBackRunGas :=
         Qmin (maxBackRunGas sandwichConfig) (0.01 + backRunAmount * 0.001) in
       let totalGasCost := estimatedFrontRunGas + estimatedBackRunGas in
       profitEstimate <-
         calculateProfitEstimate (swapSize swapDetails) estimatedPriceImpact totalGasCost ;;
       if Qltb profitEstimate (minProfitEstimate sandwichConfig) then ret [] else
       let confidence :=
         calculateConfidence sandwichConfig (swapSize swapDetails)
                             estimatedPriceImpact profitEstimate in
       if Qltb confidence (minConfidence sandwichConfig) then ret [] else
       targetTxHash <- lift_outcome (targetTxHash_of tx) ;;
       let details :=
         SandwichOpportunityDetails.mk
           targetTxHash (pair_text (tokenPair swapDetails)) (swapSize swapDetails)
           estimatedPriceImpact frontRunAmount backRunAmount
           estimatedFrontRunGas estimatedBackRunGas totalGasCost in
       id <- in_world uuidv4 ;;
       let opportunity :=
         mkOpportunity id (name this) (packet_timestamp packet)
                       profitEstimate confidence (SandwichDetails details)
                       (packet_id packet, packet_timestamp packet) in
       update_self (push opportunity) ;;;
       ret [opportunity]
     end)
    (fun _ => ret []).

Definition clearOpportunities (s : State) : State :=
  mkState (name s) (config s) [].

End Sandwich.

(** ** Numbers that are not finite *)

(** A JavaScript number, unrounded: a finite number, a negative zero, an
    infinity or NaN.  [Fin q] with [q] zero is the positive zero. *)
Module Num.

Inductive t : Type :=
| Fin (q : Q)
| NegZero
| Infinity
| NegInfinity
| NaN.

Definition value (x : t) : Q :=
  match x with Fin q => q | _ => 0 end.

Definition is_finite (x : t) : bool :=
  match x with Fin _ | NegZero => true | _ => false end.

Definition is_zero (x : t) : bool :=
  match x with Fin q => Qzerob q | NegZero => true | _ => false end.

(** The sign bit of a number that is not NaN. *)
Definition negative (x : t) : bool :=
  match x with
  | Fin q => Qltb q 0
  | NegZero | NegInfinity => true
  | Infinity | NaN => false
  end.

Definition zero (neg : bool) : t := if neg then NegZero else Fin 0.
Definition infinity (neg : bool) : t := if neg then NegInfinity else Infinity.

(** [-x] *)
Definition opp (x : t) : t :=
  match x with
  | Fin q => if Qzerob q then NegZero else Fin (- q)
  | NegZero => Fin 0
  | Infinity => NegInfinity
  | NegInfinity => Infinity
  | NaN => NaN
  end.

(** [x + y]: the infinities of opposite signs add up to NaN; a sum of
    finite numbers that is zero is the positive zero, unless both are the
    negative zero. *)
Definition add (x y : t) : t :=
  match x, y with
  | NaN, _ | _, NaN => NaN
  | Infinity, NegInfinity | NegInfinity, Infinity => NaN
  | Infinity, _ | _, Infinity => Infinity
  | NegInfinity, _ | _, NegInfinity => NegInfinity
  | NegZero, NegZero => NegZero
  | NegZero, Fin q | Fin q, NegZero => Fin q
  | Fin a, Fin b => Fin (a + b)
  end.

(** [x - y] *)
Definition sub (x y : t) : t := add x (opp y).

(** [x * y]: an infinity times a zero is NaN; the sign of a zero or of an
    infinity is the product of the signs. *)
Definition mul (x y : t) : t :=
  match x, y with
  | NaN, _ | _, NaN => NaN
  | _, _ =>
      let neg := xorb (negative x) (negative y) in
      if is_finite x && is_finite y then
        if is_zero x || is_zero y then zero neg else Fin (value x * value y)
      else if is_zero x || is_zero y then NaN
      else infinity neg
  end.

(** [x / y]: zero by zero and infinity by infinity are NaN; a number by a
    zero is an infinity. *)
Definition div (x y : t) : t :=
  match x, y with
  | NaN, _ | _, NaN => NaN
  | _, _ =>
      let neg := xorb (negative x) (negative y) in
      match is_finite x, is_finite y with
      | false, false => NaN
      | false, true => infinity neg
      | true, false => zero neg
      | true, true =>
          if is_zero y then (if is_zero x then NaN else infinity neg)
          else if is_zero x then zero neg
          else Fin (value x / value y)
      end
  end.

(** [x < y]: false as soon as one side is NaN. *)
Definition lt (x y : t) : bool :=
  match x, y with
  | NaN, _ | _, NaN => false
  | _, NegInfinity => false
  | NegInfinity, _ => true
  | Infinity, _ => false
  | _, Infinity => true
  | _, _ => Qltb (value x) (value y)
  end.

(** [x >= y]: false as soon as one side is NaN. *)
Definition ge (x y : t) : bool :=
  match x, y with
  | NaN, _ | _, NaN => false
  | _, _ => negb (lt x y)
  end.

(** [Math.min(x, y)]: NaN as soon as one side is NaN; the negative zero is
    below the positive one. *)
Definition min (x y : t) : t :=
  match x, y with
  | NaN, _ | _, NaN => NaN
  | _, _ =>
      if lt x y then x
      else if lt y x then y
      else if negative x then x else y
  end.

End Num.

(** ** The sandwich strategy over every number

    [updateConfig] merges what it is given, so a threshold of a sandwich
    strategy can be any number, infinite or NaN as well.  This is
    [SandwichStrategy] once more, with every number taken unrounded from
    [Num.t]; the decoding of a swap from a transaction is the one of
    [Sandwich]. *)

Module SandwichNum.

Record SandwichConfig : Type := mkConfig {
  enabled : bool;
  minConfidence : Num.t;
  minProfitEstimate : Num.t;
  minTargetSwapSize : Num.t;
  maxFrontRunGas : Num.t;
  maxBackRunGas : Num.t;
  targetPairs : list string;
  slippageTolerance : Num.t
}.

(** The configuration of [Sandwich] with the same thresholds. *)
Definition of_finite (cfg : Sandwich.SandwichConfig) : SandwichConfig :=
  mkConfig (Sandwich.enabled cfg)
           (Num.Fin (Sandwich.minConfidence cfg))
           (Num.Fin (Sandwich.minProfitEstimate cfg))
           (Num.Fin (Sandwich.minTargetSwapSize cfg))
           (Num.Fin (Sandwich.maxFrontRunGas cfg))
           (Num.Fin (Sandwich.maxBackRunGas cfg))
           (Sandwich.targetPairs cfg)
           (Num.Fin (Sandwich.slippageTolerance cfg)).

Record Details : Type := mkDetails {
  targetTxHash : option string;
  tokenPair : string;
  targetSwapSize : Num.t;
  estimatedPriceImpact : Num.t;
  frontRunAmount : Num.t;
  backRunAmount : Num.t;
  estimatedFrontRunGas : Num.t;
  estimatedBackRunGas : Num.t;
  totalGasCost : Num.t
}.

Record Opportunity : Type := mkOpportunity {
  id : string;
  strategy : string;
  timestamp : Z;
  profitEstimate : Num.t;
  confidence : Num.t;
  details : Details;
  rawData : string * Z
}.

Record State : Type := mkState {
  name : string;
  config : SandwichConfig;
  opportunities : list Opportunity
}.

Definition new (cfg : SandwichConfig) : State := mkState "sandwich" cfg [].

Record SwapDetails : Type := mkSwap {
  swapPair : option string;
  swapSize : Num.t
}.

(** A swap decoded from the transaction has a finite size. *)
Definition decoded (d : Sandwich.SwapDetails) : SwapDetails :=
  mkSwap (Sandwich.tokenPair d) (Num.Fin (Sandwich.swapSize d)).

Local Open Scope monad_scope.

(** [extractSwapDetails(tx)] *)
Definition extractSwapDetails (tx : Js.JsVal) : M (Ctx State) (option SwapDetails) :=
  try_catch
    (outMsgs <- lift_outcome (Js.get tx "outMsgs") ;;
     match Sandwich.swap_from_outMsgs outMsgs with
     | Some d => ret (Some (decoded d))
     | None =>
         data <- lift_outcome (Js.get tx "data") ;;
         fromData <- (if Js.truthy data then lift_outcome (Sandwich.swap_from_data data)
                      else ret None) ;;
         match fromData with
         | Some d => ret (Some (decoded d))
         | None =>
             this <- get_self ;;
             let sandwichConfig := config this in
             let tokenPair := nth_error (targetPairs sandwichConfig) 0 in
             r <- in_world Math_random ;;
             let swapSize :=
               Num.add (minTargetSwapSize sandwichConfig)
                       (Num.mul (Num.Fin r) (Num.Fin 20)) in
             ret (Some (mkSwap tokenPair swapSize))
         end
     end)
    (fun _ => ret None).

Definition calculatePriceImpact (cfg : SandwichConfig) (swapSize : Num.t) : Num.t :=
  let impact := Num.Fin 0.1 in
  let sizeAboveMin := Num.sub swapSize (minTargetSwapSize cfg) in
  let impact :=
    Num.add impact (Num.mul (Num.div sizeAboveMin (Num.Fin 10)) (Num.Fin 0.05)) in
  Num.min impact (Num.Fin 5).

Definition calculateOptimalFrontRunAmount (targetSwapSize priceImpact : Num.t) : Num.t :=
  Num.mul targetSwapSize
          (Num.add (Num.Fin 0.15) (Num.div priceImpact (Num.Fin 100))).

Definition calculateOptimalBackRunAmount (targetSwapSize frontRunAmount : Num.t)
  : M (Ctx State) Num.t :=
  r <- in_world Math_random ;;
  ret (Num.add frontRunAmount
         (Num.mul targetSwapSize
            (Num.add (Num.Fin 0.05) (Num.mul (Num.Fin r) (Num.Fin 0.05))))).

Definition calculateProfitEstimate (targetSwapSize priceImpact gasCost : Num.t)
  : M (Ctx State) Num.t :=
  r <- in_world Math_random ;;
  let captureRate := Num.add (Num.Fin 0.6) (Num.mul (Num.Fin r) (Num.Fin 0.2)) in
  let grossProfit :=
    Num.mul (Num.div (Num.mul targetSwapSize priceImpact) (Num.Fin 100)) captureRate in
  ret (Num.sub grossProfit gasCost).

Definition calculateConfidence (cfg : SandwichConfig)
  (swapSize priceImpact profitEstimate : Num.t) : Num.t :=
  let confidence := Num.Fin 0.7 in
  let swapSizeFactor :=
    Num.min (Num.mul (Num.div swapSize (minTargetSwapSize cfg)) (Num.Fin 0.05))
            (Num.Fin 0.15) in
  let confidence := Num.add confidence swapSizeFactor in
  let impactFactor := Num.min (Num.mul priceImpact (Num.Fin 0.02)) (Num.Fin 0.1) in
  let confidence := Num.add confidence impactFactor in
  let profitFactor :=
    Num.min (Num.mul (Num.div profitEstimate (minProfitEstimate cfg)) (Num.Fin 0.02))
            (Num.Fin 0.1) in
  let confidence := Num.add confidence profitFactor in
  Num.min confidence (Num.Fin 0.98).

Definition push (o : Opportunity) (s : State) : State :=
  mkState (name s) (config s) (opportunities s ++ [o]).

(** [analyze(packet)] *)
Definition analyze (packet : MempoolPacket) : M (Ctx State) (list Opportunity) :=
  this <- get_self ;;
  let sandwichConfig := config this in
  try_catch
    (let tx := packet_data packet in
     if negb (Js.truthy tx) then ret [] else
     swapDetails <- extractSwapDetails tx ;;
     match swapDetails with
     | None => ret []
     | Some swapDetails =>
       if negb (Sandwich.includes_pair (targetPairs sandwichConfig) (swapPair swapDetails))
       then ret [] else
       if Num.lt (swapSize swapDetails) (minTargetSwapSize sandwichConfig)
       then ret [] else
       let estimatedPriceImpact :=
         calculatePriceImpact sandwichConfig (swapSize swapDetails) in
       if Num.lt estimatedPriceImpact (Num.Fin 0.5) then ret [] else
       let frontRunAmount :=
         calculateOptimalFrontRunAmount (swapSize swapDetails) estimatedPriceImpact in
       backRunAmount <-
         calculateOptimalBackRunAmount (swapSize swapDetails) frontRunAmount ;;
       let estimatedFrontRunGas :=
         Num.min (maxFrontRunGas sandwichConfig)
                 (Num.add (Num.Fin 0.01) (Num.mul frontRunAmount (Num.Fin 0.001))) in
       let estimatedBackRunGas :=
         Num.min (maxBackRunGas sandwichConfig)
                 (Num.add (Num.Fin 0.01) (Num.mul backRunAmount (Num.Fin 0.001))) in
       let totalGasCost := Num.add estimatedFrontRunGas estimatedBackRunGas in
       profitEstimate <-
         calculateProfitEstimate (swapSize swapDetails) estimatedPriceImpact totalGasCost ;;
       if Num.lt profitEstimate (minProfitEstimate sandwichConfig) then ret [] else
       let confidence :=
         calculateConfidence sandwichConfig (swapSize swapDetails)
                             estimatedPriceImpact profitEstimate in
       if Num.lt confidence (minConfidence sandwichConfig) then ret [] else
       targetTxHash <- lift_outcome (Sandwich.targetTxHash_of tx) ;;
       let details :=
         mkDetails targetTxHash (Sandwich.pair_text (swapPair swapDetails))
                   (swapSize swapDetails) estimatedPriceImpact frontRunAmount
                   backRunAmount estimatedFrontRunGas estimatedBackRunGas totalGasCost in
       id <- in_world uuidv4 ;;
       let opportunity :=
         mkOpportunity id (name this) (packet_timestamp packet)
                       profitEstimate confidence details
                       (packet_id packet, packet_timestamp packet) in
       update_self (push opportunity) ;;;
       ret [opportunity]
     end)
    (fun _ => ret []).

(** [meetsMinimumCriteria(opportunity)], inherited from [BaseStrategy]. *)
Definition meetsMinimumCriteria (s : State) (opportunity : Opportunity) : bool :=
  Num.ge (confidence opportunity) (minConfidence (config s))
  && Num.ge (profitEstimate opportunity) (minProfitEstimate (config s)).

End SandwichNum.

(** ** The arbitrage strategy (strategies/arbitrage-strategy) *)

Module Arbitrage.

Record ArbitrageConfig : Type := mkConfig {
  enabled : bool;
  minPriceDifferencePercent : Q;
  maxSlippage : Q;
  gasBuffer : Q;
  dexes : list string;
  minProfitEstimate : Q;
  minConfidence : Q
}.

(** The defaults of the constructor. *)
Definition defaultConfig : ArbitrageConfig :=
  mkConfig true 0.5 0.5 0.005 DexConfig.getSupportedDexes 0.01 0.7.

Record State : Type := mkState {
  name : string;
  config : ArbitrageConfig;
  opportunities : list MEVOpportunity;
  priceCache : PriceCache.t
}.

(** The constructor: an empty cache object for each configured venue. *)
Definition new (cfg : ArbitrageConfig) : State :=
  mkState "arbitrage" cfg []
          (fold_left (fun c dex => PriceCache.obj_set dex [] c) (dexes cfg) []).

Record DexInfo : Type := mkDexInfo {
  dex : string;
  tokenPair : string;
  price : Q
}.

(** [extractTransactions(packet)]: the pre-extracted list, else
    [data.transactions], else [data.messages], else [data] when it is an
    array, else nothing. *)
Definition extractTransactions (packet : MempoolPacket) : list Js.JsVal :=
  match packet_transactions packet with
  | Some txs => txs
  | None =>
      let data := packet_data packet in
      if Js.truthy data then
        match Js.get data "transactions" with
        | Returned (Js.JArr txs) => txs
        | _ =>
            match Js.get data "messages" with
            | Returned (Js.JArr msgs) => msgs
            | _ =>
                match data with
                | Js.JArr items => items
                | _ => []
                end
            end
        end
      else []
  end.

(** The loops [for (const dex of getSupportedDexes())] of
    [isDexTransaction] and [extractDexInfo]: the first venue whose address
    (or operation code) occurs in [v]. *)
Fixpoint find_dex (needle_of : string -> option string) (v : Js.JsVal)
  (dexNames : list string) : Outcome (option string) :=
  match dexNames with
  | [] => Returned None
  | dexName :: rest =>
      match needle_of dexName with
      | None => find_dex needle_of v rest
      | Some needle =>
          match Js.includes v needle with
          | Threw e => Threw e
          | Returned true => Returned (Some dexName)
          | Returned false => find_dex needle_of v rest
          end
      end
  end.

(** The three probes shared by [isDexTransaction] and [extractDexInfo]:
    the contract address in [stdSmcAddress], then the operation code in
    [outMsgs[0]], then the operation code in [data]. *)
Definition dex_by_address (tx : Js.JsVal) : Outcome (option string) :=
  match Js.get tx "stdSmcAddress" with
  | Threw e => Threw e
  | Returned a =>
      if Js.truthy a
      then find_dex DexConfig.getDexContractAddress (Js.hex_or_self a)
                    DexConfig.getSupportedDexes
      else Returned None
  end.

Definition dex_by_outMsgs (tx : Js.JsVal) : Outcome (option string) :=
  match Js.get tx "outMsgs" with
  | Threw e => Threw e
  | Returned outMsgs =>
      if Js.nonempty_array outMsgs then
        match Js.first_item outMsgs with
        | Js.JBuf bytes =>
            find_dex DexConfig.getDexOpCode (Js.JStr (Js.toHex bytes))
                     DexConfig.getSupportedDexes
        | _ => Returned None
        end
      else Returned None
  end.

Definition dex_by_data (tx : Js.JsVal) : Outcome (option string) :=
  match Js.get tx "data" with
  | Threw e => Threw e
  | Returned data =>
      if Js.truthy data
      then find_dex DexConfig.getDexOpCode (Js.hex_or_self data)
                    DexConfig.getSupportedDexes
      else Returned None
  end.

Definition bind_outcome {A B} (o : Outcome A) (k : A -> Outcome B) : Outcome B :=
  match o with
  | Returned a => k a
  | Threw e => Threw e
  end.

(** A probe that found a venue logs the transaction hash before the
    function goes on. *)
Definition found_and_logged (tx : Js.JsVal) (probe : Outcome (option string))
  : Outcome bool :=
  bind_outcome probe (fun r =>
    match r with
    | Some _ => bind_outcome (Js.log_hash tx) (fun _ => Returned true)
    | None => Returned false
    end).

(** [isDexTransaction(tx)]: the catch block logs the hash, which may throw
    in its turn, and answers [false]. *)
Definition isDexTransaction (tx : Js.JsVal) : Outcome bool :=
  let body :=
    bind_outcome (found_and_logged tx (dex_by_address tx)) (fun byAddress =>
    if byAddress then Returned true else
    bind_outcome (found_and_logged tx (dex_by_outMsgs tx)) (fun byOutMsgs =>
    if byOutMsgs then Returned true else
    bind_outcome (found_and_logged tx (dex_by_data tx)) (fun byData =>
    Returned byData))) in
  match body with
  | Returned b => Returned b
  | Threw _ => bind_outcome (Js.log_hash tx) (fun _ => Returned false)
  end.

(** [priceValue > 0 && priceValue < 1e18] *)
Definition reasonable_price (v : Q) : bool := Qltb 0 v && Qltb v 1e18.

Definition pow10 (n : nat) : Q := inject_Z (10 ^ Z.of_nat n).

(** The loop over [possibleOffsets] in the outMsgs block of
    [extractDexInfo]. *)
Fixpoint price_at_offsets (hex : string) (opCodeIndex : nat) (offsets : list nat)
  : option Q :=
  match offsets with
  | [] => None
  | offset :: rest =>
      if (opCodeIndex + offset + 16 <=? String.length hex)%nat
      then
        match Js.parseInt16
                (Js.str_substring hex (opCodeIndex + offset) (opCodeIndex + offset + 16))
        with
        | Some priceValue =>
            if reasonable_price priceValue then Some priceValue
            else price_at_offsets hex opCodeIndex rest
        | None => price_at_offsets hex opCodeIndex rest
        end
      else price_at_offsets hex opCodeIndex rest
  end.

Definition pair_of (token : string) : string := ("TON/" ++ token)%string.

(** A price is falsy when it is [null], NaN or zero. *)
Definition price_truthy (p : option Q) : bool :=
  match p with
  | Some q => negb (Qzerob q)
  | None => false
  end.

(** The outMsgs block: the first token of the venue whose swap operation
    code occurs in the message gives the pair, and a price when one of the
    offsets reads as one. *)
Fixpoint pair_from_outMsg (dex outMsgHex : string) (tokens : list string)
  : option string * option Q :=
  match tokens with
  | [] => (None, None)
  | token :: rest =>
      match DexConfig.getTokenSwapOpCode dex token with
      | Some swapOpCode =>
          if Js.str_includes outMsgHex swapOpCode then
            let opCodeIndex := Js.str_indexOf outMsgHex swapOpCode in
            (Some (pair_of token),
             match price_at_offsets outMsgHex opCodeIndex [24; 32; 40; 48; 56; 64]%nat with
             | Some priceValue =>
                 Some (priceValue / pow10 (DexConfig.getTokenDecimals dex token))
             | None => None
             end)
          else pair_from_outMsg dex outMsgHex rest
      | None => pair_from_outMsg dex outMsgHex rest
      end
  end.

(** One of the three probes of the data block: when [needle] occurs in
    [dataHex], the price is read from the sixteen characters that start
    [from] characters after it, as nano-units. *)
Definition probe_data (dataHex : Js.JsVal) (needle : option string) (from : nat)
  : Outcome (option (option Q)) :=
  match needle with
  | None => Returned None
  | Some n =>
      bind_outcome (Js.includes dataHex n) (fun present =>
      if present then
        bind_outcome (Js.as_string dataHex) (fun text =>
        let at_ := Js.str_indexOf text n in
        let priceHex := Js.str_substring text (at_ + from) (at_ + from + 16) in
        Returned (Some (option_map (fun priceNano => priceNano / 1e9)
                                   (Js.parseInt16 priceHex))))
      else Returned None)
  end.

(** The data block: the first token found by its address, pool id or token
    id replaces both the pair and the price; without a match they stay. *)
Fixpoint pair_from_data (dex : string) (dataHex : Js.JsVal) (tokens : list string)
  (current : option string * option Q) : Outcome (option string * option Q) :=
  match tokens with
  | [] => Returned current
  | token :: rest =>
      bind_outcome (probe_data dataHex (DexConfig.getTokenAddress dex token) 80)
        (fun byAddress =>
      match byAddress with
      | Some p => Returned (Some (pair_of token), p)
      | None =>
      bind_outcome (probe_data dataHex (DexConfig.getTokenPoolId dex token) 24)
        (fun byPool =>
      match byPool with
      | Some p => Returned (Some (pair_of token), p)
      | None =>
      bind_outcome (probe_data dataHex (DexConfig.getTokenId dex token) 24)
        (fun byId =>
      match byId with
      | Some p => Returned (Some (pair_of token), p)
      | None => pair_from_data dex dataHex rest current
      end)
      end)
      end)
  end.

(** The simulated price of a pair whose price could not be read. *)
Definition simulated_price (tokenPair : string) (r : Q) : Q :=
  match Js.split_slash_1 tokenPair with
  | Some token =>
      if String.eqb token "USDT" || String.eqb token "USDC" then 0.5 + r * 0.1
      else if String.eqb token "ETH" then 0.0003 + r * 0.0001
      else 1 + r * 0.2
  | None => 1 + r * 0.2
  end.

Definition first_some {A} (a b : Outcome (option A)) : Outcome (option A) :=
  bind_outcome a (fun r => match r with Some x => Returned (Some x) | None => b end).

Local Open Scope monad_scope.

(** [extractDexInfo(tx)]: [None] is [null]. *)
Definition extractDexInfo (tx : Js.JsVal) : M (Ctx State) (option DexInfo) :=
  try_catch
    (identified <- lift_outcome
       (first_some (dex_by_address tx)
          (first_some (dex_by_outMsgs tx) (dex_by_data tx))) ;;
     match identified with
     | None => lift_outcome (Js.log_hash tx) ;;; ret None
     | Some dex =>
         outMsgs <- lift_outcome (Js.get tx "outMsgs") ;;
         let fromOutMsgs :=
           if Js.nonempty_array outMsgs then
             match Js.first_item outMsgs with
             | Js.JBuf bytes =>
                 pair_from_outMsg dex (Js.toHex bytes) (DexConfig.getSupportedTokens dex)
             | _ => (None, None)
             end
           else (None, None) in
         data <- lift_outcome (Js.get tx "data") ;;
         fromData <-
           (if (negb (isSome (fst fromOutMsgs)) || negb (price_truthy (snd fromOutMsgs)))
               && Js.truthy data
            then lift_outcome (pair_from_data dex (Js.hex_or_self data)
                                 (DexConfig.getSupportedTokens dex) fromOutMsgs)
            else ret fromOutMsgs) ;;
         let tokenPair :=
           match fst fromData with
           | Some p => Some p
           | None => option_map pair_of (nth_error (DexConfig.getSupportedTokens dex) 0)
           end in
         price <-
           (match tokenPair with
            | Some p =>
                if price_truthy (snd fromData) then ret (snd fromData)
                else r <- in_world Math_random ;; ret (Some (simulated_price p r))
            | None => ret (snd fromData)
            end) ;;
         match tokenPair, price with
         | Some p, Some q =>
             if negb (Qzerob q)
             then lift_outcome (Js.log_hash tx) ;;; ret (Some (mkDexInfo dex p q))
             else
               lift_outcome (Js.log_hash tx) ;;;
               (if Js.truthy data then lift_outcome (Js.as_string (Js.hex_or_self data))
                else ret "") ;;;
               ret None
         | _, _ =>
             lift_outcome (Js.log_hash tx) ;;;
             (if Js.truthy data then lift_outcome (Js.as_string (Js.hex_or_self data))
              else ret "") ;;;
             ret None
         end
     end)
    (fun _ => lift_outcome (Js.log_hash tx) ;;; ret None).

Definition calculateOptimalTradeSize (buyPrice sellPrice maxSlippage : Q) : Q :=
  let priceDifferencePercent := (sellPrice - buyPrice) / buyPrice * 100 in
  let baseSize := 10 in
  let sizeFactor := Qmin (priceDifferencePercent / 1) 5 in
  baseSize * (1 + sizeFactor).

Definition estimateGasCost (buyDex sellDex : string) : Q :=
  let baseGasCost := 0.01 in
  let additionalCost := 0 in
  let additionalCost :=
    if String.eqb buyDex "Megaton" || String.eqb sellDex "Megaton"
    then additionalCost + 0.002 else additionalCost in
  let additionalCost :=
    if negb (String.eqb buyDex sellDex)
    then additionalCost + 0.003 else additionalCost in
  baseGasCost + additionalCost.

(** [calculateConfidence]: the second quotient is the source's when
    [minProfitEstimate] is not zero. *)
Definition calculateConfidence
  (priceDifferencePercent estimatedProfit minProfitEstimate : Q) : Q :=
  let priceDifferenceScore := Qmin (priceDifferencePercent / 5) 1 in
  let profitScore := Qmin (estimatedProfit / (minProfitEstimate * 10)) 1 in
  priceDifferenceScore * 0.7 + profitScore * 0.3.

(** [Math.abs((p1 - p2) / Math.min(p1, p2) * 100)], the price difference
    computed in [analyze]. *)
Definition priceDifferencePercentOf (p1 p2 : Q) : Q :=
  Qabs ((p1 - p2) / Qmin p1 p2 * 100).

(** The body of the loop over the other venues in [analyze], from the
    price difference to the opportunity details: [None] is a [continue]. *)
Definition compareWith (cfg : ArbitrageConfig) (dexInfo : DexInfo)
  (otherDex : string) (otherPrice : Q)
  : option (ArbitrageOpportunityDetails.t * Q) :=
  let priceDifferencePercent := priceDifferencePercentOf (price dexInfo) otherPrice in
  if Qltb priceDifferencePercent (minPriceDifferencePercent cfg) then None else
  let cheaper := Qltb (price dexInfo) otherPrice in
  let buyDex := if cheaper then dex dexInfo else otherDex in
  let sellDex := if cheaper then otherDex else dex dexInfo in
  let buyPrice := if cheaper then price dexInfo else otherPrice in
  let sellPrice := if cheaper then otherPrice else price dexInfo in
  let optimalTradeSize := calculateOptimalTradeSize buyPrice sellPrice (maxSlippage cfg) in
  let buyAmount := optimalTradeSize in
  let sellAmount :=
    optimalTradeSize * (sellPrice / buyPrice) * (1 - maxSlippage cfg / 100) in
  let estimatedGas := estimateGasCost buyDex sellDex in
  let estimatedProfit := sellAmount - buyAmount - estimatedGas - gasBuffer cfg in
  if Qltb estimatedProfit (minProfitEstimate cfg) then None else
  let confidence :=
    calculateConfidence priceDifferencePercent estimatedProfit (minProfitEstimate cfg) in
  if Qltb confidence (minConfidence cfg) then None else
  Some (ArbitrageOpportunityDetails.mk
          buyDex sellDex (tokenPair dexInfo) priceDifferencePercent
          buyAmount sellAmount estimatedProfit estimatedGas,
        confidence).

Definition push (o : MEVOpportunity) (s : State) : State :=
  mkState (name s) (config s) (opportunities s ++ [o]) (priceCache s).

Definition set_cache (c : PriceCache.t) (s : State) : State :=
  mkState (name s) (config s) (opportunities s) c.

(** [this.updatePriceCache(dex, tokenPair, price)] *)
Definition do_updatePriceCache (dex tokenPair : string) (p : Q) : M (Ctx State) unit :=
  now <- in_world Date_now ;;
  now' <- in_world Date_now ;;
  update_self (fun s =>
    set_cache (PriceCache.updatePriceCache now now' dex tokenPair p (priceCache s)) s).

(** [this.getPriceFromCache(dex, tokenPair)]: the clock is read only when
    the key holds an entry. *)
Definition do_getPriceFromCache (dex tokenPair : string) : M (Ctx State) (option Q) :=
  this <- get_self ;;
  match PriceCache.entry_of (priceCache this) dex tokenPair with
  | None => ret None
  | Some _ =>
      now <- in_world Date_now ;;
      let '(p, c) := PriceCache.getPriceFromCache now dex tokenPair (priceCache this) in
      update_self (set_cache c) ;;;
      ret p
  end.

(** One turn of [for (const otherDex of arbitrageConfig.dexes)]: the
    opportunity pushed in this turn, if any. *)
Definition checkOtherDex (packet : MempoolPacket) (cfg : ArbitrageConfig)
  (dexInfo : DexInfo) (otherDex : string)
  : M (Ctx State) (list MEVOpportunity) :=
  if String.eqb otherDex (dex dexInfo) then ret [] else
  otherPrice <- do_getPriceFromCache otherDex (tokenPair dexInfo) ;;
  if negb (price_truthy otherPrice) then ret [] else
  now <- in_world Date_now ;;
  this <- get_self ;;
  match otherPrice, PriceCache.entry_of (priceCache this) otherDex (tokenPair dexInfo) with
  | Some otherPrice, Some cached =>
      let priceCacheAge := (now - PriceCache.timestamp cached)%Z in
      (* the record logged for a price that is too old reads the clock again *)
      if (priceCacheAge >? 60000)%Z then in_world Date_now ;;; ret [] else
      match compareWith cfg dexInfo otherDex otherPrice with
      | None => ret []
      | Some (details, confidence) =>
          id <- in_world uuidv4 ;;
          let opportunity :=
            mkOpportunity id (name this) (packet_timestamp packet)
                          (ArbitrageOpportunityDetails.estimatedProfit details)
                          confidence (ArbitrageDetails details)
                          (packet_id packet, packet_timestamp packet) in
          update_self (push opportunity) ;;;
          ret [opportunity]
      end
  | _, _ => throw TypeError
  end.

(** [analyze(packet)].  The hash of the first transaction is logged before
    the try block, so that exception leaves [analyze]; one raised inside the
    loops ends them and the opportunities pushed so far are returned. *)
Definition analyze (packet : MempoolPacket) : M (Ctx State) (list MEVOpportunity) :=
  this <- get_self ;;
  if negb (enabled (config this)) then ret [] else
  let transactions := extractTransactions packet in
  match transactions with
  | tx :: _ => lift_outcome (Js.log_hash tx)
  | [] => ret tt
  end ;;;
  with_local []
    (try_catch
       (let arbitrageConfig := config this in
        for_each transactions (fun tx =>
          isDex <- on_object (lift_outcome (isDexTransaction tx)) ;;
          if negb isDex then ret tt else
          on_object (lift_outcome (Js.log_hash tx)) ;;;
          dexInfo <- on_object (extractDexInfo tx) ;;
          match dexInfo with
          | None => ret tt
          | Some dexInfo =>
              on_object (lift_outcome (Js.log_hash tx)) ;;;
              on_object (do_updatePriceCache (dex dexInfo) (tokenPair dexInfo)
                                             (price dexInfo)) ;;;
              for_each (dexes arbitrageConfig) (fun otherDex =>
                found <- on_object (checkOtherDex packet arbitrageConfig dexInfo otherDex) ;;
                modify (fun sl => (fst sl, snd sl ++ found)))
          end))
       (fun _ => ret tt)).

Definition clearOpportunities (s : State) : State :=
  mkState (name s) (config s) [] (priceCache s).

End Arbitrage.

(** ** The strategy interface (strategies/base-strategy)

    The abstract class [BaseStrategy] is a class of state types; a
    registered strategy object is a state packed with its methods. *)

Class BaseStrategy (St : Type) : Type := {
  getName : St -> string;
  isEnabled : St -> bool;
  analyze : MempoolPacket -> M (Ctx St) (list MEVOpportunity);
  getOpportunities : St -> list MEVOpportunity;
  clearOpportunities : St -> St
}.

#[export] Instance SandwichStrategy : BaseStrategy Sandwich.State := {
  getName := Sandwich.name;
  isEnabled := fun s => Sandwich.enabled (Sandwich.config s);
  analyze := Sandwich.analyze;
  getOpportunities := Sandwich.opportunities;
  clearOpportunities := Sandwich.clearOpportunities
}.

#[export] Instance ArbitrageStrategy : BaseStrategy Arbitrage.State := {
  getName := Arbitrage.name;
  isEnabled := fun s => Arbitrage.enabled (Arbitrage.config s);
  analyze := Arbitrage.analyze;
  getOpportunities := Arbitrage.opportunities;
  clearOpportunities := Arbitrage.clearOpportunities
}.

Record AnyStrategy : Type := Pack {
  impl : Type;
  methods : BaseStrategy impl;
  object : impl
}.
Arguments Pack {impl methods} object.

Definition nameOf (s : AnyStrategy) : string :=
  @getName _ (methods s) (object s).

Definition historyOf (s : AnyStrategy) : list MEVOpportunity :=
  @getOpportunities _ (methods s) (object s).

Definition enabledOf (s : AnyStrategy) : bool :=
  @isEnabled _ (methods s) (object s).

(** [strategy.analyze(packet)] on a packed object. *)
Definition analyzeWith (packet : MempoolPacket) (s : AnyStrategy) (w : World)
  : Outcome (list MEVOpportunity) * AnyStrategy * World :=
  let '(o, c) := @analyze _ (methods s) packet (mkCtx (object s) w) in
  (o, @Pack _ (methods s) (self c), world c).

(** [strategy.clearOpportunities()] on a packed object. *)
Definition clearWith (s : AnyStrategy) : AnyStrategy :=
  @Pack _ (methods s) (@clearOpportunities _ (methods s) (object s)).

(** ** The strategy manager (strategies/strategy-manager) *)

Module StrategyManager.

Inductive Level : Type := LDebug | LInfo | LWarn | LError.

(** A record written to the logger by the manager's own methods: the
    level, the message and the strategy it names, if any.  The log lines of
    the strategies are not modelled, and neither are the listeners of the
    manager's events: an emitted event is only recorded. *)
Record LogRecord : Type := mkLog {
  level : Level;
  message : string;
  about : option string
}.

Record State : Type := mkState {
  strategies : list (string * AnyStrategy);     (* a Map: insertion order *)
  opportunities : list MEVOpportunity;
  lastAnalysisTime : Z;
  emitted : list (list MEVOpportunity);         (* 'opportunitiesUpdated' payloads *)
  logged : list LogRecord
}.

Definition write_log (r : LogRecord) (m : State) : State :=
  mkState (strategies m) (opportunities m) (lastAnalysisTime m) (emitted m)
          (logged m ++ [r]).

(** [this.strategies.set(name, strategy)] *)
Definition registerStrategy (s : AnyStrategy) (m : State) : State :=
  write_log (mkLog LInfo "Strategy registered" (Some (nameOf s)))
    (mkState (PriceCache.obj_set (nameOf s) s (strategies m))
             (opportunities m) (lastAnalysisTime m) (emitted m) (logged m)).

(** The constructor: the two default strategies, in this order. *)
Definition new : State :=
  write_log (mkLog LInfo "Strategy Manager initialized" None)
    (registerStrategy (Pack (Sandwich.new Sandwich.defaultConfig))
       (registerStrategy (Pack (Arbitrage.new Arbitrage.defaultConfig))
          (mkState [] [] 0 [] []))).

(** A manager whose two strategies were registered again with
    configurations of the caller's choice: [registerStrategy(new
    ArbitrageStrategy(a))] and [registerStrategy(new SandwichStrategy(s))]. *)
Definition configured (a : Arbitrage.ArbitrageConfig) (s : Sandwich.SandwichConfig)
  : State :=
  registerStrategy (Pack (Sandwich.new s))
    (registerStrategy (Pack (Arbitrage.new a)) new).

(** [filteredOpportunities.sort((a, b) => b.profitEstimate - a.profitEstimate)]:
    descending and stable. *)
Fixpoint insert_by_profit (x : MEVOpportunity) (l : list MEVOpportunity)
  : list MEVOpportunity :=
  match l with
  | [] => [x]
  | y :: l' =>
      if Qle_bool (profitEstimate y) (profitEstimate x)
      then x :: y :: l'
      else y :: insert_by_profit x l'
  end.

Definition sort_by_profit (l : list MEVOpportunity) : list MEVOpportunity :=
  fold_right insert_by_profit [] l.

(** A filter is given when the argument is a non-empty string. *)
Definition given (strategyFilter : option string) : option string :=
  match strategyFilter with
  | Some f => if String.eqb f "" then None else Some f
  | None => None
  end.

(** [getOpportunities(limit, strategyFilter)]: the answer, and the state
    afterwards: without a filter the store itself is the array sorted in
    place. *)
Definition getOpportunities (limit : Z) (strategyFilter : option string) (m : State)
  : list MEVOpportunity * State :=
  let '(filteredOpportunities, m1) :=
    match given strategyFilter with
    | Some f =>
        (sort_by_profit
           (filter (fun opp => String.eqb (strategy opp) f) (opportunities m)), m)
    | None =>
        let sorted := sort_by_profit (opportunities m) in
        (sorted, mkState (strategies m) sorted (lastAnalysisTime m) (emitted m) (logged m))
    end in
  if (limit >? 0)%Z && (Z.of_nat (List.length filteredOpportunities) >? limit)%Z
  then (firstn (Z.to_nat limit) filteredOpportunities, m1)
  else (filteredOpportunities, m1).

(** [this.emit('opportunitiesUpdated', this.getOpportunities(20))] *)
Definition emitUpdated (m : State) : State :=
  let '(top, m1) := getOpportunities 20 None m in
  mkState (strategies m1) (opportunities m1) (lastAnalysisTime m1)
          (emitted m1 ++ [top]) (logged m1).

(** [clearOpportunities(strategyFilter)] *)
Definition clearOpportunities (strategyFilter : option string) (m : State) : State :=
  let m1 :=
    match given strategyFilter with
    | Some f =>
        write_log (mkLog LInfo "Opportunities cleared for strategy" (Some f))
          (mkState (strategies m)
                   (filter (fun opp => negb (String.eqb (strategy opp) f)) (opportunities m))
                   (lastAnalysisTime m) (emitted m) (logged m))
    | None =>
        write_log (mkLog LInfo "All opportunities cleared" None)
          (mkState (strategies m) [] (lastAnalysisTime m) (emitted m) (logged m))
    end in
  emitUpdated m1.

(** [getStrategy(name)?.clearOpportunities()]: the clear operation of one
    registered strategy object. *)
Definition clearStrategy (strategyName : string) (m : State) : State :=
  mkState
    (map (fun kv => if String.eqb (fst kv) strategyName
                    then (fst kv, clearWith (snd kv)) else kv) (strategies m))
    (opportunities m) (lastAnalysisTime m) (emitted m) (logged m).

(** The loop of [analyzePacket] over [this.strategies.values()]: what it
    reads and writes. *)
Record Fanout : Type := mkFanout {
  newOpportunities : list MEVOpportunity;
  store : list MEVOpportunity;
  records : list LogRecord;
  env : World
}.

Fixpoint runStrategies (packet : MempoolPacket) (todo : list (string * AnyStrategy))
  (f : Fanout) : list (string * AnyStrategy) * Fanout :=
  match todo with
  | [] => ([], f)
  | (key, strat) :: rest =>
      let records1 :=
        records f ++ [mkLog LDebug "Analyzing packet with strategy" (Some (nameOf strat))] in
      let '(outcome, strat1, w1) := analyzeWith packet strat (env f) in
      let f1 :=
        match outcome with
        | Returned strategyOpportunities =>
            match strategyOpportunities with
            | [] => mkFanout (newOpportunities f) (store f) records1 w1
            | _ :: _ =>
                mkFanout (newOpportunities f ++ strategyOpportunities)
                         (store f ++ strategyOpportunities) records1 w1
            end
        | Threw _ =>
            mkFanout (newOpportunities f) (store f)
                     (records1 ++ [mkLog LError "Error running strategy"
                                         (Some (nameOf strat1))])
                     w1
        end in
      let '(rest1, f2) := runStrategies packet rest f1 in
      ((key, strat1) :: rest1, f2)
  end.

(** [analyzePacket(packet)] *)
Definition analyzePacket (packet : MempoolPacket) : M (Ctx State) (list MEVOpportunity) :=
  fun c =>
    let m := self c in
    if negb (Js.truthy (packet_data packet)) then
      (Returned [],
       mkCtx (write_log (mkLog LWarn "Invalid mempool packet received for analysis" None) m)
             (world c))
    else
      let '(startTime, w1) := Date_now (world c) in
      let '(strategies1, f) :=
        runStrategies packet (strategies m)
                      (mkFanout [] (opportunities m) (logged m) w1) in
      let '(endTime, w2) := Date_now (env f) in
      let m1 := mkState strategies1 (store f) startTime (emitted m) (records f) in
      let m2 :=
        match newOpportunities f with
        | _ :: _ =>
            emitUpdated
              (write_log (mkLog LInfo "New MEV opportunities identified" None) m1)
        | [] => write_log (mkLog LDebug "No new MEV opportunities identified" None) m1
        end in
      (Returned (newOpportunities f), mkCtx m2 w2).

(** [unregisterStrategy(strategyName)] *)
Definition unregisterStrategy (strategyName : string) (m : State) : State :=
  match PriceCache.obj_get strategyName (strategies m) with
  | Some _ =>
      write_log (mkLog LInfo "Strategy unregistered" (Some strategyName))
        (mkState (PriceCache.obj_delete strategyName (strategies m))
                 (opportunities m) (lastAnalysisTime m) (emitted m) (logged m))
  | None => m
  end.

(** [getStrategy(strategyName)]: [None] is [undefined]. *)
Definition getStrategy (strategyName : string) (m : State) : option AnyStrategy :=
  PriceCache.obj_get strategyName (strategies m).

(** One item of [getStatistics().strategies]; its [config] field is not
    modelled.  The getters of a strategy do not throw, so the catch block of
    the source is not reached; [config.enabled] is what [isEnabled] reads. *)
Record StrategyStatistics : Type := mkStrategyStatistics {
  statName : string;
  statEnabled : bool;
  opportunitiesCount : nat;
  totalProfit : Q;
  averageProfit : Q
}.

Record Statistics : Type := mkStatistics {
  totalStrategies : nat;
  totalOpportunities : nat;
  statLastAnalysisTime : Z;
  strategyStats : list StrategyStatistics
}.

(** The total and the average are exact; the source rounds them. *)
Definition statisticsOf (entry : string * AnyStrategy) : StrategyStatistics :=
  let opportunities := historyOf (snd entry) in
  let totalProfit := fold_left (fun sum opp => sum + profitEstimate opp) opportunities 0 in
  mkStrategyStatistics
    (fst entry) (enabledOf (snd entry)) (List.length opportunities) totalProfit
    (if (0 <? List.length opportunities)%nat
     then totalProfit / inject_Z (Z.of_nat (List.length opportunities))
     else 0).

(** [getStatistics()] *)
Definition getStatistics (m : State) : Statistics :=
  mkStatistics (List.length (strategies m)) (List.length (opportunities m))
               (lastAnalysisTime m) (map statisticsOf (strategies m)).

End StrategyManager.

(** ** The packet source's extractor (searcher) *)

Module Searcher.

(** [extractTransactionsFromPacket(packet)]: the shapes of the strategies'
    extractor, then [data.externalMessages]. *)
Definition extractTransactionsFromPacket (packet : MempoolPacket) : list Js.JsVal :=
  match packet_transactions packet with
  | Some txs => txs
  | None =>
      let data := packet_data packet in
      if Js.truthy data then
        match Js.get data "transactions" with
        | Returned (Js.JArr txs) => txs
        | _ =>
            match Js.get data "messages" with
            | Returned (Js.JArr msgs) => msgs
            | _ =>
                match data with
                | Js.JArr items => items
                | _ =>
                    match Js.get data "externalMessages" with
                    | Returned (Js.JArr msgs) => msgs
                    | _ => []
                    end
                end
            end
        end
      else []
  end.

End Searcher.

(** ** The private key of the client (client)

    [extractPrivateKeyFromPEM] from the decoded buffer on: [der] is
    [derBuffer], the base64 content of the PEM text. *)

Module Client.

(** [derBuffer[i] === b]; an index out of range reads [undefined]. *)
Definition byte_is (der : list byte) (i : nat) (b : byte) : bool :=
  match nth_error der i with
  | Some x => Byte.eqb x b
  | None => false
  end.

(** The inner loop, [for (let j = ...; j < derBuffer.length - 2; j++)]
    with [steps] turns left: the index after the first [04 20]. *)
Fixpoint find_octet_string (der : list byte) (j steps : nat) : option nat :=
  match steps with
  | O => None
  | S steps' =>
      if byte_is der j x04 && byte_is der (j + 1) x20
      then Some (j + 2)%nat
      else find_octet_string der (S j) steps'
  end.

Definition oid_at (der : list byte) (i : nat) : bool :=
  byte_is der i x06 && byte_is der (i + 1) x03 && byte_is der (i + 2) x2b
  && byte_is der (i + 3) x65 && byte_is der (i + 4) x70.

(** The outer loop, [for (let i = ...; i < derBuffer.length - 5; i++)]: it
    ends at the first object identifier of ED25519, with the result of the
    inner loop.  [None] is the [-1] of [keyStart]. *)
Fixpoint find_key_start (der : list byte) (i steps : nat) : option nat :=
  match steps with
  | O => None
  | S steps' =>
      if oid_at der i
      then find_octet_string der (i + 5) (List.length der - 2 - (i + 5))
      else find_key_start der (S i) steps'
  end.

(** The key: the 32 bytes at [keyStart] when they fit, else the last 32
    bytes, else the empty buffer of the catch block. *)
Definition keyFromDer (der : list byte) : list byte :=
  let fallback :=
    if (32 <=? List.length der)%nat
    then skipn (List.length der - 32) der
    else [] in
  match find_key_start der 0 (List.length der - 5) with
  | Some keyStart =>
      if (keyStart + 32 <=? List.length der)%nat
      then firstn 32 (skipn keyStart der)
      else fallback
  | None => fallback
  end.

(** The header of a PKCS#8 document holding an ED25519 private key. *)
Definition pkcs8_header : list byte :=
  [x30; x2e; x02; x01; x00; x30; x05; x06; x03; x2b; x65; x70;
   x04; x22; x04; x20]%byte.

End Client.

(** ** Display helpers of the dashboard (dashboard/src/lib/utils) *)

Module DashboardUtils.

(** [formatHash(hash)] *)
Definition formatHash (hash : string) : string :=
  if String.eqb hash "" then ""
  else if (String.length hash <=? 12)%nat then hash
  else (String.substring 0 6 hash ++ "..."
        ++ String.substring (String.length hash - 6) 6 hash)%string.

End DashboardUtils.

(** ** Buffers read as numbers *)

(** The unsigned integer a Buffer holds, most significant byte first. *)
Definition big_endian_from (acc : Z) (bytes : list byte) : Z :=
  fold_left (fun acc b => (256 * acc + Z.of_N (Byte.to_N b))%Z) bytes acc.

Definition big_endian (bytes : list byte) : Z := big_endian_from 0 bytes.

(** ** Histories of operations *)

(** Operations on the price cache, each with its clock readings. *)
Module CacheTrace.
Import PriceCache.

Inductive Op : Type :=
| Update (now now' : Z) (dex tokenPair : string) (p : Q)
| Lookup (now : Z) (dex tokenPair : string).

Definition step (c : PriceCache.t) (op : Op) : PriceCache.t :=
  match op with
  | Update now now' dex tokenPair p => updatePriceCache now now' dex tokenPair p c
  | Lookup now dex tokenPair => snd (getPriceFromCache now dex tokenPair c)
  end.

Definition run (ops : list Op) (c : PriceCache.t) : PriceCache.t :=
  fold_left step ops c.

(** The operation writes the key [(dex, tokenPair)]. *)
Definition writes (dex tokenPair : string) (op : Op) : bool :=
  match op with
  | Update _ _ d p _ => String.eqb d dex && String.eqb p tokenPair
  | Lookup _ _ _ => false
  end.

(** Every clock reading of the operation is at most [t]. *)
Definition before (t : Z) (op : Op) : bool :=
  match op with
  | Update now now' _ _ _ => (now <=? t)%Z && (now' <=? t)%Z
  | Lookup now _ _ => (now <=? t)%Z
  end.

(** The pairs the operations write for the venue [dex]. *)
Fixpoint written_pairs (dex : string) (ops : list Op) : list string :=
  match ops with
  | [] => []
  | Update _ _ d p _ :: rest =>
      if String.eqb d dex then p :: written_pairs dex rest else written_pairs dex rest
  | Lookup _ _ _ :: rest => written_pairs dex rest
  end.

(** The object a cache holds for the venue [dex]; none counts as empty. *)
Definition pairs_of (dex : string) (c : PriceCache.t) : Pairs :=
  match obj_get dex c with
  | Some pairs => pairs
  | None => []
  end.

(** The pairs a cache holds for the venue [dex]. *)
Definition cached_pairs (dex : string) (c : PriceCache.t) : list string :=
  map fst (pairs_of dex c).

(** The distinct pairs the venue [dex] holds in [c] or is written by
    [ops], next to [tokenPair]. *)
Definition pairs_seen (dex tokenPair : string) (c : PriceCache.t) (ops : list Op)
  : list string :=
  nodup string_dec (tokenPair :: cached_pairs dex c ++ written_pairs dex ops).

(** What the clean-up does to one venue's object. *)
Definition cleaned (now : Z) (ps : Pairs) : Pairs :=
  evict_oldest (drop_expired now ps).

(** The venue's object [ps] holds the price [p] written at [T], or no
    price, for the pair. *)
Definition at_most_written (tokenPair : string) (p : Q) (T : Z) (ps : Pairs) : Prop :=
  NoDup (map fst ps)
  /\ forall e, obj_get tokenPair ps = Some e -> e = mkEntry p T.

(** The venue's object [ps] holds the price [p] written at [T] for the
    pair, and only pairs among [seen]. *)
Definition still_written (tokenPair : string) (p : Q) (T : Z) (seen : list string)
  (ps : Pairs) : Prop :=
  NoDup (map fst ps)
  /\ incl (map fst ps) seen
  /\ obj_get tokenPair ps = Some (mkEntry p T).

(** An object has each key once. *)
Definition well_formed (c : PriceCache.t) : Prop :=
  NoDup (map fst c) /\ Forall (fun dp => NoDup (map fst (snd dp))) c.

(** A family of distinct pair names: ["TON/T"] followed by [n] in binary. *)
Fixpoint binary (n : positive) : string :=
  match n with
  | xH => "1"
  | xO p => (binary p ++ "0")%string
  | xI p => (binary p ++ "1")%string
  end.

Definition numbered_pair (n : nat) : string :=
  ("TON/T" ++ binary (Pos.of_succ_nat n))%string.

(** [count] writes for the venue [dex], of the pairs numbered from [first]
    on, the write numbered [n] at time [n]. *)
Definition writes_of_new_pairs (dex : string) (first count : nat) : list Op :=
  map (fun n => Update (Z.of_nat n) (Z.of_nat n) dex (numbered_pair n) 1)
      (seq first count).

End CacheTrace.

(** Operations on the manager and its strategy objects. *)
Module ManagerTrace.
Import StrategyManager.

Inductive Op : Type :=
| AnalyzePacket (packet : MempoolPacket)
| ClearOpportunities (strategyFilter : option string)   (* the manager's store *)
| ClearStrategy (strategyName : string).                (* one strategy's history *)

Definition step (c : Ctx State) (op : Op) : Ctx State :=
  match op with
  | AnalyzePacket packet => snd (analyzePacket packet c)
  | ClearOpportunities strategyFilter =>
      mkCtx (clearOpportunities strategyFilter (self c)) (world c)
  | ClearStrategy strategyName =>
      mkCtx (clearStrategy strategyName (self c)) (world c)
  end.

Definition run (ops : list Op) (c : Ctx State) : Ctx State :=
  fold_left step ops c.

(** The aggregate store restricted to one strategy's name. *)
Definition restricted (strategyName : string) (m : State) : list MEVOpportunity :=
  filter (fun opp => String.eqb (strategy opp) strategyName) (opportunities m).

(** A history in which a clear of one store for a strategy is always
    followed at once by the clear of the other store for it. *)
Fixpoint clears_paired (ops : list Op) : bool :=
  match ops with
  | [] => true
  | AnalyzePacket _ :: rest => clears_paired rest
  | ClearOpportunities (Some f) :: ClearStrategy n :: rest =>
      negb (String.eqb f "") && String.eqb f n && clears_paired rest
  | _ => false
  end.

End ManagerTrace.

(** Calls of the methods of an arbitrage strategy object, each in the
    environment the previous one left. *)
Module ArbitrageTrace.

Inductive Op : Type :=
| Analyze (packet : MempoolPacket)
| ClearOpportunities.

Definition step (c : Ctx Arbitrage.State) (op : Op) : Ctx Arbitrage.State :=
  match op with
  | Analyze packet => snd (Arbitrage.analyze packet c)
  | ClearOpportunities => mkCtx (Arbitrage.clearOpportunities (self c)) (world c)
  end.

Definition run (ops : list Op) (c : Ctx Arbitrage.State) : Ctx Arbitrage.State :=
  fold_left step ops c.

End ArbitrageTrace.

(** ** What each strategy contributes to one fan-out *)

(** The outcomes of the strategies' [analyze] calls of one [analyzePacket],
    in registration order, each call in the environment the previous one
    left. *)
Fixpoint strategyOutcomes (packet : MempoolPacket) (todo : list (string * AnyStrategy))
  (w : World) : list (string * Outcome (list MEVOpportunity)) :=
  match todo with
  | [] => []
  | (_, strat) :: rest =>
      let '(outcome, _, w1) := analyzeWith packet strat w in
      (nameOf strat, outcome) :: strategyOutcomes packet rest w1
  end.

Definition contribution (o : Outcome (list MEVOpportunity)) : list MEVOpportunity :=
  match o with
  | Returned l => l
  | Threw _ => []
  end.

(** ** The contract of a strategy's history

    A strategy appends to its own history exactly the opportunities it
    returns, under its own name; an exception that leaves [analyze] leaves
    the history as it was. *)
Class HistoryKeeping (St : Type) {B : BaseStrategy St} : Prop := {
  analyze_keeps_name :
    forall packet c, getName (self (snd (analyze packet c))) = getName (self c);
  analyze_appends :
    forall packet c,
      getOpportunities (self (snd (analyze packet c)))
      = getOpportunities (self c) ++ contribution (fst (analyze packet c));
  analyze_signs :
    forall packet c,
      Forall (fun opp => strategy opp = getName (self c))
             (contribution (fst (analyze packet c)));
  clear_empties : forall s, getOpportunities (clearOpportunities s) = [];
  clear_keeps_name : forall s, getName (clearOpportunities s) = getName s
}.

Definition keepsHistory (s : AnyStrategy) : Prop :=
  @HistoryKeeping (impl s) (methods s).

(** The registry of a manager: keyed by the strategies' names, each once,
    every strategy keeping its history. *)
Definition sound_registry (registry : list (string * AnyStrategy)) : Prop :=
  NoDup (map fst registry)
  /\ Forall (fun kv => fst kv = nameOf (snd kv) /\ keepsHistory (snd kv)) registry.

(** One of the two built-in strategies, in any state. *)
Inductive builtin : AnyStrategy -> Prop :=
| builtin_arbitrage (s : Arbitrage.State) : builtin (Pack s)
| builtin_sandwich (s : Sandwich.State) : builtin (Pack s).

(** ** Predicates on the strategies' methods

    What a method does to the name and to the history of its object. *)

Section HistoryPredicates.
Context {St : Type} {B : BaseStrategy St}.

(** The computation leaves the name and the history of the object as
    they are, whatever it returns or throws. *)
Definition quiet {A} (m : M (Ctx St) A) : Prop :=
  forall c,
    getName (self (snd (m c))) = getName (self c)
    /\ getOpportunities (self (snd (m c))) = getOpportunities (self c).

(** From [c] on, the computation appends to the history exactly what it
    returns, and signs it with the object's name. *)
Definition appends_at (m : M (Ctx St) (list MEVOpportunity)) (c : Ctx St) : Prop :=
  getName (self (snd (m c))) = getName (self c)
  /\ getOpportunities (self (snd (m c)))
     = getOpportunities (self c) ++ contribution (fst (m c))
  /\ Forall (fun opp => strategy opp = getName (self c)) (contribution (fst (m c))).

(** The local list holds what was appended to the history [h0] since the
    call began, each item under the name [n0]. *)
Definition tracks (n0 : string) (h0 : list MEVOpportunity)
           (sl : Ctx St * list MEVOpportunity) : Prop :=
  getName (self (fst sl)) = n0
  /\ getOpportunities (self (fst sl)) = h0 ++ snd sl
  /\ Forall (fun opp => strategy opp = n0) (snd sl).

Definition keeps_track {A} (m : M (Ctx St * list MEVOpportunity) A) : Prop :=
  forall n0 h0 sl, tracks n0 h0 sl -> tracks n0 h0 (snd (m sl)).

End HistoryPredicates.

(** The computation adds to the local list only opportunities that
    satisfy [P]. *)
Definition gathers {St A : Type} (P : MEVOpportunity -> Prop)
           (m : M (Ctx St * list MEVOpportunity) A) : Prop :=
  forall sl, Forall P (snd sl) -> Forall P (snd (snd (m sl))).

(** What the arbitrage strategy lets through for a packet under the
    configuration [cfg]: the thresholds are met, the two venues differ and
    the amounts are within their bounds. *)
Definition vetted (cfg : Arbitrage.ArbitrageConfig) (packet : MempoolPacket)
           (opp : MEVOpportunity) : Prop :=
  exists d,
    details opp = ArbitrageDetails d
    /\ profitEstimate opp = ArbitrageOpportunityDetails.estimatedProfit d
    /\ timestamp opp = packet_timestamp packet
    /\ Arbitrage.minProfitEstimate cfg <= profitEstimate opp
    /\ Arbitrage.minConfidence cfg <= confidence opp <= 1
    /\ Arbitrage.minPriceDifferencePercent cfg
       <= ArbitrageOpportunityDetails.priceDifferencePercent d
    /\ ArbitrageOpportunityDetails.buyDex d <> ArbitrageOpportunityDetails.sellDex d
    /\ (In (ArbitrageOpportunityDetails.buyDex d) (Arbitrage.dexes cfg)
        \/ In (ArbitrageOpportunityDetails.sellDex d) (Arbitrage.dexes cfg))
    /\ ArbitrageOpportunityDetails.buyAmount d <= 60
    /\ 0.013 <= ArbitrageOpportunityDetails.estimatedGas d <= 0.015.

(** The computation leaves the state within [I], whether it returns or
    throws. *)
Definition preserves {S A : Type} (I : S -> Prop) (m : M S A) : Prop :=
  forall s, I s -> I (snd (m s)).

(** Every object of the cache holds each key once, and the pairs cached
    for a venue are among the three pairs of the configured venues. *)
Definition within_configured_pairs (c : PriceCache.t) : Prop :=
  CacheTrace.well_formed c
  /\ forall dex pair,
       In pair (CacheTrace.cached_pairs dex c) ->
       In pair ["TON/USDT"; "TON/USDC"; "TON/ETH"].

(** The number [x] is finite and stands for the rational [q]. *)
Definition finite_as (x : Num.t) (q : Q) : Prop :=
  Num.is_finite x = true /\ Num.value x == q.

(** The opportunity [o'] over every number is the opportunity [o]: the same
    identity, and numbers that are finite and the same. *)
Definition same_opportunity (o : MEVOpportunity) (o' : SandwichNum.Opportunity) : Prop :=
  SandwichNum.id o' = id o
  /\ SandwichNum.strategy o' = strategy o
  /\ SandwichNum.timestamp o' = timestamp o
  /\ SandwichNum.rawData o' = rawData o
  /\ finite_as (SandwichNum.profitEstimate o') (profitEstimate o)
  /\ finite_as (SandwichNum.confidence o') (confidence o)
  /\ exists d,
       details o = SandwichDetails d
       /\ SandwichNum.targetTxHash (SandwichNum.details o')
          = SandwichOpportunityDetails.targetTxHash d
       /\ SandwichNum.tokenPair (SandwichNum.details o')
          = SandwichOpportunityDetails.tokenPair d
       /\ finite_as (SandwichNum.targetSwapSize (SandwichNum.details o'))
                    (SandwichOpportunityDetails.targetSwapSize d)
       /\ finite_as (SandwichNum.estimatedPriceImpact (SandwichNum.details o'))
                    (SandwichOpportunityDetails.estimatedPriceImpact d)
       /\ finite_as (SandwichNum.frontRunAmount (SandwichNum.details o'))
                    (SandwichOpportunityDetails.frontRunAmount d)
       /\ finite_as (SandwichNum.backRunAmount (SandwichNum.details o'))
                    (SandwichOpportunityDetails.backRunAmount d)
       /\ finite_as (SandwichNum.estimatedFrontRunGas (SandwichNum.details o'))
                    (SandwichOpportunityDetails.estimatedFrontRunGas d)
       /\ finite_as (SandwichNum.estimatedBackRunGas (SandwichNum.details o'))
                    (SandwichOpportunityDetails.estimatedBackRunGas d)
       /\ finite_as (SandwichNum.totalGasCost (SandwichNum.details o'))
                    (SandwichOpportunityDetails.totalGasCost d).

(** The operation writes one of the three configured pairs, as every write
    of the strategy does. *)
Definition writes_configured_pair (op : CacheTrace.Op) : bool :=
  match op with
  | CacheTrace.Update _ _ _ tokenPair _ =>
      existsb (String.eqb tokenPair) ["TON/USDT"; "TON/USDC"; "TON/ETH"]
  | CacheTrace.Lookup _ _ _ => true
  end.

(** The store [st], restricted to the strategy's name, holds the
    opportunities of the strategy's history. *)
Definition agrees (st : list MEVOpportunity) (kv : string * AnyStrategy) : Prop :=
  Permutation
    (filter (fun opp => String.eqb (strategy opp) (nameOf (snd kv))) st)
    (historyOf (snd kv)).

(** The registry is sound and the store agrees with every history. *)
Definition in_step (m : StrategyManager.State) : Prop :=
  sound_registry (StrategyManager.strategies m) /\ Forall (agrees (StrategyManager.opportunities m)) (StrategyManager.strategies m).

(** ** Ranking *)

(** [a] may stand before [b] in a list sorted by profit, descending. *)
Definition descending (a b : MEVOpportunity) : Prop :=
  profitEstimate b <= profitEstimate a.

(** ** Inputs used in the examples *)

Module Examples.

(** An environment whose random draws are all 1/2 and whose clock advances
    by one millisecond at each reading. *)
Definition steady : World :=
  mkWorld (fun _ => 0.5) (fun n => Z.of_nat n) (fun _ => "opportunity-id") 0 0 0.

(** A message made of the swap operation code [01e18801] followed by the
    amount, in nano-TON, on eight bytes. *)
Definition swap_message (amount : list byte) : list byte :=
  [x01; xe1; x88; x01]%byte ++ amount.

(** 100 TON = 0x000000174876e800 nano-TON; 20 TON = 0x00000004a817c800. *)
Definition hundred_ton : list byte := [x00; x00; x00; x17; x48; x76; xe8; x00]%byte.
Definition twenty_ton : list byte := [x00; x00; x00; x04; xa8; x17; xc8; x00]%byte.

(** A payload that is itself shaped like a transaction carrying a swap. *)
Definition swap_payload (amount : list byte) : Js.JsVal :=
  Js.JObj [("outMsgs", Js.JArr [Js.JBuf (swap_message amount)])].

(** A packet whose payload holds no transaction list of any shape but reads
    as a swap of 100 TON. *)
Definition large_swap_packet : MempoolPacket :=
  mkPacket "packet-1" 1000 (swap_payload hundred_ton) None.

Definition small_swap_packet : MempoolPacket :=
  mkPacket "packet-2" 2000 (swap_payload twenty_ton) None.

(** The same payload with a pre-extracted list whose only transaction is
    [null]. *)
Definition null_transaction_packet : MempoolPacket :=
  mkPacket "packet-3" 3000 (swap_payload hundred_ton) (Some [Js.JNull]).

(** The defaults of the sandwich strategy, but for a minimum swap size that
    is infinite. *)
Definition infinite_minimum : SandwichNum.SandwichConfig :=
  SandwichNum.mkConfig true (Num.Fin 0.8) (Num.Fin 0.05) Num.Infinity
                       (Num.Fin 0.03) (Num.Fin 0.03)
                       ["TON/USDT"; "TON/USDC"; "JETTON/TON"] (Num.Fin 1).

(** A payload of no recognized shape: no transaction list under any name,
    and nothing that reads as a swap. *)
Definition unrecognized_packet : MempoolPacket :=
  mkPacket "packet-4" 4000
    (Js.JObj [("serverTs", Js.JObj [("seconds", Js.JNum 1700000000)]);
              ("expirationNs", Js.JNum 5000000)])
    None.

Definition absent_data_packet : MempoolPacket :=
  mkPacket "packet-5" 5000 Js.JNull None.

Definition sandwich_disabled : Sandwich.SandwichConfig :=
  Sandwich.mkConfig false 0.8 0.05 10 0.03 0.03
                    ["TON/USDT"; "TON/USDC"; "JETTON/TON"] 1.

(** What a sandwich strategy with the default configuration and an empty
    history returns for a packet. *)
Definition sandwich_alone (packet : MempoolPacket) (w : World) : list MEVOpportunity :=
  contribution (fst (Sandwich.analyze packet
                       (mkCtx (Sandwich.new Sandwich.defaultConfig) w))).

(** The venues of the price example: DexA observed at 0.50, with a
    threshold of one percent. *)
Definition dexA_at_050 : Arbitrage.DexInfo := Arbitrage.mkDexInfo "DexA" "TON/USDT" 0.50.

Definition threshold_one_percent : Arbitrage.ArbitrageConfig :=
  Arbitrage.mkConfig true 1 0.5 0.005 ["DexA"; "DexB"] 0.01 0.5.

(** A transaction whose data is a text: the operation code of the venues,
    the address of USDT on DeDust and, eighty characters after the start of
    the address, sixteen characters that read as -10^9. *)
Definition negative_price : Js.JsVal :=
  Js.JObj
    [("data",
      Js.JStr ("b5ee9c72"
               ++ "0a519f99bb5b6d3d3c5c8d5e5f5a5b5c5d5e5f5a5b5c5d5e5f5a5b5c5d5e5f"
               ++ "000000000000000000"
               ++ "-00000003b9aca00"))].


(** Three opportunities with profits 1, 3 and 2. *)
Definition opportunity_of (name : string) (profit : Q) : MEVOpportunity :=
  mkOpportunity "some-id" name 0 profit 0.9 (OtherDetails Js.JNull) ("packet-0", 0%Z).

Definition three_opportunities : StrategyManager.State :=
  StrategyManager.mkState []
    [opportunity_of "arbitrage" 1; opportunity_of "sandwich" 3;
     opportunity_of "arbitrage" 2]
    0 [] [].

(** Four opportunities, three of them of the arbitrage strategy, with
    profits 3, 1 and 2 in the order of the store. *)
Definition four_opportunities : StrategyManager.State :=
  StrategyManager.mkState []
    [opportunity_of "arbitrage" 3; opportunity_of "sandwich" 5;
     opportunity_of "arbitrage" 1; opportunity_of "arbitrage" 2]
    0 [] [].

(** Cache histories after a write of 0.52 for (DeDust, TON/USDT) at time 0:
    a few operations on other keys, and a thousand writes of new pairs of
    the same venue, one per millisecond. *)
Definition other_keys : list CacheTrace.Op :=
  [CacheTrace.Update 10 10 "Ston.fi" "TON/USDT" 0.5;
   CacheTrace.Lookup 20 "DeDust" "TON/USDC";
   CacheTrace.Update 30 31 "DeDust" "TON/ETH" 0.0003].

Definition thousand_new_pairs : list CacheTrace.Op :=
  CacheTrace.writes_of_new_pairs "DeDust" 1 1000.

Definition written_at_0 : PriceCache.t :=
  PriceCache.updatePriceCache 0 0 "DeDust" "TON/USDT" 0.52 [].

(** Two histories of the manager: in the first the sandwich opportunities
    are cleared from both stores, in the second from the manager's only. *)
Definition paired_history : list ManagerTrace.Op :=
  [ManagerTrace.AnalyzePacket large_swap_packet;
   ManagerTrace.ClearOpportunities (Some "sandwich");
   ManagerTrace.ClearStrategy "sandwich";
   ManagerTrace.AnalyzePacket large_swap_packet].

Definition unpaired_history : list ManagerTrace.Op :=
  [ManagerTrace.AnalyzePacket large_swap_packet;
   ManagerTrace.ClearOpportunities (Some "sandwich")].

(** A DeDust transaction, named by its contract address, whose message
    holds the swap operation code and, 24 digits after it, the price 500000
    in units of 10^-6: TON/USDT at 0.50. *)
Definition dedust_swap : Js.JsVal :=
  Js.JObj
    [("stdSmcAddress", Js.JStr "EQBfBWT7X2BHg9tXAxzhz2aKiNTU1tpt5NsiK0uSDW_YAJ67");
     ("outMsgs",
      Js.JArr [Js.JBuf [x01; xe1; x88; x01;
                        x00; x00; x00; x00; x00; x00; x00; x00;
                        x00; x00; x00; x00; x00; x07; xa1; x20]%byte])].

(** A Ston.fi transaction whose data holds the pool id [0001] and, 24
    characters after it, the price 520000000 in nano-units: TON/USDT at
    0.52. *)
Definition stonfi_swap : Js.JsVal :=
  Js.JObj
    [("stdSmcAddress",
      Js.JStr "fdc7cd1d8d0e710105e2b69bbd747eb3748cc4103bc0dd581e91ba4360929b73");
     ("data", Js.JStr "0001zzzzzzzzzzzzzzzzzzzz000000001efe9200")].

Definition two_venue_packet : MempoolPacket :=
  mkPacket "packet-6" 6000 (Js.JObj []) (Some [dedust_swap; stonfi_swap]).

(** A packet of two transactions: the swap on Ston.fi at 0.52, then the
    transaction whose price reads as -1, on DeDust. *)
Definition negative_price_packet : MempoolPacket :=
  mkPacket "packet-7" 7000 (Js.JObj []) (Some [stonfi_swap; negative_price]).

(** A transaction without an address whose data holds the operation code
    shared by the three venues. *)
Definition op_code_only : Js.JsVal :=
  Js.JObj [("data", Js.JStr "b5ee9c720000")].

(** A transaction whose address is a Buffer: the bytes of the contract
    address of Ston.fi. *)
Definition stonfi_address : list byte :=
  [xfd; xc7; xcd; x1d; x8d; x0e; x71; x01; x05; xe2; xb6; x9b; xbd; x74; x7e; xb3;
   x74; x8c; xc4; x10; x3b; xc0; xdd; x58; x1e; x91; xba; x43; x60; x92; x9b; x73]%byte.

Definition buffer_addressed : Js.JsVal :=
  Js.JObj [("stdSmcAddress", Js.JBuf stonfi_address)].

(** A cache whose venue DeDust holds 1001 pairs, the pair numbered [n]
    written at time [n]. *)
Definition crowded : PriceCache.t :=
  [("DeDust",
    map (fun n => (CacheTrace.numbered_pair n, PriceCache.mkEntry 1 (Z.of_nat n)))
        (seq 0 1001))].

(** A private key of 32 bytes. *)
Definition sample_key : list byte :=
  [x00; x01; x02; x03; x04; x05; x06; x07; x08; x09; x0a; x0b; x0c; x0d; x0e; x0f;
   x10; x11; x12; x13; x14; x15; x16; x17; x18; x19; x1a; x1b; x1c; x1d; x1e; x1f]%byte.

End Examples.

(** * Properties *)

(** ** Comparisons on rationals *)

Lemma Qltb_lt (x y : Q) : Qltb x y = true <-> x < y.
Proof.
  unfold Qltb. rewrite negb_true_iff. split; intro H.
  - apply Qnot_le_lt. intro Hle. apply Qle_bool_iff in Hle. congruence.
  - destruct (Qle_bool y x) eqn:E; [|reflexivity].
    apply Qle_bool_iff in E. exfalso. exact (Qlt_not_le _ _ H E).
Qed.

Lemma Qltb_ge (x y : Q) : Qltb x y = false <-> y <= x.
Proof.
  unfold Qltb. rewrite negb_false_iff. apply Qle_bool_iff.
Qed.

(** ** The sandwich price impact (C7) *)

Lemma calculatePriceImpact_formula (cfg : Sandwich.SandwichConfig) (s : Q) :
  Sandwich.calculatePriceImpact cfg s
  == Qmin (0.1 + 0.005 * (s - Sandwich.minTargetSwapSize cfg)) 5.
Proof.
  unfold Sandwich.calculatePriceImpact.
  apply Q.min_compat; [field | reflexivity].
Qed.

(** [analyze] once [extractSwapDetails] has answered. *)
Lemma analyze_without_swap (packet : MempoolPacket) (c c1 : Ctx Sandwich.State) :
  Js.truthy (packet_data packet) = true ->
  Sandwich.extractSwapDetails (packet_data packet) c = (Returned None, c1) ->
  Sandwich.analyze packet c = (Returned [], c1).
Proof.
  intros Hdata Hswap.
  unfold Sandwich.analyze, bind, get_self, try_catch. cbn.
  rewrite Hdata. cbn. unfold bind. rewrite Hswap. reflexivity.
Qed.

Lemma analyze_rejects_low_impact (packet : MempoolPacket) (c c1 : Ctx Sandwich.State)
      (swap : Sandwich.SwapDetails) :
  Js.truthy (packet_data packet) = true ->
  Sandwich.extractSwapDetails (packet_data packet) c = (Returned (Some swap), c1) ->
  Sandwich.calculatePriceImpact (Sandwich.config (self c)) (Sandwich.swapSize swap) < 0.5 ->
  Sandwich.analyze packet c = (Returned [], c1).
Proof.
  intros Hdata Hswap Hlow. apply Qltb_lt in Hlow.
  unfold Sandwich.analyze, bind, get_self, try_catch. cbn.
  rewrite Hdata. cbn. unfold bind. rewrite Hswap. cbn.
  destruct (Sandwich.includes_pair _ _); cbn; [|reflexivity].
  destruct (Qltb (Sandwich.swapSize swap) _); cbn; [reflexivity|].
  rewrite Hlow. reflexivity.
Qed.

(** C7, as amended: the estimated price impact of a swap of size [s] is
    min(0.1 + 0.005 * (s - minTargetSwapSize), 5) percent, that is 0.05% for
    each ten units of size above the minimum, and a candidate whose impact is
    below 0.5% is rejected: [analyze] returns no opportunity and records
    none. *)
Theorem sandwich_price_impact :
  forall (packet : MempoolPacket) (c c1 : Ctx Sandwich.State)
         (swap : Sandwich.SwapDetails),
    Js.truthy (packet_data packet) = true ->
    Sandwich.extractSwapDetails (packet_data packet) c = (Returned (Some swap), c1) ->
    Sandwich.calculatePriceImpact (Sandwich.config (self c)) (Sandwich.swapSize swap)
    == Qmin (0.1 + 0.005 * (Sandwich.swapSize swap
                            - Sandwich.minTargetSwapSize (Sandwich.config (self c)))) 5
    /\ (Sandwich.calculatePriceImpact (Sandwich.config (self c)) (Sandwich.swapSize swap)
        < 0.5 ->
        Sandwich.analyze packet c = (Returned [], c1)).
Proof.
  intros packet c c1 swap Hdata Hswap. split.
  - apply calculatePriceImpact_formula.
  - intro Hlow. eapply analyze_rejects_low_impact; eassumption.
Qed.

Lemma sandwich_price_impact_witness :
  Sandwich.analyze Examples.small_swap_packet
    (mkCtx (Sandwich.new Sandwich.defaultConfig) Examples.steady)
  = (Returned [], mkCtx (Sandwich.new Sandwich.defaultConfig) Examples.steady).
Proof.
  apply (proj2 (sandwich_price_impact
                  Examples.small_swap_packet
                  (mkCtx (Sandwich.new Sandwich.defaultConfig) Examples.steady)
                  (mkCtx (Sandwich.new Sandwich.defaultConfig) Examples.steady)
                  (Sandwich.mkSwap (Some "TON/USDT") (inject_Z 20000000000 / 1e9))
                  eq_refl eq_refl)).
  reflexivity.
Defined.

(** C7, as stated, fails: ten units above the minimum the impact is 0.15%,
    not the 0.6% of "0.05% per size unit". *)
Lemma sandwich_price_impact_counterexample :
  ~ (Sandwich.calculatePriceImpact Sandwich.defaultConfig 20
     == Qmin (0.1 + 0.05 * (20 - Sandwich.minTargetSwapSize Sandwich.defaultConfig)) 5).
Proof.
  intro H. vm_compute in H. discriminate H.
Qed.

(** ** The arbitrage trade size (C8) *)

Lemma calculateOptimalTradeSize_monotone (buy sell sell' slippage : Q) :
  0 < buy -> sell <= sell' ->
  Arbitrage.calculateOptimalTradeSize buy sell slippage
  <= Arbitrage.calculateOptimalTradeSize buy sell' slippage.
Proof.
  intros Hbuy Hle. unfold Arbitrage.calculateOptimalTradeSize.
  assert (Hgap : (sell - buy) / buy * 100 / 1 <= (sell' - buy) / buy * 100 / 1).
  { unfold Qdiv. rewrite !Qmult_1_r || idtac.
    assert (Hinv : 0 < / buy) by (apply Qinv_lt_0_compat; exact Hbuy).
    assert (Hstep : (sell - buy) * / buy <= (sell' - buy) * / buy).
    { apply Qmult_le_compat_r; [lra | apply Qlt_le_weak; exact Hinv]. }
    change (/ 1) with 1. lra. }
  pose proof (Q.min_le_compat_r _ _ 5 Hgap) as Hmin. lra.
Qed.

Lemma calculateOptimalTradeSize_bound (buy sell slippage : Q) :
  Arbitrage.calculateOptimalTradeSize buy sell slippage <= 60.
Proof.
  unfold Arbitrage.calculateOptimalTradeSize.
  pose proof (Q.le_min_r ((sell - buy) / buy * 100 / 1) 5). lra.
Qed.

(** C8 at the failing input: buying at 1 and selling at 1.05, a gap of 5%,
    the trade size is 60, six times the base size of 10 and above the five
    times of the claim. *)
Theorem trade_size_exceeds_five_times_base :
  Arbitrage.calculateOptimalTradeSize 1 1.05 0.5 == 60
  /\ 5 * 10 < Arbitrage.calculateOptimalTradeSize 1 1.05 0.5.
Proof.
  split; reflexivity.
Qed.

(** ** The arbitrage price comparison (C2) *)

Lemma Qmin_pos (p1 p2 : Q) : 0 < p1 -> 0 < p2 -> 0 < Qmin p1 p2.
Proof.
  intros H1 H2. apply Q.min_case_strong; intros; try assumption.
  rewrite <- H. assumption.
Qed.

Lemma priceDifferencePercentOf_formula (p1 p2 : Q) :
  Arbitrage.priceDifferencePercentOf p1 p2 == Qabs (p1 - p2) / Qabs (Qmin p1 p2) * 100.
Proof.
  unfold Arbitrage.priceDifferencePercentOf, Qdiv.
  rewrite !Qabs_Qmult, Qabs_Qinv.
  rewrite (Qabs_pos 100) by (vm_compute; discriminate).
  reflexivity.
Qed.

(** An opportunity emitted by one turn of the loop over the other venues
    comes from the comparison with the price cached for that venue, read
    within the TTL. *)
Lemma checkOtherDex_compares (packet : MempoolPacket) (cfg : Arbitrage.ArbitrageConfig)
      (info : Arbitrage.DexInfo) (otherDex : string) (c : Ctx Arbitrage.State)
      (o : MEVOpportunity) (rest : list MEVOpportunity) :
  contribution (fst (Arbitrage.checkOtherDex packet cfg info otherDex c)) = o :: rest ->
  rest = []
  /\ otherDex <> Arbitrage.dex info
  /\ exists cached opportunityDetails confidence,
       PriceCache.entry_of (Arbitrage.priceCache (self c)) otherDex
                           (Arbitrage.tokenPair info) = Some cached
       /\ PriceCache.expired (fst (Date_now (world c))) cached = false
       /\ Arbitrage.compareWith cfg info otherDex (PriceCache.price cached)
          = Some (opportunityDetails, confidence)
       /\ details o = ArbitrageDetails opportunityDetails.
Proof.
  unfold Arbitrage.checkOtherDex.
  destruct (String.eqb_spec otherDex (Arbitrage.dex info)) as [Heq|Hne];
    [cbn; discriminate|].
  unfold bind at 1. unfold Arbitrage.do_getPriceFromCache.
  unfold bind at 1. unfold get_self at 1.
  destruct (PriceCache.entry_of (Arbitrage.priceCache (self c)) otherDex
              (Arbitrage.tokenPair info)) as [cached|] eqn:Hentry;
    [|cbn; discriminate].
  unfold bind at 1. unfold in_world at 1.
  destruct (Date_now (world c)) as [now w1] eqn:Hnow. cbn [fst self world].
  unfold PriceCache.getPriceFromCache. rewrite Hentry.
  destruct (PriceCache.expired now cached) eqn:Hexpired; [cbn; discriminate|].
  unfold bind, update_self, ret. cbn [self world fst snd].
  destruct (Arbitrage.price_truthy (Some (PriceCache.price cached))); cbn [negb];
    [|cbn; discriminate].
  unfold in_world, get_self, Arbitrage.set_cache.
  cbn [self world fst snd Arbitrage.priceCache].
  destruct (Date_now w1) as [now2 w2]. cbn [self world fst snd Arbitrage.priceCache].
  rewrite Hentry.
  destruct (_ >? _)%Z; [destruct (Date_now w2); cbn; discriminate|].
  destruct (Arbitrage.compareWith cfg info otherDex (PriceCache.price cached))
    as [[opportunityDetails confidence]|] eqn:Hcompare; [|cbn; discriminate].
  destruct (uuidv4 w2) as [id w3]. cbn. intro Hresult. injection Hresult as <- <-.
  split; [reflexivity|]. split; [exact Hne|].
  exists cached, opportunityDetails, confidence. repeat split; reflexivity || assumption.
Qed.

(** C2, as amended: for an observed price [p1] (on [dex]) and a cached
    price [p2] (for [otherDex]), the price difference is
    |(p1 - p2) / min(p1, p2)| * 100, that is |p1 - p2| / |min(p1, p2)| * 100,
    which is the |p1 - p2| / min(p1, p2) * 100 of the claim whenever the
    lower price is positive; below [minPriceDifferencePercent] nothing is
    emitted; an emitted opportunity carries this percentage, buys on the
    venue with the lower price and sells on the other.  With DexA at 0.50
    and DexB at 0.51 the percentage is 2 (not 1.96), and with
    [minPriceDifferencePercent = 1] an emitted opportunity buys on DexA and
    sells on DexB.  (Neither price is ever zero: [extractDexInfo] returns
    nothing for a falsy price and the loop skips a falsy cached price.) *)
Theorem arbitrage_price_comparison :
  forall (cfg : Arbitrage.ArbitrageConfig) (info : Arbitrage.DexInfo)
         (otherDex : string) (otherPrice : Q),
    let p1 := Arbitrage.price info in
    let p2 := otherPrice in
    let percent := Qabs (p1 - p2) / Qabs (Qmin p1 p2) * 100 in
    Arbitrage.priceDifferencePercentOf p1 p2 == percent
    /\ (0 < Qmin p1 p2 -> percent == Qabs (p1 - p2) / Qmin p1 p2 * 100)
    /\ (percent < Arbitrage.minPriceDifferencePercent cfg ->
        Arbitrage.compareWith cfg info otherDex otherPrice = None)
    /\ (forall details confidence,
          Arbitrage.compareWith cfg info otherDex otherPrice
          = Some (details, confidence) ->
          ArbitrageOpportunityDetails.priceDifferencePercent details == percent
          /\ Arbitrage.minPriceDifferencePercent cfg <= percent
          /\ (p1 < p2 ->
              ArbitrageOpportunityDetails.buyDex details = Arbitrage.dex info
              /\ ArbitrageOpportunityDetails.sellDex details = otherDex)
          /\ (p2 < p1 ->
              ArbitrageOpportunityDetails.buyDex details = otherDex
              /\ ArbitrageOpportunityDetails.sellDex details = Arbitrage.dex info))
    /\ Arbitrage.priceDifferencePercentOf 0.50 0.51 == 2.
Proof.
  intros cfg info otherDex otherPrice. cbv zeta.
  pose proof (priceDifferencePercentOf_formula (Arbitrage.price info) otherPrice)
    as Hformula.
  split; [exact Hformula|]. split; [|split; [|split]].
  - intro Hmin. rewrite (Qabs_pos (Qmin _ _)) by (apply Qlt_le_weak; exact Hmin).
    reflexivity.
  - intro Hlow. unfold Arbitrage.compareWith.
    rewrite <- Hformula in Hlow. apply Qltb_lt in Hlow.
    rewrite Hlow. reflexivity.
  - intros details confidence Hsome. unfold Arbitrage.compareWith in Hsome.
    destruct (Qltb (Arbitrage.priceDifferencePercentOf _ otherPrice) _) eqn:Hpct;
      [discriminate|].
    destruct (Qltb _ (Arbitrage.minProfitEstimate cfg)); [discriminate|].
    destruct (Qltb _ (Arbitrage.minConfidence cfg)); [discriminate|].
    injection Hsome as Hdetails _. subst details. cbn.
    apply Qltb_ge in Hpct.
    split; [exact Hformula|]. split; [rewrite <- Hformula; exact Hpct|].
    split; intro Hlt.
    + apply Qltb_lt in Hlt. rewrite Hlt. split; reflexivity.
    + assert (Hge : Qltb (Arbitrage.price info) otherPrice = false)
        by (apply Qltb_ge; apply Qlt_le_weak; exact Hlt).
      rewrite Hge. split; reflexivity.
  - reflexivity.
Qed.

Lemma arbitrage_price_comparison_witness :
  exists details confidence,
    Arbitrage.compareWith Examples.threshold_one_percent Examples.dexA_at_050 "DexB" 0.51
    = Some (details, confidence)
    /\ ArbitrageOpportunityDetails.priceDifferencePercent details == 2
    /\ ArbitrageOpportunityDetails.buyDex details = "DexA"
    /\ ArbitrageOpportunityDetails.sellDex details = "DexB".
Proof.
  pose proof (arbitrage_price_comparison Examples.threshold_one_percent
                Examples.dexA_at_050 "DexB" 0.51) as H.
  cbv zeta in H. destruct H as (_ & _ & _ & Hemitted & _).
  destruct (Arbitrage.compareWith Examples.threshold_one_percent Examples.dexA_at_050 "DexB" 0.51)
    as [[details confidence]|] eqn:E; [|vm_compute in E; discriminate E].
  exists details, confidence.
  destruct (Hemitted details confidence eq_refl) as (Hpct & _ & Hbuy & _).
  destruct (Hbuy eq_refl) as [Hb Hs].
  split; [reflexivity|]. split; [|split; assumption].
  rewrite Hpct. reflexivity.
Defined.

(** C2, as stated, fails twice.  On its example: at 0.50 against 0.51 the
    computed percentage is 2, which is not the 1.96 of the example to two
    decimal places.  On its formula: a price read from the text of a
    transaction's data can be negative (here -1, from the sixteen characters
    [-00000003b9aca00]), and against a cached 0.5 the computed difference
    is 150 where |p1 - p2| / min(p1, p2) * 100 is -150.  Such a price
    reaches the comparison: for a packet with a swap on Ston.fi at 0.52 and
    then this transaction, [analyze] with the default configuration emits an
    opportunity to buy on DeDust and sell on Ston.fi at a difference of 152,
    where |p1 - p2| / min(p1, p2) * 100 is -152. *)
Lemma arbitrage_price_comparison_counterexample :
  ~ (1.955 <= Arbitrage.priceDifferencePercentOf 0.50 0.51 < 1.965)
  /\ exists info,
       fst (Arbitrage.extractDexInfo Examples.negative_price
              (mkCtx (Arbitrage.new Arbitrage.defaultConfig) Examples.steady))
       = Returned (Some info)
       /\ Arbitrage.price info == -1
       /\ Arbitrage.priceDifferencePercentOf (Arbitrage.price info) 0.5 == 150
       /\ Qabs (Arbitrage.price info - 0.5) / Qmin (Arbitrage.price info) 0.5 * 100
          == -150
       /\ exists opp d,
            fst (Arbitrage.analyze Examples.negative_price_packet
                   (mkCtx (Arbitrage.new Arbitrage.defaultConfig) Examples.steady))
            = Returned [opp]
            /\ details opp = ArbitrageDetails d
            /\ ArbitrageOpportunityDetails.buyDex d = "DeDust"
            /\ ArbitrageOpportunityDetails.sellDex d = "Ston.fi"
            /\ ArbitrageOpportunityDetails.priceDifferencePercent d == 152
            /\ Qabs (Arbitrage.price info - 0.52) / Qmin (Arbitrage.price info) 0.52 * 100
               == -152.
Proof.
  split.
  - intros [_ H]. vm_compute in H. discriminate H.
  - eexists. split; [vm_compute; reflexivity|].
    do 3 (split; [vm_compute; reflexivity|]).
    do 2 eexists. split; [vm_compute; reflexivity|].
    split; [reflexivity|]. split; [reflexivity|]. split; [reflexivity|].
    split; vm_compute; reflexivity.
Qed.

(** ** Ranked queries (C4) *)

Lemma In_firstn {A : Type} (n : nat) (l : list A) (x : A) :
  In x (firstn n l) -> In x l.
Proof.
  revert l. induction n as [|n IH]; intros [|y l] Hx; cbn in Hx; try contradiction.
  destruct Hx as [<-|Hx]; [left; reflexivity | right; apply IH; exact Hx].
Qed.

Section Ranking.
Import StrategyManager.

Lemma insert_by_profit_perm (x : MEVOpportunity) (l : list MEVOpportunity) :
  Permutation (insert_by_profit x l) (x :: l).
Proof.
  induction l as [|y l IH]; cbn.
  - apply Permutation_refl.
  - destruct (Qle_bool (profitEstimate y) (profitEstimate x)).
    + apply Permutation_refl.
    + apply perm_trans with (y :: x :: l).
      * apply perm_skip. exact IH.
      * apply perm_swap.
Qed.

Lemma sort_by_profit_perm (l : list MEVOpportunity) :
  Permutation (sort_by_profit l) l.
Proof.
  induction l as [|x l IH]; cbn.
  - apply perm_nil.
  - apply perm_trans with (x :: sort_by_profit l).
    + apply insert_by_profit_perm.
    + apply perm_skip. exact IH.
Qed.

Lemma insert_by_profit_sorted (x : MEVOpportunity) (l : list MEVOpportunity) :
  StronglySorted descending l -> StronglySorted descending (insert_by_profit x l).
Proof.
  induction l as [|y l IH]; intro Hsorted; cbn.
  - constructor; constructor.
  - inversion Hsorted as [|? ? Htail Hall]; subst.
    destruct (Qle_bool (profitEstimate y) (profitEstimate x)) eqn:E.
    + apply Qle_bool_iff in E. constructor; [exact Hsorted|].
      constructor; [exact E|].
      eapply Forall_impl; [|exact Hall]. unfold descending. intros z Hz.
      eapply Qle_trans; eassumption.
    + assert (Hlt : profitEstimate x <= profitEstimate y).
      { apply Qlt_le_weak. apply Qnot_le_lt. intro Hle.
        apply Qle_bool_iff in Hle. congruence. }
      constructor; [apply IH; exact Htail|].
      apply Forall_forall. intros z Hz.
      apply (Permutation_in _ (insert_by_profit_perm x l)) in Hz.
      destruct Hz as [<-|Hz]; [exact Hlt|].
      rewrite Forall_forall in Hall. apply Hall. exact Hz.
Qed.

Lemma sort_by_profit_sorted (l : list MEVOpportunity) :
  StronglySorted descending (sort_by_profit l).
Proof.
  induction l as [|x l IH]; cbn.
  - constructor.
  - apply insert_by_profit_sorted. exact IH.
Qed.

Lemma firstn_sorted (n : nat) (l : list MEVOpportunity) :
  StronglySorted descending l -> StronglySorted descending (firstn n l).
Proof.
  revert l. induction n as [|n IH]; intros l Hsorted; cbn.
  - constructor.
  - destruct l as [|x l]; [constructor|].
    inversion Hsorted as [|? ? Htail Hall]; subst.
    constructor; [apply IH; exact Htail|].
    apply Forall_forall. intros z Hz. rewrite Forall_forall in Hall.
    apply Hall. apply (In_firstn n l). exact Hz.
Qed.

(** What [getOpportunities] ranks: the whole store, or the part of it
    under the given strategy name. *)
Lemma getOpportunities_ranked (limit : Z) (strategyFilter : option string) (m : State) :
  exists ranked,
    StronglySorted descending ranked
    /\ incl ranked (opportunities m)
    /\ (forall f, given strategyFilter = Some f ->
                  Forall (fun opp => strategy opp = f) ranked)
    /\ fst (getOpportunities limit strategyFilter m)
       = if (limit >? 0)%Z && (Z.of_nat (List.length ranked) >? limit)%Z
         then firstn (Z.to_nat limit) ranked else ranked.
Proof.
  unfold getOpportunities.
  destruct (given strategyFilter) as [f|] eqn:Hgiven.
  - exists (sort_by_profit
              (filter (fun opp => String.eqb (strategy opp) f) (opportunities m))).
    split; [apply sort_by_profit_sorted|]. split; [|split].
    + intros x Hx. apply (Permutation_in _ (sort_by_profit_perm _)) in Hx.
      apply filter_In in Hx. tauto.
    + intros f' Hf'. injection Hf' as <-. apply Forall_forall. intros x Hx.
      apply (Permutation_in _ (sort_by_profit_perm _)) in Hx.
      apply filter_In in Hx. apply String.eqb_eq. tauto.
    + destruct (_ && _); reflexivity.
  - exists (sort_by_profit (opportunities m)).
    split; [apply sort_by_profit_sorted|]. split; [|split].
    + intros x Hx. apply (Permutation_in _ (sort_by_profit_perm _)) in Hx. exact Hx.
    + intros f' Hf'. discriminate Hf'.
    + destruct (_ && _); reflexivity.
Qed.

(** In a sorted list every item of a prefix may stand before every item
    that the prefix leaves out. *)
Lemma sorted_prefix_dominates (n : nat) (l : list MEVOpportunity) :
  StronglySorted descending l ->
  Forall (fun worse => Forall (fun best => descending best worse) (firstn n l))
         (skipn n l).
Proof.
  intro Hsorted. revert n.
  induction Hsorted as [|x l Hl IH Hx]; intro n.
  - rewrite skipn_nil. constructor.
  - destruct n as [|n]; cbn [firstn skipn].
    + apply Forall_forall. intros worse _. constructor.
    + specialize (IH n). rewrite Forall_forall in IH, Hx |- *.
      intros worse Hworse. constructor; [|now apply IH].
      apply Hx. rewrite <- (firstn_skipn n l). apply in_or_app. now right.
Qed.

(** The answer of [getOpportunities] to a positive limit is the front of
    the matching opportunities sorted by profit. *)
Lemma getOpportunities_front (N : Z) (strategyFilter : option string) (m : State) :
  (0 < N)%Z ->
  fst (getOpportunities N strategyFilter m)
  = firstn (Z.to_nat N)
      (sort_by_profit
         match given strategyFilter with
         | Some f => filter (fun opp => String.eqb (strategy opp) f) (opportunities m)
         | None => opportunities m
         end).
Proof.
  intro HN. unfold getOpportunities.
  destruct (given strategyFilter) as [f|];
    (destruct (_ && _) eqn:Hcut; cbn [fst]; [reflexivity|];
     symmetry; apply firstn_all2;
     apply andb_false_iff in Hcut; destruct Hcut as [Hcut|Hcut]; lia).
Qed.

End Ranking.

(** C4: for every store, every strategy filter and every limit N > 0,
    [getOpportunities(N, filter)] returns at most N opportunities of the
    store, each under the strategy name of the filter when one is given (a
    non-empty name), sorted by profit estimate in descending order.  They
    are the most profitable ones: as many as the limit or the number of
    matching opportunities allows, and none left out has a higher profit
    than one returned. *)
Theorem getOpportunities_limited_filtered_sorted :
  forall (m : StrategyManager.State) (N : Z) (strategyFilter : option string),
    (0 < N)%Z ->
    let matching :=
      match StrategyManager.given strategyFilter with
      | Some f => filter (fun opp => String.eqb (strategy opp) f)
                         (StrategyManager.opportunities m)
      | None => StrategyManager.opportunities m
      end in
    let answer := fst (StrategyManager.getOpportunities N strategyFilter m) in
    (Z.of_nat (List.length answer) <= N)%Z
    /\ (forall f, StrategyManager.given strategyFilter = Some f ->
                  Forall (fun opp => strategy opp = f) answer)
    /\ StronglySorted descending answer
    /\ incl answer (StrategyManager.opportunities m)
    /\ List.length answer = Nat.min (Z.to_nat N) (List.length matching)
    /\ exists left_out,
         Permutation (answer ++ left_out) matching
         /\ Forall (fun worse => Forall (fun best => descending best worse) answer)
                   left_out.
Proof.
  intros m N strategyFilter HN matching answer.
  assert (Hanswer : answer
                    = firstn (Z.to_nat N) (StrategyManager.sort_by_profit matching))
    by (apply getOpportunities_front; exact HN).
  pose proof (sort_by_profit_perm matching) as Hperm.
  pose proof (sort_by_profit_sorted matching) as Hsorted.
  assert (Hmatching : incl matching (StrategyManager.opportunities m)).
  { unfold matching. destruct (StrategyManager.given strategyFilter) as [f|].
    - intros x Hx. apply filter_In in Hx. tauto.
    - apply incl_refl. }
  assert (Hin : forall x, In x answer -> In x matching).
  { intros x Hx. rewrite Hanswer in Hx. apply In_firstn in Hx.
    now apply (Permutation_in _ Hperm). }
  split; [rewrite Hanswer, length_firstn; lia|].
  split.
  { intros f Hf. apply Forall_forall. intros x Hx. apply Hin in Hx.
    unfold matching in Hx. rewrite Hf in Hx.
    apply filter_In in Hx. apply String.eqb_eq. tauto. }
  split; [rewrite Hanswer; now apply firstn_sorted|].
  split; [intros x Hx; apply Hmatching, Hin; exact Hx|].
  split; [rewrite Hanswer, length_firstn, (Permutation_length Hperm); reflexivity|].
  exists (skipn (Z.to_nat N) (StrategyManager.sort_by_profit matching)). split.
  - rewrite Hanswer, firstn_skipn. exact Hperm.
  - rewrite Hanswer. now apply sorted_prefix_dominates.
Qed.

Lemma getOpportunities_limited_filtered_sorted_witness :
  fst (StrategyManager.getOpportunities 2 (Some "arbitrage") Examples.four_opportunities)
  = [Examples.opportunity_of "arbitrage" 3; Examples.opportunity_of "arbitrage" 2]
  /\ StronglySorted descending
       (fst (StrategyManager.getOpportunities 2 (Some "arbitrage") Examples.four_opportunities))
  /\ exists left_out,
       Permutation
         (fst (StrategyManager.getOpportunities 2 (Some "arbitrage") Examples.four_opportunities)
          ++ left_out)
         [Examples.opportunity_of "arbitrage" 3; Examples.opportunity_of "arbitrage" 1;
          Examples.opportunity_of "arbitrage" 2].
Proof.
  assert (HN : (0 < 2)%Z) by reflexivity.
  destruct (getOpportunities_limited_filtered_sorted Examples.four_opportunities 2
              (Some "arbitrage") HN)
    as (_ & _ & Hsorted & _ & _ & left_out & Hperm & _).
  split; [reflexivity|]. split; [exact Hsorted|].
  exists left_out. exact Hperm.
Defined.

(** ** The fan-out of a packet (C10, C5) *)

Section Fanout.
Import StrategyManager.

Lemma runStrategies_collects (packet : MempoolPacket)
      (todo : list (string * AnyStrategy)) (f : Fanout) :
  let outcomes := strategyOutcomes packet todo (env f) in
  let collected := flat_map (fun named => contribution (snd named)) outcomes in
  newOpportunities (snd (runStrategies packet todo f)) = newOpportunities f ++ collected
  /\ store (snd (runStrategies packet todo f)) = store f ++ collected.
Proof.
  revert f. induction todo as [|[key strat] rest IH]; intro f; cbn.
  - rewrite !app_nil_r. split; reflexivity.
  - destruct (analyzeWith packet strat (env f)) as [[outcome strat1] w1] eqn:Hrun.
    match goal with
    | |- context [runStrategies packet rest ?f1] =>
        specialize (IH f1); destruct (runStrategies packet rest f1) as [rest1 f2] eqn:Hrest
    end.
    cbn in IH |- *. destruct IH as [IHnew IHstore].
    rewrite IHnew, IHstore.
    destruct outcome as [[|o l]|e]; cbn; rewrite ?app_nil_r, <- ?app_assoc;
      split; reflexivity.
Qed.

(** [analyzePacket] on a packet with data: the result, the store and
    the notifications in terms of what the strategies returned. *)
Lemma analyzePacket_collects (packet : MempoolPacket) (c : Ctx State) :
  Js.truthy (packet_data packet) = true ->
  let outcomes :=
    strategyOutcomes packet (strategies (self c)) (snd (Date_now (world c))) in
  let collected := flat_map (fun named => contribution (snd named)) outcomes in
  let after := self (snd (analyzePacket packet c)) in
  fst (analyzePacket packet c) = Returned collected
  /\ Permutation (opportunities after) (opportunities (self c) ++ collected)
  /\ (collected = [] ->
      opportunities after = opportunities (self c)
      /\ emitted after = emitted (self c)).
Proof.
  intro Hdata. cbv zeta.
  unfold analyzePacket. rewrite Hdata. cbn [negb].
  destruct (Date_now (world c)) as [startTime w1] eqn:Hnow. cbn [snd].
  pose proof (runStrategies_collects packet (strategies (self c))
                (mkFanout [] (opportunities (self c)) (logged (self c)) w1))
    as Hcollect.
  cbv zeta in Hcollect. cbn [env newOpportunities store] in Hcollect.
  destruct (runStrategies packet _ _) as [strategies1 f].
  cbn [snd] in Hcollect. destruct Hcollect as [Hnew Hstore].
  destruct (Date_now (env f)) as [endTime w2].
  cbn [app] in Hnew. rewrite <- Hstore, <- Hnew.
  destruct (newOpportunities f) as [|o l] eqn:Hnone; cbn.
  - split; [reflexivity|]. split; [apply Permutation_refl|].
    intros _. rewrite Hstore, <- Hnew, app_nil_r. split; reflexivity.
  - split; [reflexivity|]. split; [|intro Hnil; discriminate Hnil].
    unfold emitUpdated, getOpportunities. cbn.
    match goal with
    | |- context [if ?b then _ else _] => destruct b
    end; cbn; apply sort_by_profit_perm.
Qed.

End Fanout.

(** C10: for every packet whose data field is [null] or [undefined],
    [analyzePacket] returns the empty list; no strategy is invoked (the
    strategy objects and the environment are untouched and no "Analyzing
    packet with strategy" record is logged, only the warning), the
    aggregate store is unchanged and no notification is emitted. *)
Theorem analyzePacket_absent_data :
  forall (packet : MempoolPacket) (c : Ctx StrategyManager.State),
    packet_data packet = Js.JNull \/ packet_data packet = Js.JUndefined ->
    let after := snd (StrategyManager.analyzePacket packet c) in
    fst (StrategyManager.analyzePacket packet c) = Returned []
    /\ StrategyManager.strategies (self after) = StrategyManager.strategies (self c)
    /\ StrategyManager.opportunities (self after) = StrategyManager.opportunities (self c)
    /\ StrategyManager.emitted (self after) = StrategyManager.emitted (self c)
    /\ world after = world c
    /\ StrategyManager.logged (self after)
       = StrategyManager.logged (self c)
         ++ [StrategyManager.mkLog StrategyManager.LWarn
               "Invalid mempool packet received for analysis" None].
Proof.
  intros packet c Habsent. unfold StrategyManager.analyzePacket.
  destruct Habsent as [-> | ->]; cbn; repeat split; reflexivity.
Qed.

Lemma analyzePacket_absent_data_witness :
  fst (StrategyManager.analyzePacket Examples.absent_data_packet
         (mkCtx StrategyManager.new Examples.steady))
  = Returned [].
Proof.
  apply (analyzePacket_absent_data Examples.absent_data_packet
           (mkCtx StrategyManager.new Examples.steady)).
  left. reflexivity.
Defined.

(** C5: for every packet with data and every registry, the result of
    [analyzePacket] is the concatenation, in registration order, of what the
    strategies' [analyze] calls return: a call that throws contributes
    nothing and does not keep the opportunities of any other strategy, before
    or after it, out of the result or out of the aggregate store.  In
    particular, of two registered strategies of which one throws, the result
    is exactly what the other one returned. *)
Theorem strategy_failure_isolation :
  forall (packet : MempoolPacket) (c : Ctx StrategyManager.State),
    Js.truthy (packet_data packet) = true ->
    let registry := StrategyManager.strategies (self c) in
    let outcomes := strategyOutcomes packet registry (snd (Date_now (world c))) in
    let collected := flat_map (fun named => contribution (snd named)) outcomes in
    fst (StrategyManager.analyzePacket packet c) = Returned collected
    /\ Permutation
         (StrategyManager.opportunities (self (snd (StrategyManager.analyzePacket packet c))))
         (StrategyManager.opportunities (self c) ++ collected)
    /\ (forall thrower healthy e returned,
          outcomes = [(thrower, Threw e); (healthy, Returned returned)]
          \/ outcomes = [(healthy, Returned returned); (thrower, Threw e)] ->
          fst (StrategyManager.analyzePacket packet c) = Returned returned).
Proof.
  intros packet c Hdata. cbv zeta.
  destruct (analyzePacket_collects packet c Hdata) as (Hresult & Hstore & _).
  split; [exact Hresult|]. split; [exact Hstore|].
  intros thrower healthy e returned Hpair. rewrite Hresult.
  destruct Hpair as [-> | ->]; cbn; rewrite ?app_nil_r; reflexivity.
Qed.

Lemma strategy_failure_isolation_witness :
  strategyOutcomes Examples.null_transaction_packet
    (StrategyManager.strategies StrategyManager.new) (snd (Date_now Examples.steady))
  = [("arbitrage", Threw TypeError);
     ("sandwich",
      Returned (Examples.sandwich_alone Examples.null_transaction_packet
                  (snd (Date_now Examples.steady))))]
  /\ List.length (Examples.sandwich_alone Examples.null_transaction_packet
                    (snd (Date_now Examples.steady))) = 1%nat
  /\ fst (StrategyManager.analyzePacket Examples.null_transaction_packet
            (mkCtx StrategyManager.new Examples.steady))
     = Returned (Examples.sandwich_alone Examples.null_transaction_packet
                   (snd (Date_now Examples.steady))).
Proof.
  assert (Houtcomes :
    strategyOutcomes Examples.null_transaction_packet
      (StrategyManager.strategies StrategyManager.new) (snd (Date_now Examples.steady))
    = [("arbitrage", Threw TypeError);
       ("sandwich",
        Returned (Examples.sandwich_alone Examples.null_transaction_packet
                    (snd (Date_now Examples.steady))))])
    by (vm_compute; reflexivity).
  split; [exact Houtcomes|]. split; [vm_compute; reflexivity|].
  apply (strategy_failure_isolation Examples.null_transaction_packet
           (mkCtx StrategyManager.new Examples.steady) eq_refl)
    with (thrower := "arbitrage") (healthy := "sandwich") (e := TypeError).
  left. exact Houtcomes.
Defined.

(** ** The enabled flag (C6) *)

Lemma arbitrage_disabled_returns_nothing (packet : MempoolPacket)
      (c : Ctx Arbitrage.State) :
  Arbitrage.enabled (Arbitrage.config (self c)) = false ->
  Arbitrage.analyze packet c = (Returned [], c).
Proof.
  intro Hoff. unfold Arbitrage.analyze, bind, get_self. cbn. rewrite Hoff.
  destruct c; reflexivity.
Qed.

(** C6 at the failing input: a sandwich strategy registered with
    [enabled = false] is still run by [analyzePacket] and its opportunity
    reaches the result and the aggregate store. *)
Theorem disabled_sandwich_still_contributes :
  let c := mkCtx (StrategyManager.configured Arbitrage.defaultConfig
                    Examples.sandwich_disabled)
                 Examples.steady in
  map (fun kv => (fst kv, enabledOf (snd kv))) (StrategyManager.strategies (self c))
  = [("arbitrage", true); ("sandwich", false)]
  /\ map strategy (contribution (fst (StrategyManager.analyzePacket
                                        Examples.large_swap_packet c)))
     = ["sandwich"]
  /\ map strategy (StrategyManager.opportunities
                     (self (snd (StrategyManager.analyzePacket
                                   Examples.large_swap_packet c))))
     = ["sandwich"].
Proof.
  cbv zeta. repeat split; vm_compute; reflexivity.
Qed.

(** ** Packets without transactions (C1) *)

(** C1, as stated, fails twice.  On a packet with no pre-extracted list
    and no transaction list of any shape in its payload, from which neither
    extractor extracts a transaction, whose payload reads as a swap of 100
    TON: the sandwich strategy, which takes the payload itself as its
    transaction, emits an opportunity.  And on a configuration that is not
    finite: with a minimum swap size of Infinity the placeholder swap is
    infinite, its price impact is NaN, no comparison with NaN rejects it,
    and the sandwich strategy returns, for a packet whose payload reads as
    nothing at all, an opportunity whose profit and confidence are NaN. *)
Lemma analyzePacket_nothing_extractable_counterexample :
  (packet_transactions Examples.large_swap_packet = None
   /\ Searcher.extractTransactionsFromPacket Examples.large_swap_packet = []
   /\ Arbitrage.extractTransactions Examples.large_swap_packet = []
   /\ map strategy
        (contribution (fst (StrategyManager.analyzePacket Examples.large_swap_packet
                              (mkCtx StrategyManager.new Examples.steady))))
      = ["sandwich"]
   /\ fst (StrategyManager.analyzePacket Examples.large_swap_packet
             (mkCtx StrategyManager.new Examples.steady))
      <> Returned [])
  /\ (packet_transactions Examples.unrecognized_packet = None
      /\ Searcher.extractTransactionsFromPacket Examples.unrecognized_packet = []
      /\ Arbitrage.extractTransactions Examples.unrecognized_packet = []
      /\ Sandwich.decodes_swap (packet_data Examples.unrecognized_packet) = false
      /\ exists opp,
           fst (SandwichNum.analyze Examples.unrecognized_packet
                  (mkCtx (SandwichNum.new Examples.infinite_minimum) Examples.steady))
           = Returned [opp]
           /\ SandwichNum.profitEstimate opp = Num.NaN
           /\ SandwichNum.confidence opp = Num.NaN).
Proof.
  split.
  - repeat split; try (vm_compute; reflexivity).
    intro H. vm_compute in H. discriminate H.
  - do 4 (split; [reflexivity|]).
    eexists. split; [vm_compute; reflexivity|]. split; reflexivity.
Qed.

Lemma arbitrage_nothing_to_analyze (packet : MempoolPacket) (c : Ctx Arbitrage.State) :
  Arbitrage.extractTransactions packet = [] ->
  Arbitrage.analyze packet c = (Returned [], c).
Proof.
  intro Hnone. unfold Arbitrage.analyze, bind, get_self. cbn.
  destruct (Arbitrage.enabled (Arbitrage.config (self c))); cbn.
  - rewrite Hnone. cbn. destruct c; reflexivity.
  - destruct c; reflexivity.
Qed.

Lemma placeholder_impact_low (cfg : Sandwich.SandwichConfig) (r : Q) :
  r < 1 ->
  Sandwich.calculatePriceImpact cfg (Sandwich.minTargetSwapSize cfg + r * 20) < 0.5.
Proof.
  intro Hr. rewrite calculatePriceImpact_formula.
  eapply Qle_lt_trans; [apply Q.le_min_l|]. lra.
Qed.

(** Without a decoded swap [extractSwapDetails] answers [null] or the
    placeholder, whose size is the minimum plus twenty times the next random
    draw. *)
Lemma extractSwapDetails_placeholder (tx : Js.JsVal) (c : Ctx Sandwich.State) :
  Sandwich.decodes_swap tx = false ->
  Sandwich.extractSwapDetails tx c = (Returned None, c)
  \/ Sandwich.extractSwapDetails tx c
     = (Returned (Some (Sandwich.mkSwap
                          (nth_error (Sandwich.targetPairs (Sandwich.config (self c))) 0)
                          (Sandwich.minTargetSwapSize (Sandwich.config (self c))
                           + fst (Math_random (world c)) * 20))),
        mkCtx (self c) (snd (Math_random (world c)))).
Proof.
  intro Hnone. unfold Sandwich.decodes_swap in Hnone.
  unfold Sandwich.extractSwapDetails, try_catch, bind, lift_outcome, ret,
    get_self, in_world.
  destruct (Js.get tx "outMsgs") as [outMsgs|e]; [|left; reflexivity].
  destruct (Sandwich.swap_from_outMsgs outMsgs); [discriminate Hnone|].
  destruct (Js.get tx "data") as [data|e]; [|left; reflexivity].
  destruct (Js.truthy data).
  - destruct (Sandwich.swap_from_data data) as [[d|]|e];
      [discriminate Hnone | right; reflexivity | left; reflexivity].
  - right. reflexivity.
Qed.

(** Without a decoded swap the sandwich strategy emits nothing: the
    placeholder is less than twenty units above the minimum, so its price
    impact stays below the floor. *)
Lemma sandwich_placeholder_rejected (packet : MempoolPacket) (c : Ctx Sandwich.State) :
  Sandwich.decodes_swap (packet_data packet) = false ->
  random_in_range (world c) ->
  exists c',
    Sandwich.analyze packet c = (Returned [], c')
    /\ self c' = self c
    /\ random_at (world c') = random_at (world c).
Proof.
  intros Hnone Hrandom.
  destruct (Js.truthy (packet_data packet)) eqn:Hdata.
  - destruct (extractSwapDetails_placeholder _ c Hnone) as [Hnull|Hplaceholder].
    + exists c. split; [|split; reflexivity].
      apply analyze_without_swap; assumption.
    + eexists. split; [|split].
      * eapply analyze_rejects_low_impact; [exact Hdata | exact Hplaceholder |].
        apply placeholder_impact_low. apply Hrandom.
      * reflexivity.
      * reflexivity.
  - exists c. split; [|split; reflexivity].
    unfold Sandwich.analyze, bind, get_self, try_catch. cbn.
    rewrite Hdata. destruct c; reflexivity.
Qed.

Lemma builtin_contribute_nothing (packet : MempoolPacket)
      (todo : list (string * AnyStrategy)) (w : World) :
  Forall (fun kv => builtin (snd kv)) todo ->
  Arbitrage.extractTransactions packet = [] ->
  Sandwich.decodes_swap (packet_data packet) = false ->
  random_in_range w ->
  flat_map (fun named => contribution (snd named)) (strategyOutcomes packet todo w) = [].
Proof.
  intros Hbuiltin Hnone Hswap. revert w.
  induction Hbuiltin as [|[key strat] rest Hstrat _ IH]; intros w Hrandom;
    [reflexivity|].
  cbn [strategyOutcomes]. cbn [snd] in Hstrat. destruct Hstrat as [s|s].
  - unfold analyzeWith. cbn [impl methods object analyze ArbitrageStrategy].
    rewrite (arbitrage_nothing_to_analyze packet _ Hnone). cbn.
    apply IH. exact Hrandom.
  - unfold analyzeWith. cbn [impl methods object analyze SandwichStrategy].
    destruct (sandwich_placeholder_rejected packet (mkCtx s w) Hswap Hrandom)
      as (c' & -> & _ & Hsame).
    cbn. apply IH. intro k. rewrite Hsame. apply Hrandom.
Qed.

(** A packet from which the packet source extracts nothing gives nothing to
    the strategies' extractor either, which knows one shape less. *)
Lemma nothing_extractable (packet : MempoolPacket) :
  Searcher.extractTransactionsFromPacket packet = [] ->
  Arbitrage.extractTransactions packet = [].
Proof.
  unfold Searcher.extractTransactionsFromPacket, Arbitrage.extractTransactions.
  destruct (packet_transactions packet); [tauto|].
  destruct (Js.truthy (packet_data packet)); [|reflexivity].
  destruct (Js.get (packet_data packet) "transactions") as [[]|]; try tauto;
    destruct (Js.get (packet_data packet) "messages") as [[]|]; try tauto;
    destruct (packet_data packet); tauto.
Qed.

(** C1, as amended: for every packet from which no transactions can be
    extracted and whose payload does not itself decode as a swap (the
    sandwich strategy reads the payload as its one transaction), and for
    every registry of built-in strategies whatever their states and their
    configurations, as long as the thresholds are finite numbers,
    [analyzePacket] returns the empty list, does not throw, adds nothing to
    the aggregate store and emits no notification. *)
Theorem analyzePacket_nothing_to_extract :
  forall (packet : MempoolPacket) (c : Ctx StrategyManager.State),
    Forall (fun kv => builtin (snd kv)) (StrategyManager.strategies (self c)) ->
    Arbitrage.extractTransactions packet = [] ->
    Sandwich.decodes_swap (packet_data packet) = false ->
    random_in_range (world c) ->
    let after := self (snd (StrategyManager.analyzePacket packet c)) in
    fst (StrategyManager.analyzePacket packet c) = Returned []
    /\ StrategyManager.opportunities after = StrategyManager.opportunities (self c)
    /\ StrategyManager.emitted after = StrategyManager.emitted (self c).
Proof.
  intros packet c Hbuiltin Hnone Hswap Hrandom. cbv zeta.
  destruct (Js.truthy (packet_data packet)) eqn:Hdata.
  - destruct (analyzePacket_collects packet c Hdata) as (Hresult & _ & Hquiet).
    assert (Hnothing :
      flat_map (fun named => contribution (snd named))
        (strategyOutcomes packet (StrategyManager.strategies (self c))
           (snd (Date_now (world c)))) = []).
    { apply builtin_contribute_nothing; assumption. }
    rewrite Hnothing in Hresult. split; [exact Hresult|].
    apply Hquiet. exact Hnothing.
  - unfold StrategyManager.analyzePacket. rewrite Hdata. cbn.
    repeat split; reflexivity.
Qed.

Lemma steady_random_in_range : random_in_range Examples.steady.
Proof.
  intro k. split; cbn; [discriminate | reflexivity].
Defined.

Lemma analyzePacket_nothing_to_extract_witness :
  fst (StrategyManager.analyzePacket Examples.unrecognized_packet
         (mkCtx StrategyManager.new Examples.steady))
  = Returned [].
Proof.
  apply (analyzePacket_nothing_to_extract Examples.unrecognized_packet
           (mkCtx StrategyManager.new Examples.steady)).
  - cbn. repeat constructor.
  - reflexivity.
  - reflexivity.
  - exact steady_random_in_range.
Defined.

(** ** Histories and the aggregate store (C9) *)

(** *** A small program logic for the strategies' methods *)

Section HistoryLogic.
Context {St : Type} {B : BaseStrategy St}.

Lemma quiet_ret {A} (a : A) : quiet (ret a).
Proof. intro c. split; reflexivity. Qed.

Lemma quiet_throw {A} (e : Exn) : quiet (@throw _ A e).
Proof. intro c. split; reflexivity. Qed.

Lemma quiet_lift_outcome {A} (o : Outcome A) : quiet (lift_outcome o).
Proof. intro c. split; reflexivity. Qed.

Lemma quiet_get_self : quiet get_self.
Proof. intro c. split; reflexivity. Qed.

Lemma quiet_in_world {A} (f : World -> A * World) : quiet (in_world f).
Proof. intro c. unfold in_world. destruct (f (world c)). split; reflexivity. Qed.

Lemma quiet_bind {A C} (m : M (Ctx St) A) (k : A -> M (Ctx St) C) :
  quiet m -> (forall a, quiet (k a)) -> quiet (bind m k).
Proof.
  intros Hm Hk c. unfold bind. specialize (Hm c).
  destruct (m c) as [[a|e] c1]; cbn in Hm.
  - specialize (Hk a c1). destruct Hm as [Hn Hh], Hk as [Hn' Hh'].
    split; congruence.
  - exact Hm.
Qed.

Lemma quiet_try_catch {A} (m : M (Ctx St) A) (h : Exn -> M (Ctx St) A) :
  quiet m -> (forall e, quiet (h e)) -> quiet (try_catch m h).
Proof.
  intros Hm Hh c. unfold try_catch. specialize (Hm c).
  destruct (m c) as [[a|e] c1]; cbn in Hm.
  - exact Hm.
  - specialize (Hh e c1). destruct Hm as [Hn Ho], Hh as [Hn' Ho'].
    split; congruence.
Qed.

Lemma appends_ret_nil (c : Ctx St) : appends_at (ret []) c.
Proof. repeat split. cbn. rewrite app_nil_r. reflexivity. constructor. Qed.

Lemma appends_bind {A} (m : M (Ctx St) A) (k : A -> M (Ctx St) (list MEVOpportunity))
      (c : Ctx St) :
  quiet m ->
  (forall a c1, getName (self c1) = getName (self c) -> appends_at (k a) c1) ->
  appends_at (bind m k) c.
Proof.
  intros Hm Hk. unfold appends_at, bind. specialize (Hm c).
  destruct (m c) as [[a|e] c1]; cbn in Hm |- *; destruct Hm as [Hn Ho].
  - destruct (Hk a c1 Hn) as (Hn' & Ho' & Hs'). rewrite <- Hn, <- Ho.
    repeat split; assumption.
  - rewrite app_nil_r. repeat split; try assumption. constructor.
Qed.

Lemma appends_bind_get_self (k : St -> M (Ctx St) (list MEVOpportunity)) (c : Ctx St) :
  appends_at (k (self c)) c -> appends_at (bind get_self k) c.
Proof. intro H. exact H. Qed.

Lemma appends_try_catch (m : M (Ctx St) (list MEVOpportunity)) (c : Ctx St) :
  appends_at m c -> appends_at (try_catch m (fun _ => ret [])) c.
Proof.
  unfold appends_at, try_catch. destruct (m c) as [[l|e] c1]; cbn; tauto.
Qed.

End HistoryLogic.

Ltac quiet_step :=
  first
    [ apply quiet_ret | apply quiet_throw | apply quiet_lift_outcome
    | apply quiet_get_self | apply quiet_in_world
    | apply quiet_bind; [|intros ?]
    | apply quiet_try_catch; [|intros ?]
    | progress cbv zeta
    | match goal with
      | |- quiet (match ?x with _ => _ end) => destruct x
      | |- quiet (if ?b then _ else _) => destruct b
      end ].

Ltac quiet_auto := repeat quiet_step.

Ltac appends_step :=
  first
    [ apply appends_ret_nil
    | apply appends_bind; [solve [quiet_auto] | intros ? ? ?]
    | progress cbv zeta
    | match goal with
      | |- appends_at (match ?x with _ => _ end) _ => destruct x
      | |- appends_at (if ?b then _ else _) _ => destruct b
      end ].

Section SandwichHistory.
Import Sandwich.

Lemma extractSwapDetails_quiet (tx : Js.JsVal) : quiet (extractSwapDetails tx).
Proof. unfold extractSwapDetails. quiet_auto. Qed.

Lemma calculateOptimalBackRunAmount_quiet (a b : Q) :
  quiet (calculateOptimalBackRunAmount a b).
Proof. unfold calculateOptimalBackRunAmount. quiet_auto. Qed.

Lemma calculateProfitEstimate_quiet (a b g : Q) :
  quiet (calculateProfitEstimate a b g).
Proof. unfold calculateProfitEstimate. quiet_auto. Qed.

Lemma sandwich_push_appends (o : MEVOpportunity) (c : Ctx State) :
  strategy o = name (self c) ->
  appends_at (bind (update_self (push o)) (fun _ => ret [o])) c.
Proof.
  intro Hname. unfold appends_at. cbn. repeat split.
  constructor; [exact Hname | constructor].
Qed.

Lemma sandwich_analyze_appends (packet : MempoolPacket) (c : Ctx State) :
  appends_at (analyze packet) c.
Proof.
  unfold analyze. apply appends_bind_get_self. cbv zeta.
  apply appends_try_catch.
  destruct (negb (Js.truthy (packet_data packet))); [apply appends_ret_nil|].
  apply appends_bind; [apply extractSwapDetails_quiet|]. intros swap c1 H1.
  destruct swap as [swap|]; [|apply appends_ret_nil].
  repeat (match goal with
          | |- appends_at (if ?b then _ else _) _ =>
              destruct b; [apply appends_ret_nil|]
          end).
  apply appends_bind; [apply calculateOptimalBackRunAmount_quiet|].
  intros backRun c2 H2.
  apply appends_bind; [apply calculateProfitEstimate_quiet|].
  intros profit c3 H3.
  repeat (match goal with
          | |- appends_at (if ?b then _ else _) _ =>
              destruct b; [apply appends_ret_nil|]
          end).
  apply appends_bind; [apply quiet_lift_outcome|]. intros hash c4 H4.
  apply appends_bind; [apply quiet_in_world|]. intros id c5 H5.
  apply sandwich_push_appends. cbn in *. congruence.
Qed.

#[export] Instance SandwichKeepsHistory : HistoryKeeping Sandwich.State.
Proof.
  constructor.
  - intros packet c. apply (sandwich_analyze_appends packet c).
  - intros packet c. apply (sandwich_analyze_appends packet c).
  - intros packet c. apply (sandwich_analyze_appends packet c).
  - reflexivity.
  - reflexivity.
Qed.

End SandwichHistory.

(** *** Loops with a local list of new opportunities *)

Section LocalList.
Context {St : Type} {B : BaseStrategy St}.

Lemma keeps_ret {A} (a : A) : keeps_track (ret a).
Proof. intros n0 h0 sl H. exact H. Qed.

Lemma keeps_bind {A C} (m : M (Ctx St * list MEVOpportunity) A)
      (k : A -> M (Ctx St * list MEVOpportunity) C) :
  keeps_track m -> (forall a, keeps_track (k a)) -> keeps_track (bind m k).
Proof.
  intros Hm Hk n0 h0 sl H. unfold bind. specialize (Hm n0 h0 sl H).
  destruct (m sl) as [[a|e] sl1]; cbn in Hm.
  - apply Hk. exact Hm.
  - exact Hm.
Qed.

Lemma keeps_try_catch {A} (m : M (Ctx St * list MEVOpportunity) A)
      (h : Exn -> M (Ctx St * list MEVOpportunity) A) :
  keeps_track m -> (forall e, keeps_track (h e)) -> keeps_track (try_catch m h).
Proof.
  intros Hm Hh n0 h0 sl H. unfold try_catch. specialize (Hm n0 h0 sl H).
  destruct (m sl) as [[a|e] sl1]; cbn in Hm.
  - exact Hm.
  - apply Hh. exact Hm.
Qed.

Lemma keeps_for_each {A} (l : list A)
      (body : A -> M (Ctx St * list MEVOpportunity) unit) :
  (forall x, keeps_track (body x)) -> keeps_track (for_each l body).
Proof.
  intro Hbody. induction l as [|x l IH]; cbn.
  - apply keeps_ret.
  - apply keeps_bind; [apply Hbody | intros _; exact IH].
Qed.

Lemma keeps_on_object {A} (m : M (Ctx St) A) :
  quiet m -> keeps_track (on_object m).
Proof.
  intros Hm n0 h0 sl (Hn & Ho & Hs). unfold on_object.
  destruct (Hm (fst sl)) as [Hn' Ho'].
  destruct (m (fst sl)) as [o c1]. unfold tracks. cbn in *.
  repeat split; [congruence | congruence | exact Hs].
Qed.

(** A step that appends to the history what it returns, followed by the
    push of its result on the local list. *)
Lemma keeps_collect (m : M (Ctx St) (list MEVOpportunity)) :
  (forall c, appends_at m c) ->
  keeps_track
    (bind (on_object m) (fun found => modify (fun sl => (fst sl, snd sl ++ found)))).
Proof.
  intros Hm n0 h0 sl (Hn & Ho & Hs). unfold bind, on_object, modify.
  destruct (Hm (fst sl)) as (Hn' & Ho' & Hs').
  destruct (m (fst sl)) as [[found|e] c1]; unfold tracks; cbn in *.
  - repeat split.
    + congruence.
    + rewrite Ho', Ho, app_assoc. reflexivity.
    + apply Forall_app. split; [exact Hs|]. rewrite <- Hn. exact Hs'.
  - rewrite app_nil_r in Ho'. repeat split; [congruence | congruence | exact Hs].
Qed.

(** A guarded loop run with an empty local list appends what it returns. *)
Lemma appends_with_local (m : M (Ctx St * list MEVOpportunity) unit) (c : Ctx St) :
  keeps_track m ->
  appends_at (with_local [] (try_catch m (fun _ => ret tt))) c.
Proof.
  intro Hm. unfold appends_at, with_local, try_catch.
  assert (Hstart : tracks (getName (self c)) (getOpportunities (self c)) (c, [])).
  { unfold tracks. cbn. repeat split; [rewrite app_nil_r; reflexivity | constructor]. }
  specialize (Hm _ _ _ Hstart).
  unfold tracks in Hm.
  destruct (m (c, [])) as [[u|e] [c1 l]]; cbn in *; exact Hm.
Qed.

End LocalList.

Section ArbitrageHistory.
Import Arbitrage.

Lemma set_cache_quiet (f : State -> PriceCache.t) :
  quiet (update_self (fun s => set_cache (f s) s)).
Proof. intro c. split; reflexivity. Qed.

Lemma do_updatePriceCache_quiet (d p : string) (q : Q) :
  quiet (do_updatePriceCache d p q).
Proof.
  unfold do_updatePriceCache.
  apply quiet_bind; [apply quiet_in_world|]. intro now.
  apply quiet_bind; [apply quiet_in_world|]. intro now'.
  apply set_cache_quiet.
Qed.

Lemma do_getPriceFromCache_quiet (d p : string) : quiet (do_getPriceFromCache d p).
Proof.
  unfold do_getPriceFromCache.
  apply quiet_bind; [apply quiet_get_self|]. intro this.
  destruct (PriceCache.entry_of (priceCache this) d p); [|apply quiet_ret].
  apply quiet_bind; [apply quiet_in_world|]. intro now.
  destruct (PriceCache.getPriceFromCache now d p (priceCache this)) as [price c].
  apply quiet_bind; [|intros _; apply quiet_ret].
  apply (set_cache_quiet (fun _ => c)).
Qed.

Lemma extractDexInfo_quiet (tx : Js.JsVal) : quiet (extractDexInfo tx).
Proof. unfold extractDexInfo. quiet_auto. Qed.

Lemma arbitrage_push_appends (o : MEVOpportunity) (c : Ctx State) :
  strategy o = name (self c) ->
  appends_at (bind (update_self (push o)) (fun _ => ret [o])) c.
Proof.
  intro Hname. unfold appends_at. cbn. repeat split.
  constructor; [exact Hname | constructor].
Qed.

Lemma checkOtherDex_appends (packet : MempoolPacket) (cfg : ArbitrageConfig)
      (info : DexInfo) (otherDex : string) (c : Ctx State) :
  appends_at (checkOtherDex packet cfg info otherDex) c.
Proof.
  unfold checkOtherDex.
  destruct (String.eqb otherDex (dex info)); [apply appends_ret_nil|].
  apply appends_bind; [apply do_getPriceFromCache_quiet|]. intros otherPrice c1 H1.
  destruct (negb (price_truthy otherPrice)); [apply appends_ret_nil|].
  apply appends_bind; [apply quiet_in_world|]. intros now c2 H2.
  apply appends_bind_get_self.
  destruct otherPrice as [otherPrice|];
    [|unfold appends_at; cbn; rewrite app_nil_r; repeat split; constructor].
  destruct (PriceCache.entry_of _ _ _) as [cached|];
    [|unfold appends_at; cbn; rewrite app_nil_r; repeat split; constructor].
  destruct (_ >? _)%Z.
  { apply appends_bind; [apply quiet_in_world|]. intros _ c3 H3.
    apply appends_ret_nil. }
  destruct (compareWith cfg info otherDex otherPrice) as [[details confidence]|];
    [|apply appends_ret_nil].
  apply appends_bind; [apply quiet_in_world|]. intros id c3 H3.
  apply arbitrage_push_appends. cbn in *. congruence.
Qed.

Lemma arbitrage_analyze_appends (packet : MempoolPacket) (c : Ctx State) :
  appends_at (analyze packet) c.
Proof.
  unfold analyze. apply appends_bind_get_self.
  destruct (negb (enabled (config (self c)))); [apply appends_ret_nil|].
  cbv zeta.
  apply appends_bind.
  { destruct (extractTransactions packet); quiet_auto. }
  intros _ c1 H1.
  apply appends_with_local.
  apply keeps_for_each. intro tx.
  apply keeps_bind; [apply keeps_on_object; apply quiet_lift_outcome|]. intro isDex.
  destruct (negb isDex); [apply keeps_ret|].
  apply keeps_bind; [apply keeps_on_object; apply quiet_lift_outcome|]. intros _.
  apply keeps_bind; [apply keeps_on_object; apply extractDexInfo_quiet|]. intro info.
  destruct info as [info|]; [|apply keeps_ret].
  apply keeps_bind; [apply keeps_on_object; apply quiet_lift_outcome|]. intros _.
  apply keeps_bind; [apply keeps_on_object; apply do_updatePriceCache_quiet|]. intros _.
  apply keeps_for_each. intro otherDex.
  apply keeps_collect. intro c'. apply checkOtherDex_appends.
Qed.

#[export] Instance ArbitrageKeepsHistory : HistoryKeeping Arbitrage.State.
Proof.
  constructor.
  - intros packet c. apply (arbitrage_analyze_appends packet c).
  - intros packet c. apply (arbitrage_analyze_appends packet c).
  - intros packet c. apply (arbitrage_analyze_appends packet c).
  - reflexivity.
  - reflexivity.
Qed.

End ArbitrageHistory.

(** *** The manager's store against the strategies' histories *)

Section StoreAndHistories.
Import StrategyManager.

Lemma filter_signed_same (n : string) (l : list MEVOpportunity) :
  Forall (fun opp => strategy opp = n) l ->
  filter (fun opp => String.eqb (strategy opp) n) l = l.
Proof.
  induction 1 as [|o l Ho _ IH]; cbn; [reflexivity|].
  rewrite Ho, String.eqb_refl, IH. reflexivity.
Qed.

Lemma filter_signed_other (n n1 : string) (l : list MEVOpportunity) :
  Forall (fun opp => strategy opp = n1) l -> n <> n1 ->
  filter (fun opp => String.eqb (strategy opp) n) l = [].
Proof.
  intros Hall Hne. induction Hall as [|o l Ho _ IH]; cbn; [reflexivity|].
  rewrite Ho. destruct (String.eqb_spec n1 n) as [->|_]; [contradiction Hne; reflexivity|].
  exact IH.
Qed.

Lemma analyzeWith_keeps (packet : MempoolPacket) (strat : AnyStrategy) (w : World) :
  keepsHistory strat ->
  let '(outcome, strat1, _) := analyzeWith packet strat w in
  nameOf strat1 = nameOf strat
  /\ keepsHistory strat1
  /\ historyOf strat1 = historyOf strat ++ contribution outcome
  /\ Forall (fun opp => strategy opp = nameOf strat) (contribution outcome).
Proof.
  intro Hkeeps. unfold analyzeWith, nameOf, historyOf, keepsHistory in *.
  destruct strat as [St B s]. cbn in *.
  pose proof (analyze_keeps_name packet (mkCtx s w)) as Hname.
  pose proof (analyze_appends packet (mkCtx s w)) as Happ.
  pose proof (analyze_signs packet (mkCtx s w)) as Hsign.
  destruct (analyze packet (mkCtx s w)) as [outcome c1]. cbn in *.
  split; [|split; [|split]]; assumption.
Qed.

Lemma runStrategies_step_store (packet : MempoolPacket)
      (key : string) (strat : AnyStrategy) (rest : list (string * AnyStrategy))
      (f : Fanout) :
  exists f1,
    runStrategies packet ((key, strat) :: rest) f
    = ((key, snd (fst (analyzeWith packet strat (env f))))
         :: fst (runStrategies packet rest f1),
       snd (runStrategies packet rest f1))
    /\ store f1 = store f ++ contribution (fst (fst (analyzeWith packet strat (env f)))).
Proof.
  cbn [runStrategies].
  destruct (analyzeWith packet strat (env f)) as [[outcome strat1] w1]. cbn [fst snd].
  match goal with
  | |- context [runStrategies packet rest ?f1] => exists f1
  end.
  split.
  - destruct (runStrategies packet rest _) as [rest1 f2]. reflexivity.
  - destruct outcome as [[|o l]|e]; cbn; rewrite ?app_nil_r; reflexivity.
Qed.

Lemma runStrategies_agree (packet : MempoolPacket) (todo : list (string * AnyStrategy)) :
  forall f,
    sound_registry todo ->
    Forall (agrees (store f)) todo ->
    sound_registry (fst (runStrategies packet todo f))
    /\ map fst (fst (runStrategies packet todo f)) = map fst todo
    /\ Forall (agrees (store (snd (runStrategies packet todo f))))
              (fst (runStrategies packet todo f))
    /\ (forall n, ~ In n (map fst todo) ->
          filter (fun opp => String.eqb (strategy opp) n)
                 (store (snd (runStrategies packet todo f)))
          = filter (fun opp => String.eqb (strategy opp) n) (store f)).
Proof.
  induction todo as [|[key strat] rest IH]; intros f Hsound Hagree.
  - cbn. repeat split; try assumption; constructor.
  - destruct Hsound as [Hnodup Hall]. cbn [map fst] in Hnodup.
    apply NoDup_cons_iff in Hnodup. destruct Hnodup as [Hfresh Hnodup].
    inversion Hall as [|? ? [Hkey Hkeeps] Hall']; subst. cbn [fst snd] in *.
    inversion Hagree as [|? ? Hhead Hagree']; subst.
    destruct (runStrategies_step_store packet (nameOf strat) strat rest f)
      as (f1 & -> & Hstore1).
    pose proof (analyzeWith_keeps packet strat (env f) Hkeeps) as Hstep.
    destruct (analyzeWith packet strat (env f)) as [[outcome strat1] w1].
    cbn [fst snd] in *. destruct Hstep as (Hname1 & Hkeeps1 & Hhist1 & Hsigned1).
    assert (Hrest_agree : Forall (agrees (store f1)) rest).
    { rewrite Forall_forall in Hagree', Hall' |- *. intros kv Hkv.
      unfold agrees. rewrite Hstore1, filter_app.
      rewrite (filter_signed_other _ _ _ Hsigned1), app_nil_r; [apply Hagree'; exact Hkv|].
      intro Heq. apply Hfresh. destruct (Hall' kv Hkv) as [Hk _].
      rewrite <- Heq, <- Hk. apply in_map. exact Hkv. }
    destruct (IH f1 (conj Hnodup Hall') Hrest_agree)
      as ((Hnodup2 & Hall2) & Hkeys2 & Hagree2 & Hother2).
    repeat split.
    + cbn [map fst]. rewrite Hkeys2. constructor; assumption.
    + constructor; [|exact Hall2]. cbn [fst snd]. split; [congruence | exact Hkeeps1].
    + cbn [map fst]. rewrite Hkeys2. reflexivity.
    + constructor; [|exact Hagree2]. unfold agrees in *. cbn [snd] in *.
      rewrite Hname1, (Hother2 _ Hfresh), Hstore1, filter_app, Hhist1.
      rewrite (filter_signed_same _ _ Hsigned1).
      apply Permutation_app_tail. exact Hhead.
    + intros n Hn. cbn [map fst] in Hn.
      rewrite Hother2 by (intro Hin; apply Hn; right; exact Hin).
      rewrite Hstore1, filter_app.
      rewrite (filter_signed_other _ _ _ Hsigned1), app_nil_r; [reflexivity|].
      intro Heq. apply Hn. left. congruence.
Qed.

End StoreAndHistories.

Section Reachable.
Import StrategyManager ManagerTrace.

Lemma Permutation_filter_compat {A : Type} (p : A -> bool) (l l' : list A) :
  Permutation l l' -> Permutation (filter p l) (filter p l').
Proof.
  induction 1 as [|x l l' _ IH|x y l|l l' l'' _ IH1 _ IH2]; cbn.
  - apply perm_nil.
  - destruct (p x); [apply perm_skip|]; exact IH.
  - destruct (p x), (p y); try apply Permutation_refl. apply perm_swap.
  - eapply perm_trans; eassumption.
Qed.

Lemma agrees_sorted (st : list MEVOpportunity) (kv : string * AnyStrategy) :
  agrees st kv -> agrees (sort_by_profit st) kv.
Proof.
  unfold agrees. intro H. eapply perm_trans; [|exact H].
  apply Permutation_filter_compat. apply sort_by_profit_perm.
Qed.

Lemma emitUpdated_in_step (m : State) : in_step m -> in_step (emitUpdated m).
Proof.
  intros [Hsound Hagree]. unfold emitUpdated, getOpportunities. cbn.
  match goal with
  | |- context [if ?b then _ else _] => destruct b
  end; cbn; (split; [exact Hsound|]);
    (eapply Forall_impl; [|exact Hagree]); intros kv; apply agrees_sorted.
Qed.

Lemma analyzePacket_in_step (packet : MempoolPacket) (c : Ctx State) :
  in_step (self c) -> in_step (self (snd (analyzePacket packet c))).
Proof.
  intros [Hsound Hagree]. unfold analyzePacket.
  destruct (negb (Js.truthy (packet_data packet))); [split; assumption|].
  destruct (Date_now (world c)) as [startTime w1].
  pose proof (runStrategies_agree packet (strategies (self c))
                (mkFanout [] (opportunities (self c)) (logged (self c)) w1)
                Hsound Hagree) as (Hsound1 & _ & Hagree1 & _).
  destruct (runStrategies packet _ _) as [strategies1 f]. cbn [fst snd] in *.
  destruct (Date_now (env f)) as [endTime w2].
  destruct (newOpportunities f); cbn [snd self].
  - split; assumption.
  - apply emitUpdated_in_step. split; assumption.
Qed.

Lemma filter_filter_other (n f : string) (l : list MEVOpportunity) :
  n <> f ->
  filter (fun opp => String.eqb (strategy opp) n)
         (filter (fun opp => negb (String.eqb (strategy opp) f)) l)
  = filter (fun opp => String.eqb (strategy opp) n) l.
Proof.
  intro Hne. induction l as [|o l IH]; cbn; [reflexivity|].
  destruct (String.eqb_spec (strategy o) f) as [Hf|Hf]; cbn.
  - destruct (String.eqb_spec (strategy o) n) as [Hn|Hn]; [congruence | exact IH].
  - rewrite IH. reflexivity.
Qed.

Lemma filter_filter_same (f : string) (l : list MEVOpportunity) :
  filter (fun opp => String.eqb (strategy opp) f)
         (filter (fun opp => negb (String.eqb (strategy opp) f)) l)
  = [].
Proof.
  induction l as [|o l IH]; cbn; [reflexivity|].
  destruct (String.eqb (strategy o) f) eqn:E; cbn; [exact IH|].
  rewrite E. exact IH.
Qed.

Lemma emitUpdated_store (m : State) :
  strategies (emitUpdated m) = strategies m
  /\ opportunities (emitUpdated m) = sort_by_profit (opportunities m).
Proof.
  unfold emitUpdated, getOpportunities. cbn.
  match goal with
  | |- context [if ?b then _ else _] => destruct b
  end; cbn; split; reflexivity.
Qed.

Lemma clearWith_keeps (strat : AnyStrategy) :
  keepsHistory strat ->
  nameOf (clearWith strat) = nameOf strat
  /\ historyOf (clearWith strat) = []
  /\ keepsHistory (clearWith strat).
Proof.
  intro Hkeeps. destruct strat as [St B s].
  unfold keepsHistory, nameOf, historyOf, clearWith in *. cbn in *.
  split; [apply clear_keeps_name|]. split; [apply clear_empties | exact Hkeeps].
Qed.

(** The two clears for the strategy [f], one after the other. *)
Lemma paired_clear_in_step (f : string) (m : State) :
  f <> "" ->
  in_step m ->
  in_step (clearStrategy f (clearOpportunities (Some f) m)).
Proof.
  intros Hf [[Hnodup Hall] Hagree].
  assert (Hgiven : given (Some f) = Some f).
  { cbn. destruct (String.eqb_spec f ""); [contradiction | reflexivity]. }
  unfold clearOpportunities. rewrite Hgiven.
  set (m1 := write_log _ _).
  destruct (emitUpdated_store m1) as [Hstrategies Hstore].
  unfold in_step, clearStrategy. cbn [strategies opportunities].
  rewrite Hstrategies, Hstore. subst m1. cbn [write_log strategies opportunities].
  split; [split|].
  - rewrite map_map.
    erewrite map_ext; [exact Hnodup|]. intros [key strat]. cbn.
    destruct (String.eqb key f); reflexivity.
  - rewrite Forall_forall in Hall |- *. intros kv' Hkv'.
    apply in_map_iff in Hkv'. destruct Hkv' as ([key strat] & <- & Hkv).
    destruct (Hall _ Hkv) as [Hkey Hkeeps]. cbn [fst snd] in *.
    destruct (String.eqb key f); cbn [fst snd]; [|split; assumption].
    destruct (clearWith_keeps strat Hkeeps) as (Hname & _ & Hkeeps').
    split; [congruence | exact Hkeeps'].
  - rewrite Forall_forall in Hall, Hagree |- *. intros kv' Hkv'.
    apply in_map_iff in Hkv'. destruct Hkv' as ([key strat] & <- & Hkv).
    destruct (Hall _ Hkv) as [Hkey Hkeeps]. specialize (Hagree _ Hkv).
    unfold agrees in *. cbn [fst snd] in *.
    destruct (String.eqb_spec key f) as [Heq|Hne]; cbn [fst snd].
    + destruct (clearWith_keeps strat Hkeeps) as (Hname & Hempty & _).
      rewrite Hname, Hempty, <- Hkey, Heq.
      eapply perm_trans;
        [apply Permutation_filter_compat; apply sort_by_profit_perm|].
      rewrite filter_filter_same. apply perm_nil.
    + eapply perm_trans;
        [apply Permutation_filter_compat; apply sort_by_profit_perm|].
      rewrite filter_filter_other by congruence. exact Hagree.
Qed.

Lemma run_in_step (n : nat) :
  forall (ops : list Op) (c : Ctx State),
    (List.length ops <= n)%nat ->
    clears_paired ops = true ->
    in_step (self c) ->
    in_step (self (run ops c)).
Proof.
  induction n as [|n IH]; intros ops c Hlen Hpaired Hstep.
  - destruct ops; [exact Hstep | cbn in Hlen; lia].
  - destruct ops as [|op ops]; [exact Hstep|].
    destruct op as [packet | [f|] | name]; cbn in Hpaired; try discriminate.
    + cbn. apply IH; [cbn in Hlen; lia | exact Hpaired |].
      apply analyzePacket_in_step. exact Hstep.
    + destruct ops as [|[packet' | f' | name] ops]; try discriminate.
      apply andb_true_iff in Hpaired. destruct Hpaired as [Hpaired Hrest].
      apply andb_true_iff in Hpaired. destruct Hpaired as [Hnonempty Hsame].
      apply String.eqb_eq in Hsame. subst name.
      cbn. apply IH; [cbn in Hlen; lia | exact Hrest |]. cbn.
      apply paired_clear_in_step; [|exact Hstep].
      intro Hempty. subst f. discriminate Hnonempty.
Qed.

End Reachable.

(** C9, as amended: at every state reachable from a state in which they
    agree (a new manager, for one) by any sequence of [analyzePacket]
    operations and of clears applied to both stores of a strategy together
    (the manager's [clearOpportunities(name)] followed by the strategy's own
    [clearOpportunities()]), the aggregate store restricted to a registered
    strategy's name holds exactly the opportunities of that strategy's
    history, up to the order in which the store is kept. *)
Theorem store_agrees_with_histories :
  forall (ops : list ManagerTrace.Op) (c : Ctx StrategyManager.State),
    sound_registry (StrategyManager.strategies (self c)) ->
    (forall key strat,
        In (key, strat) (StrategyManager.strategies (self c)) ->
        Permutation (ManagerTrace.restricted (nameOf strat) (self c)) (historyOf strat)) ->
    ManagerTrace.clears_paired ops = true ->
    let final := self (ManagerTrace.run ops c) in
    forall key strat,
      In (key, strat) (StrategyManager.strategies final) ->
      Permutation (ManagerTrace.restricted (nameOf strat) final) (historyOf strat).
Proof.
  intros ops c Hsound Hagree Hpaired final key strat Hin.
  assert (Hstart : in_step (self c)).
  { split; [exact Hsound|]. apply Forall_forall. intros [k s] Hks.
    apply (Hagree k s Hks). }
  pose proof (run_in_step (List.length ops) ops c (le_n _) Hpaired Hstart)
    as [_ Hfinal].
  rewrite Forall_forall in Hfinal. apply (Hfinal (key, strat) Hin).
Qed.

Lemma new_manager_sound :
  sound_registry (StrategyManager.strategies StrategyManager.new).
Proof.
  split.
  - cbn. repeat constructor; cbn; intuition discriminate.
  - cbn. constructor; [|constructor; [|constructor]]; cbn; split;
      first [reflexivity | exact ArbitrageKeepsHistory | exact SandwichKeepsHistory].
Defined.

Lemma store_agrees_with_histories_witness :
  let final :=
    self (ManagerTrace.run Examples.paired_history
            (mkCtx StrategyManager.new Examples.steady)) in
  Forall (fun kv => Permutation (ManagerTrace.restricted (nameOf (snd kv)) final)
                                (historyOf (snd kv)))
         (StrategyManager.strategies final).
Proof.
  cbv zeta. apply Forall_forall. intros [key strat] Hin.
  apply (store_agrees_with_histories Examples.paired_history
           (mkCtx StrategyManager.new Examples.steady)
           new_manager_sound) with (key := key).
  - intros k s [Hks|[Hks|[]]]; injection Hks as <- <-; apply perm_nil.
  - reflexivity.
  - exact Hin.
Defined.

(** C9, as stated, fails: after one packet analysed and the manager's
    [clearOpportunities('sandwich')], the store holds no sandwich
    opportunity while the sandwich strategy's history still holds one. *)
Lemma store_agrees_with_histories_counterexample :
  let final :=
    self (ManagerTrace.run Examples.unpaired_history
            (mkCtx StrategyManager.new Examples.steady)) in
  ~ (forall key strat,
        In (key, strat) (StrategyManager.strategies final) ->
        Permutation (ManagerTrace.restricted (nameOf strat) final) (historyOf strat)).
Proof.
  cbv zeta. intro H.
  set (final := self (ManagerTrace.run Examples.unpaired_history
                        (mkCtx StrategyManager.new Examples.steady))) in *.
  set (entry := nth 1 (StrategyManager.strategies final)
                    ("", Pack (Sandwich.new Sandwich.defaultConfig))).
  assert (Hin : In (fst entry, snd entry) (StrategyManager.strategies final)).
  { rewrite <- surjective_pairing. apply nth_In. vm_compute. lia. }
  apply H in Hin. apply Permutation_length in Hin.
  vm_compute in Hin. discriminate Hin.
Qed.

(** ** The price cache (C3) *)

(** *** Objects as association lists *)

Section ObjectFacts.
Import PriceCache.
Context {V : Type}.
Implicit Types (o : list (string * V)) (k : string) (v : V).

Lemma obj_get_set_same k v o : obj_get k (obj_set k v o) = Some v.
Proof.
  induction o as [|[k' v'] o IH]; cbn.
  - rewrite String.eqb_refl. reflexivity.
  - destruct (String.eqb k k') eqn:E; cbn; rewrite E; [reflexivity | exact IH].
Qed.

Lemma obj_get_set_other k k' v o :
  k <> k' -> obj_get k (obj_set k' v o) = obj_get k o.
Proof.
  intro Hne. induction o as [|[k2 v2] o IH]; cbn.
  - destruct (String.eqb_spec k k'); [contradiction | reflexivity].
  - destruct (String.eqb_spec k' k2) as [->|Hk2]; cbn.
    + destruct (String.eqb_spec k k2); [contradiction | reflexivity].
    + rewrite IH. reflexivity.
Qed.

Lemma obj_set_set k v v' o : obj_set k v (obj_set k v' o) = obj_set k v o.
Proof.
  induction o as [|[k2 v2] o IH]; cbn.
  - rewrite String.eqb_refl. reflexivity.
  - destruct (String.eqb k k2) eqn:E; cbn; rewrite E; [reflexivity|].
    rewrite IH. reflexivity.
Qed.

Lemma obj_get_delete_other k k' o :
  k <> k' -> obj_get k (obj_delete k' o) = obj_get k o.
Proof.
  intro Hne. induction o as [|[k2 v2] o IH]; cbn; [reflexivity|].
  destruct (String.eqb_spec k' k2) as [->|Hk2]; cbn.
  - destruct (String.eqb_spec k k2); [contradiction | reflexivity].
  - rewrite IH. reflexivity.
Qed.

Lemma obj_get_In k v o : obj_get k o = Some v -> In (k, v) o.
Proof.
  induction o as [|[k' v'] o IH]; cbn; [discriminate|].
  destruct (String.eqb_spec k k') as [->|_].
  - intro H. injection H as ->. left. reflexivity.
  - intro H. right. apply IH. exact H.
Qed.

Lemma In_obj_get k v o : NoDup (map fst o) -> In (k, v) o -> obj_get k o = Some v.
Proof.
  induction o as [|[k' v'] o IH]; cbn; intros Hnodup Hin; [contradiction|].
  apply NoDup_cons_iff in Hnodup. destruct Hnodup as [Hfresh Hnodup].
  destruct Hin as [Heq|Hin].
  - injection Heq as -> ->. rewrite String.eqb_refl. reflexivity.
  - destruct (String.eqb_spec k k') as [->|_]; [|apply IH; assumption].
    exfalso. apply Hfresh. apply (in_map fst) in Hin. exact Hin.
Qed.

Lemma keys_obj_set k v o :
  map fst (obj_set k v o) = map fst o
  \/ (~ In k (map fst o) /\ map fst (obj_set k v o) = map fst o ++ [k]).
Proof.
  induction o as [|[k' v'] o IH]; cbn.
  - right. split; [tauto | reflexivity].
  - destruct (String.eqb_spec k k') as [->|Hne]; cbn; [left; reflexivity|].
    destruct IH as [->|[Hfresh ->]]; [left; reflexivity|].
    right. split; [|reflexivity]. intros [Heq|Hin]; [congruence | contradiction].
Qed.

Lemma NoDup_obj_set k v o : NoDup (map fst o) -> NoDup (map fst (obj_set k v o)).
Proof.
  intro Hnodup. destruct (keys_obj_set k v o) as [->|[Hfresh ->]]; [exact Hnodup|].
  apply NoDup_app; [exact Hnodup | repeat constructor; cbn; tauto |].
  intros x Hx [<-|[]]. contradiction.
Qed.

Lemma incl_keys_obj_set k v o : incl (map fst (obj_set k v o)) (k :: map fst o).
Proof.
  destruct (keys_obj_set k v o) as [->|[_ ->]].
  - apply incl_tl. apply incl_refl.
  - intros x Hx. apply in_app_or in Hx. destruct Hx as [Hx|[<-|[]]];
      [right; exact Hx | left; reflexivity].
Qed.

Lemma In_obj_delete k o (x : string * V) : In x (obj_delete k o) -> In x o.
Proof.
  induction o as [|[k' v'] o IH]; cbn; [tauto|].
  destruct (String.eqb k k'); cbn; [tauto|]. intros [->|Hx]; [tauto | right; auto].
Qed.

Lemma NoDup_obj_delete k o : NoDup (map fst o) -> NoDup (map fst (obj_delete k o)).
Proof.
  induction o as [|[k' v'] o IH]; cbn; intro Hnodup; [constructor|].
  apply NoDup_cons_iff in Hnodup. destruct Hnodup as [Hfresh Hnodup].
  destruct (String.eqb k k'); cbn; [exact Hnodup|].
  constructor; [|apply IH; exact Hnodup].
  intro Hin. apply Hfresh. apply in_map_iff in Hin.
  destruct Hin as (x & Hx & Hin). apply In_obj_delete in Hin.
  rewrite <- Hx. apply in_map. exact Hin.
Qed.

Lemma NoDup_keys_filter (p : string * V -> bool) o :
  NoDup (map fst o) -> NoDup (map fst (filter p o)).
Proof.
  induction o as [|[k' v'] o IH]; cbn; intro Hnodup; [constructor|].
  apply NoDup_cons_iff in Hnodup. destruct Hnodup as [Hfresh Hnodup].
  destruct (p (k', v')); cbn; [|apply IH; exact Hnodup].
  constructor; [|apply IH; exact Hnodup].
  intro Hin. apply Hfresh. apply in_map_iff in Hin.
  destruct Hin as (x & Hx & Hin). apply filter_In in Hin.
  rewrite <- Hx. apply in_map. tauto.
Qed.

Lemma obj_get_filter_kept (p : string * V -> bool) k v o :
  obj_get k o = Some v -> p (k, v) = true -> obj_get k (filter p o) = Some v.
Proof.
  induction o as [|[k' v'] o IH]; cbn; [discriminate|].
  destruct (String.eqb_spec k k') as [->|Hne]; intros Hget Hkeep.
  - injection Hget as ->. rewrite Hkeep. cbn. rewrite String.eqb_refl. reflexivity.
  - destruct (p (k', v')); cbn; [|apply IH; assumption].
    destruct (String.eqb_spec k k'); [contradiction | apply IH; assumption].
Qed.

Lemma obj_get_map_values (g : V -> V) k o :
  obj_get k (map (fun kv => (fst kv, g (snd kv))) o) = option_map g (obj_get k o).
Proof.
  induction o as [|[k' v'] o IH]; cbn; [reflexivity|].
  destruct (String.eqb k k'); [reflexivity | exact IH].
Qed.

End ObjectFacts.

(** *** One venue's object under the cache operations *)

Section VenueFacts.
Import PriceCache CacheTrace.

Lemma In_fold_delete (victims : Pairs) :
  forall (o : Pairs) x,
    In x (fold_left (fun o kv => obj_delete (fst kv) o) victims o) -> In x o.
Proof.
  induction victims as [|y victims IH]; cbn; intros o x Hx; [exact Hx|].
  apply IH in Hx. eapply In_obj_delete. exact Hx.
Qed.

Lemma NoDup_fold_delete (victims : Pairs) :
  forall o : Pairs,
    NoDup (map fst o) ->
    NoDup (map fst (fold_left (fun o kv => obj_delete (fst kv) o) victims o)).
Proof.
  induction victims as [|y victims IH]; cbn; intros o Hnodup; [exact Hnodup|].
  apply IH. apply NoDup_obj_delete. exact Hnodup.
Qed.

Lemma evict_oldest_within_capacity (ps : Pairs) :
  (List.length ps <= MAX_CACHE_SIZE)%nat -> evict_oldest ps = ps.
Proof.
  intro Hlen. unfold evict_oldest.
  destruct (Nat.ltb_spec MAX_CACHE_SIZE (List.length ps)); [lia | reflexivity].
Qed.

Lemma In_evict_oldest (ps : Pairs) x : In x (evict_oldest ps) -> In x ps.
Proof.
  unfold evict_oldest. destruct (_ <? _)%nat; [apply In_fold_delete | tauto].
Qed.

Lemma NoDup_evict_oldest (ps : Pairs) :
  NoDup (map fst ps) -> NoDup (map fst (evict_oldest ps)).
Proof.
  unfold evict_oldest. destruct (_ <? _)%nat; [apply NoDup_fold_delete | tauto].
Qed.

Lemma In_cleaned now ps x : In x (cleaned now ps) -> In x ps.
Proof.
  unfold cleaned, drop_expired. intro Hx. apply In_evict_oldest in Hx.
  apply filter_In in Hx. tauto.
Qed.

Lemma NoDup_cleaned now ps : NoDup (map fst ps) -> NoDup (map fst (cleaned now ps)).
Proof.
  intro H. unfold cleaned, drop_expired.
  apply NoDup_evict_oldest. apply NoDup_keys_filter. exact H.
Qed.

Lemma pairs_of_cleanup now dex c :
  pairs_of dex (cleanupPriceCache now c) = cleaned now (pairs_of dex c).
Proof.
  unfold pairs_of, cleanupPriceCache.
  rewrite (obj_get_map_values (fun ps => evict_oldest (drop_expired now ps))).
  destruct (obj_get dex c); reflexivity.
Qed.

Lemma pairs_of_update_same now now' dex tokenPair p c :
  pairs_of dex (updatePriceCache now now' dex tokenPair p c)
  = cleaned now' (obj_set tokenPair (mkEntry p now) (pairs_of dex c)).
Proof.
  unfold updatePriceCache. rewrite pairs_of_cleanup. f_equal.
  unfold pairs_of. rewrite obj_get_set_same.
  destruct (obj_get dex c) as [ps|] eqn:E; [rewrite E; reflexivity|].
  rewrite obj_get_set_same. reflexivity.
Qed.

Lemma pairs_of_update_other now now' dex dex' tokenPair p c :
  dex <> dex' ->
  pairs_of dex (updatePriceCache now now' dex' tokenPair p c)
  = cleaned now' (pairs_of dex c).
Proof.
  intro Hne. unfold updatePriceCache. rewrite pairs_of_cleanup. f_equal.
  unfold pairs_of. rewrite obj_get_set_other by exact Hne.
  destruct (obj_get dex' c); [reflexivity|].
  rewrite obj_get_set_other by exact Hne. reflexivity.
Qed.

Lemma pairs_of_lookup now dex dex' tokenPair c :
  pairs_of dex (snd (getPriceFromCache now dex' tokenPair c)) = pairs_of dex c
  \/ (dex' = dex
      /\ (exists e, obj_get tokenPair (pairs_of dex c) = Some e /\ expired now e = true)
      /\ pairs_of dex (snd (getPriceFromCache now dex' tokenPair c))
         = obj_delete tokenPair (pairs_of dex c)).
Proof.
  unfold getPriceFromCache, entry_of.
  destruct (obj_get dex' c) as [ps|] eqn:Hvenue; [|left; reflexivity].
  destruct (obj_get tokenPair ps) as [e|] eqn:Hentry; [|left; reflexivity].
  destruct (expired now e) eqn:Hexpired; [|left; reflexivity]. cbn [snd].
  destruct (String.eqb_spec dex dex') as [<-|Hne].
  - right. split; [reflexivity|]. unfold pairs_of. rewrite Hvenue, obj_get_set_same.
    split; [exists e; split; assumption | reflexivity].
  - left. unfold pairs_of. rewrite obj_get_set_other by exact Hne. reflexivity.
Qed.

Lemma read_pairs_of now dex tokenPair c :
  fst (getPriceFromCache now dex tokenPair c)
  = match obj_get tokenPair (pairs_of dex c) with
    | Some e => if expired now e then None else Some (price e)
    | None => None
    end.
Proof.
  unfold getPriceFromCache, entry_of, pairs_of.
  destruct (obj_get dex c) as [ps|]; [|reflexivity].
  destruct (obj_get tokenPair ps) as [e|]; [|reflexivity].
  destruct (expired now e); reflexivity.
Qed.

Lemma pairs_of_well_formed dex c : well_formed c -> NoDup (map fst (pairs_of dex c)).
Proof.
  intros [_ Hall]. unfold pairs_of.
  destruct (obj_get dex c) as [ps|] eqn:E; [|constructor].
  apply obj_get_In in E. rewrite Forall_forall in Hall. apply (Hall _ E).
Qed.

End VenueFacts.

(** *** A written price along a history of operations *)

Section WrittenPrice.
Import PriceCache CacheTrace.
Variables (dex tokenPair : string) (p : Q) (T : Z).

Local Abbreviation at_most_written := (CacheTrace.at_most_written tokenPair p T).
Local Abbreviation still_written := (CacheTrace.still_written tokenPair p T).

Lemma at_most_written_sub (ps ps' : Pairs) :
  at_most_written ps ->
  (forall x, In x ps' -> In x ps) ->
  NoDup (map fst ps') ->
  at_most_written ps'.
Proof.
  intros [Hnodup Hmost] Hsub Hnodup'. split; [exact Hnodup'|].
  intros e He. apply Hmost. apply In_obj_get; [exact Hnodup|].
  apply Hsub. apply obj_get_In. exact He.
Qed.

Lemma at_most_written_step (c : PriceCache.t) (op : Op) :
  writes dex tokenPair op = false ->
  at_most_written (pairs_of dex c) ->
  at_most_written (pairs_of dex (step c op)).
Proof.
  intros Hother Hmost. destruct op as [now now' dex' pair' q | now dex' pair']; cbn.
  - destruct (String.eqb_spec dex dex') as [<-|Hne].
    + rewrite pairs_of_update_same.
      assert (Hpair : tokenPair <> pair').
      { intros <-. cbn in Hother. rewrite !String.eqb_refl in Hother. discriminate. }
      assert (Hset : at_most_written (obj_set pair' (mkEntry q now) (pairs_of dex c))).
      { destruct Hmost as [Hnodup Hmost]. split; [apply NoDup_obj_set; exact Hnodup|].
        intros e He. rewrite obj_get_set_other in He by exact Hpair. auto. }
      eapply at_most_written_sub; [exact Hset | intro x; apply In_cleaned |].
      apply NoDup_cleaned. apply Hset.
    + rewrite pairs_of_update_other by exact Hne.
      eapply at_most_written_sub; [exact Hmost | intro x; apply In_cleaned |].
      apply NoDup_cleaned. apply Hmost.
  - destruct (pairs_of_lookup now dex dex' pair' c) as [->|(_ & _ & ->)];
      [exact Hmost|].
    eapply at_most_written_sub; [exact Hmost | intro x; apply In_obj_delete |].
    apply NoDup_obj_delete. apply Hmost.
Qed.

Lemma at_most_written_run (ops : list Op) :
  forall c,
    forallb (fun op => negb (writes dex tokenPair op)) ops = true ->
    at_most_written (pairs_of dex c) ->
    at_most_written (pairs_of dex (run ops c)).
Proof.
  induction ops as [|op ops IH]; intros c Hops Hmost; [exact Hmost|].
  cbn in Hops. apply andb_true_iff in Hops. destruct Hops as [Hop Hops].
  cbn. apply IH; [exact Hops|].
  apply at_most_written_step; [|exact Hmost].
  apply negb_true_iff. exact Hop.
Qed.

Variables (t : Z) (seen : list string).
Hypothesis fresh_at_t : (t - T <= PRICE_CACHE_TTL)%Z.
Hypothesis seen_fits : (List.length seen <= MAX_CACHE_SIZE)%nat.

Lemma still_written_cleaned (now : Z) (ps : Pairs) :
  (now <= t)%Z -> still_written seen ps -> still_written seen (cleaned now ps).
Proof.
  intros Hnow (Hnodup & Hincl & Hget).
  assert (Hfilter : still_written seen (drop_expired now ps)).
  { unfold drop_expired. split; [apply NoDup_keys_filter; exact Hnodup|]. split.
    - intros k Hk. apply Hincl. apply in_map_iff in Hk.
      destruct Hk as (x & <- & Hx). apply filter_In in Hx. apply in_map. tauto.
    - apply obj_get_filter_kept; [exact Hget|]. cbn. unfold expired. cbn.
      apply negb_true_iff. rewrite Z.gtb_ltb. apply Z.ltb_ge. lia. }
  unfold cleaned. rewrite evict_oldest_within_capacity; [exact Hfilter|].
  destruct Hfilter as (Hnodup' & Hincl' & _).
  pose proof (NoDup_incl_length Hnodup' Hincl') as Hlen.
  rewrite length_map in Hlen. lia.
Qed.

Lemma still_written_step (c : PriceCache.t) (op : Op) :
  writes dex tokenPair op = false ->
  before t op = true ->
  incl (written_pairs dex [op]) seen ->
  still_written seen (pairs_of dex c) ->
  still_written seen (pairs_of dex (step c op)).
Proof.
  intros Hother Hbefore Hseen Hstill.
  destruct op as [now now' dex' pair' q | now dex' pair']; cbn in Hbefore |- *.
  - apply andb_true_iff in Hbefore. destruct Hbefore as [_ Hnow'].
    apply Z.leb_le in Hnow'.
    destruct (String.eqb_spec dex dex') as [<-|Hne].
    + rewrite pairs_of_update_same. apply still_written_cleaned; [exact Hnow'|].
      assert (Hpair : tokenPair <> pair').
      { intros <-. cbn in Hother. rewrite !String.eqb_refl in Hother. discriminate. }
      destruct Hstill as (Hnodup & Hincl & Hget).
      split; [apply NoDup_obj_set; exact Hnodup|]. split.
      * intros k Hk. apply incl_keys_obj_set in Hk. destruct Hk as [<-|Hk];
          [|apply Hincl; exact Hk].
        apply Hseen. cbn. rewrite String.eqb_refl. left. reflexivity.
      * rewrite obj_get_set_other by exact Hpair. exact Hget.
    + rewrite pairs_of_update_other by exact Hne.
      apply still_written_cleaned; assumption.
  - apply Z.leb_le in Hbefore.
    destruct (pairs_of_lookup now dex dex' pair' c) as [->|(_ & (e & He & Hexp) & ->)];
      [exact Hstill|].
    destruct Hstill as (Hnodup & Hincl & Hget).
    assert (Hpair : tokenPair <> pair').
    { intros <-. rewrite Hget in He. injection He as <-.
      unfold expired in Hexp. cbn in Hexp. apply Z.gtb_lt in Hexp. lia. }
    split; [apply NoDup_obj_delete; exact Hnodup|]. split.
    + intros k Hk. apply Hincl. apply in_map_iff in Hk.
      destruct Hk as (x & <- & Hx). apply In_obj_delete in Hx. apply in_map. exact Hx.
    + rewrite obj_get_delete_other by exact Hpair. exact Hget.
Qed.

Lemma written_pairs_app (ops ops' : list Op) :
  written_pairs dex (ops ++ ops') = written_pairs dex ops ++ written_pairs dex ops'.
Proof.
  induction ops as [|[now now' d pr q | now d pr] ops IH]; cbn; [reflexivity| |exact IH].
  destruct (String.eqb d dex); cbn; rewrite IH; reflexivity.
Qed.

Lemma still_written_run (ops : list Op) :
  forall c,
    forallb (fun op => negb (writes dex tokenPair op)) ops = true ->
    forallb (before t) ops = true ->
    incl (written_pairs dex ops) seen ->
    still_written seen (pairs_of dex c) ->
    still_written seen (pairs_of dex (run ops c)).
Proof.
  induction ops as [|op ops IH]; intros c Hother Hbefore Hseen Hstill; [exact Hstill|].
  cbn in Hother, Hbefore.
  apply andb_true_iff in Hother. destruct Hother as [Hop Hother].
  apply andb_true_iff in Hbefore. destruct Hbefore as [Hb Hbefore].
  change (op :: ops) with ([op] ++ ops) in Hseen.
  rewrite written_pairs_app in Hseen.
  cbn. apply IH; try assumption.
  - intros k Hk. apply Hseen. apply in_or_app. right. exact Hk.
  - apply still_written_step; try assumption.
    + apply negb_true_iff. exact Hop.
    + intros k Hk. apply Hseen. apply in_or_app. left. exact Hk.
Qed.

End WrittenPrice.

(** A price written for (venue, pair) at time T is absent from every read
    at a time t with t - T > 60000 ms, and is returned by a read at any time
    t with t - T <= 60000 ms, whatever reads and writes of other keys came
    in between (none later than t), as long as the venue has seen at most
    1000 distinct pairs, the capacity beyond which the clean-up evicts the
    oldest entries; both unless a newer write for the same key
    intervened. *)
Lemma written_price_ttl :
  forall (c0 : PriceCache.t) (dex tokenPair : string) (p : Q) (T T' t : Z)
         (between : list CacheTrace.Op),
    CacheTrace.well_formed c0 ->
    forallb (fun op => negb (CacheTrace.writes dex tokenPair op)) between = true ->
    let c := CacheTrace.run between
               (PriceCache.updatePriceCache T T' dex tokenPair p c0) in
    ((t - T > PriceCache.PRICE_CACHE_TTL)%Z ->
     fst (PriceCache.getPriceFromCache t dex tokenPair c) = None)
    /\ ((t - T <= PriceCache.PRICE_CACHE_TTL)%Z ->
        (T' <= t)%Z ->
        forallb (CacheTrace.before t) between = true ->
        (List.length (CacheTrace.pairs_seen dex tokenPair c0 between)
         <= PriceCache.MAX_CACHE_SIZE)%nat ->
        fst (PriceCache.getPriceFromCache t dex tokenPair c) = Some p).
Proof.
  intros c0 dex tokenPair p T T' t between Hwf Hother. cbv zeta.
  pose proof (pairs_of_well_formed dex c0 Hwf) as Hnodup0.
  rewrite read_pairs_of. split.
  - intro Hold.
    assert (Hstart : CacheTrace.at_most_written tokenPair p T
                       (CacheTrace.pairs_of dex
                          (PriceCache.updatePriceCache T T' dex tokenPair p c0))).
    { rewrite pairs_of_update_same.
      apply at_most_written_sub
        with (ps := PriceCache.obj_set tokenPair (PriceCache.mkEntry p T)
                      (CacheTrace.pairs_of dex c0)).
      - split; [apply NoDup_obj_set; exact Hnodup0|].
        intros e He. rewrite obj_get_set_same in He. congruence.
      - intro x. apply In_cleaned.
      - apply NoDup_cleaned. apply NoDup_obj_set. exact Hnodup0. }
    destruct (at_most_written_run dex tokenPair p T between _ Hother Hstart)
      as [_ Hmost].
    destruct (PriceCache.obj_get tokenPair _) as [e|]; [|reflexivity].
    rewrite (Hmost e eq_refl). unfold PriceCache.expired. cbn.
    destruct (Z.gtb_spec (t - T) PriceCache.PRICE_CACHE_TTL); [reflexivity | lia].
  - intros Hfresh HT' Hbefore Hfits.
    set (seen := CacheTrace.pairs_seen dex tokenPair c0 between) in *.
    assert (Hseen : forall k,
               In k (tokenPair :: CacheTrace.cached_pairs dex c0
                       ++ CacheTrace.written_pairs dex between) -> In k seen).
    { intros k Hk. apply nodup_In. exact Hk. }
    assert (Hstart : CacheTrace.still_written tokenPair p T seen
                       (CacheTrace.pairs_of dex
                          (PriceCache.updatePriceCache T T' dex tokenPair p c0))).
    { rewrite pairs_of_update_same.
      apply (still_written_cleaned tokenPair p T t seen Hfresh Hfits); [exact HT'|].
      split; [apply NoDup_obj_set; exact Hnodup0|]. split.
      - intros k Hk. apply incl_keys_obj_set in Hk. apply Hseen.
        destruct Hk as [<-|Hk]; [left; reflexivity|].
        right. apply in_or_app. left. exact Hk.
      - apply obj_get_set_same. }
    assert (Hwritten : incl (CacheTrace.written_pairs dex between) seen).
    { intros k Hk. apply Hseen. right. apply in_or_app. right. exact Hk. }
    destruct (still_written_run dex tokenPair p T t seen Hfresh Hfits between _
                Hother Hbefore Hwritten Hstart) as (_ & _ & ->).
    unfold PriceCache.expired. cbn.
    destruct (Z.gtb_spec (t - T) PriceCache.PRICE_CACHE_TTL); [lia | reflexivity].
Qed.

Lemma empty_cache_well_formed : CacheTrace.well_formed [].
Proof. split; constructor. Defined.

Lemma written_pairs_configured (dex : string) (ops : list CacheTrace.Op) :
  forallb writes_configured_pair ops = true ->
  incl (CacheTrace.written_pairs dex ops) ["TON/USDT"; "TON/USDC"; "TON/ETH"].
Proof.
  induction ops as [|op ops IH]; cbn [forallb CacheTrace.written_pairs];
    [intros _ k []|].
  intro H. apply andb_prop in H. destruct H as [Hop Hops].
  destruct op as [now now' d pair p | now d pair]; [|now apply IH].
  destruct (String.eqb d dex); [|now apply IH].
  intros k [<-|Hk]; [|now apply IH].
  cbn [writes_configured_pair] in Hop. apply existsb_exists in Hop.
  destruct Hop as (x & Hx & Heq). apply String.eqb_eq in Heq. now subst x.
Qed.

(** C3: in the cache of the arbitrage strategy, which holds and is written
    the three configured pairs only, a price written for (venue, pair) at
    time T is returned by a read at any time t with t - T <= 60000 ms, and
    a read at any time t with t - T > 60000 ms returns absent, whatever
    reads and writes of other keys came in between and unless a newer write
    for the same key intervened; the clock does not run backwards between
    the write and the read. *)
Theorem price_cache_ttl :
  forall (c0 : PriceCache.t) (dex tokenPair : string) (p : Q) (T T' t : Z)
         (between : list CacheTrace.Op),
    within_configured_pairs c0 ->
    In tokenPair ["TON/USDT"; "TON/USDC"; "TON/ETH"] ->
    forallb writes_configured_pair between = true ->
    forallb (fun op => negb (CacheTrace.writes dex tokenPair op)) between = true ->
    let c := CacheTrace.run between
               (PriceCache.updatePriceCache T T' dex tokenPair p c0) in
    ((t - T > PriceCache.PRICE_CACHE_TTL)%Z ->
     fst (PriceCache.getPriceFromCache t dex tokenPair c) = None)
    /\ ((t - T <= PriceCache.PRICE_CACHE_TTL)%Z ->
        (T' <= t)%Z ->
        forallb (CacheTrace.before t) between = true ->
        fst (PriceCache.getPriceFromCache t dex tokenPair c) = Some p).
Proof.
  intros c0 dex tokenPair p T T' t between [Hwf Hpairs] Hpair Hconfigured Hother.
  destruct (written_price_ttl c0 dex tokenPair p T T' t between Hwf Hother)
    as [Hold Hfresh].
  split; [exact Hold|].
  intros Hage HT' Hbefore. apply Hfresh; try assumption.
  unfold CacheTrace.pairs_seen.
  transitivity (List.length ["TON/USDT"; "TON/USDC"; "TON/ETH"]);
    [|unfold PriceCache.MAX_CACHE_SIZE; cbn; lia].
  apply NoDup_incl_length; [apply NoDup_nodup|].
  intros k Hk. apply nodup_In in Hk.
  destruct Hk as [<-|Hk]; [exact Hpair|].
  apply in_app_or in Hk. destruct Hk as [Hk|Hk].
  - now apply (Hpairs dex).
  - now apply (written_pairs_configured dex between).
Qed.

Lemma price_cache_ttl_witness :
  fst (PriceCache.getPriceFromCache 59000 "DeDust" "TON/USDT"
         (CacheTrace.run Examples.other_keys Examples.written_at_0))
  = Some 0.52
  /\ fst (PriceCache.getPriceFromCache 61000 "DeDust" "TON/USDT"
            (CacheTrace.run Examples.other_keys Examples.written_at_0))
     = None.
Proof.
  assert (Hempty : within_configured_pairs [])
    by (split; [exact empty_cache_well_formed | intros dex pair []]).
  assert (Hpair : In "TON/USDT" ["TON/USDT"; "TON/USDC"; "TON/ETH"]) by (now left).
  split.
  - apply (price_cache_ttl [] "DeDust" "TON/USDT" 0.52 0 0 59000 Examples.other_keys
             Hempty Hpair eq_refl eq_refl).
    + unfold PriceCache.PRICE_CACHE_TTL. lia.
    + lia.
    + reflexivity.
  - apply (price_cache_ttl [] "DeDust" "TON/USDT" 0.52 0 0 61000 Examples.other_keys
             Hempty Hpair eq_refl eq_refl).
    unfold PriceCache.PRICE_CACHE_TTL. lia.
Defined.

(** Beyond what the strategy writes: were a venue written a thousand other
    pairs, one per millisecond, after a price written at time 0, the
    capacity rule of the clean-up would evict that price as the oldest
    entry, and a read at time 1001 would find it absent. *)
Lemma capacity_rule_evicts_fresh_entry :
  forallb (fun op => negb (CacheTrace.writes "DeDust" "TON/USDT" op))
          Examples.thousand_new_pairs = true
  /\ (1001 - 0 <= PriceCache.PRICE_CACHE_TTL)%Z
  /\ fst (PriceCache.getPriceFromCache 1001 "DeDust" "TON/USDT"
            (CacheTrace.run Examples.thousand_new_pairs Examples.written_at_0))
     = None.
Proof.
  split; [vm_compute; reflexivity|]. split; [vm_compute; discriminate|].
  vm_compute. reflexivity.
Qed.

(** * Further properties of the strategies, the manager and the client *)

(** ** Hexadecimal text and the numbers it denotes *)

Section HexText.
Import Js.

Lemma hex_value_digit (n : N) :
  (n < 16)%N -> hex_value (hex_digit n) = Some (Z.of_N n).
Proof.
  intro H.
  destruct n as [|p]; [reflexivity|].
  do 4 (destruct p as [p|p|]; try reflexivity); exfalso; lia.
Qed.

Lemma toHex_app (a b : list byte) : toHex (a ++ b) = (toHex a ++ toHex b)%string.
Proof.
  induction a as [|x a IH]; [reflexivity|].
  cbn [app toHex hex_of_byte String.append]. now rewrite IH.
Qed.

Lemma toHex_length (bytes : list byte) :
  String.length (toHex bytes) = (2 * List.length bytes)%nat.
Proof.
  induction bytes as [|b bytes IH]; [reflexivity|].
  cbn [toHex hex_of_byte String.append String.length List.length]. lia.
Qed.

Lemma nibbles_of_byte (b : byte) :
  (Byte.to_N b / 16 < 16)%N /\ (Byte.to_N b mod 16 < 16)%N
  /\ (16 * Z.of_N (Byte.to_N b / 16) + Z.of_N (Byte.to_N b mod 16)
      = Z.of_N (Byte.to_N b))%Z.
Proof.
  pose proof (Byte.to_N_bounded b) as Hb.
  split; [|split].
  - apply N.Div0.div_lt_upper_bound. lia.
  - apply N.mod_lt. lia.
  - rewrite <- N2Z.inj_mul with (n := 16%N), <- N2Z.inj_add.
    f_equal. symmetry. apply N.div_mod. lia.
Qed.

Lemma hex_to_Z_toHex (bytes : list byte) :
  forall acc, hex_to_Z acc (toHex bytes) = big_endian_from acc bytes.
Proof.
  induction bytes as [|b bytes IH]; intro acc; [reflexivity|].
  destruct (nibbles_of_byte b) as (Hhi & Hlo & Hsum).
  cbn [toHex hex_of_byte String.append hex_to_Z].
  rewrite (hex_value_digit _ Hhi), (hex_value_digit _ Hlo), IH.
  unfold big_endian_from. cbn [fold_left]. f_equal. lia.
Qed.

Lemma is_hex_digit_digit (n : N) : (n < 16)%N -> is_hex_digit (hex_digit n) = true.
Proof. intro H. unfold is_hex_digit. now rewrite (hex_value_digit _ H). Qed.

Lemma hex_run_toHex (bytes : list byte) : hex_run (toHex bytes) = toHex bytes.
Proof.
  induction bytes as [|b bytes IH]; [reflexivity|].
  destruct (nibbles_of_byte b) as (Hhi & Hlo & _).
  cbn [toHex hex_of_byte String.append hex_run].
  now rewrite (is_hex_digit_digit _ Hhi), (is_hex_digit_digit _ Hlo), IH.
Qed.

(** A text that starts with two hexadecimal digits has no white space, no
    sign and no [0x] for [parseInt] to skip. *)
Lemma parseInt16_two_digits (c1 c2 : ascii) (s : string) :
  is_hex_digit c1 = true -> is_hex_digit c2 = true ->
  parseInt16 (String c1 (String c2 s))
  = Some (inject_Z (nearest_double (hex_to_Z 0 (hex_run (String c1 (String c2 s)))))).
Proof.
  intros H1 H2.
  destruct c1 as [[] [] [] [] [] [] [] []]; try discriminate H1;
    unfold parseInt16;
    first
      [ cbn -[hex_to_Z Z.mul is_hex_digit nearest_double]; rewrite H2;
        now rewrite Z.mul_1_l
      | destruct c2 as [[] [] [] [] [] [] [] []]; try discriminate H2;
        cbn -[hex_to_Z Z.mul nearest_double]; now rewrite Z.mul_1_l ].
Qed.

(** Reading back the hexadecimal text of a Buffer gives the double nearest
    to the number the Buffer holds. *)
Lemma parseInt16_toHex (bytes : list byte) :
  bytes <> [] ->
  parseInt16 (toHex bytes) = Some (inject_Z (nearest_double (big_endian bytes))).
Proof.
  destruct bytes as [|b bytes]; [congruence|]. intros _.
  destruct (nibbles_of_byte b) as (Hhi & Hlo & _).
  change (toHex (b :: bytes))
    with (String (hex_digit (Byte.to_N b / 16))
            (String (hex_digit (Byte.to_N b mod 16)) (toHex bytes))).
  rewrite parseInt16_two_digits by now apply is_hex_digit_digit.
  change (String (hex_digit (Byte.to_N b / 16))
            (String (hex_digit (Byte.to_N b mod 16)) (toHex bytes)))
    with (toHex (b :: bytes)).
  now rewrite hex_run_toHex, hex_to_Z_toHex.
Qed.

Lemma get_toHex (bytes : list byte) :
  forall (i : nat) (ch : ascii),
    String.get i (toHex bytes) = Some ch -> exists n, (n < 16)%N /\ ch = hex_digit n.
Proof.
  induction bytes as [|b bytes IH]; intros i ch; [destruct i; discriminate|].
  destruct (nibbles_of_byte b) as (Hhi & Hlo & _).
  cbn [toHex hex_of_byte String.append].
  destruct i as [|[|i]]; cbn [String.get].
  - intro H. injection H as <-. eauto.
  - intro H. injection H as <-. eauto.
  - apply IH.
Qed.

Lemma hex_digit_not_E (n : N) : (n < 16)%N -> hex_digit n <> "E"%char.
Proof.
  intro H. destruct n as [|p]; [discriminate|].
  do 4 (destruct p as [p|p|]; try discriminate); exfalso; lia.
Qed.

(** The text of a Buffer holds no upper-case letter: a needle that starts
    with one does not occur in it. *)
Lemma toHex_excludes (bytes : list byte) (t : string) :
  str_includes (toHex bytes) (String "E" t) = false.
Proof.
  unfold str_includes.
  destruct (String.index 0 (String "E" t) (toHex bytes)) as [m|] eqn:Hindex;
    [|reflexivity].
  apply index_correct1 in Hindex.
  assert (Hget : String.get m (toHex bytes) = Some "E"%char).
  { rewrite <- (Nat.add_0_l m).
    rewrite <- (substring_correct1 (toHex bytes) m (String.length (String "E" t)) 0)
      by (cbn; lia).
    now rewrite Hindex. }
  apply get_toHex in Hget. destruct Hget as (n & Hn & Heq).
  symmetry in Heq. now apply hex_digit_not_E in Heq.
Qed.

End HexText.

(** ** Strings *)

Section StringFacts.

Lemma length_append (s t : string) :
  String.length (s ++ t) = (String.length s + String.length t)%nat.
Proof. induction s as [|c s IH]; cbn; [reflexivity | now rewrite IH]. Qed.

Lemma substring_whole_prefix (s t : string) :
  String.substring 0 (String.length s) (s ++ t) = s.
Proof. induction s as [|c s IH]; cbn; [now destruct t | now rewrite IH]. Qed.

Lemma substring_past_prefix (s t : string) (n m : nat) :
  String.substring (String.length s + n) m (s ++ t) = String.substring n m t.
Proof. induction s as [|c s IH]; cbn; [reflexivity | exact IH]. Qed.

Lemma append_empty_r (s : string) : (s ++ "")%string = s.
Proof. induction s as [|c s IH]; cbn; [reflexivity | now rewrite IH]. Qed.

Lemma substring_whole (s : string) : String.substring 0 (String.length s) s = s.
Proof. rewrite <- (append_empty_r s) at 2. apply substring_whole_prefix. Qed.

Lemma length_substring (s : string) :
  forall n m : nat,
    (n + m <= String.length s)%nat -> String.length (String.substring n m s) = m.
Proof.
  induction s as [|c s IH]; intros n m H; cbn in H.
  - assert (n = 0%nat) as -> by lia. assert (m = 0%nat) as -> by lia. reflexivity.
  - destruct n as [|n]; cbn [String.substring].
    + destruct m as [|m]; [reflexivity|]. cbn [String.length]. rewrite IH; [reflexivity|lia].
    + apply IH. lia.
Qed.

End StringFacts.

(** ** The swap the sandwich strategy reads from a transaction *)

Section SwapAmount.
Import Sandwich.

Lemma Qltb_inject_Z (a b : Z) : (a < b)%Z -> Qltb (inject_Z a) (inject_Z b) = true.
Proof. intro H. apply Qltb_lt. now rewrite <- Zlt_Qlt. Qed.

Lemma amount_after_op_code (amount : list byte) (t : string) :
  List.length amount = 8%nat ->
  (0 < Js.nearest_double (big_endian amount) < 10 ^ 18)%Z ->
  amount_at_offsets ("01e18801" ++ (Js.toHex amount ++ t)) 0 [8; 16; 24; 32]%nat
  = Some (inject_Z (Js.nearest_double (big_endian amount))).
Proof.
  intros Hlen Hrange.
  assert (Hhex : String.length (Js.toHex amount) = 16%nat)
    by (rewrite toHex_length, Hlen; reflexivity).
  cbn [amount_at_offsets].
  replace ((0 + 8 + 16 <=? String.length ("01e18801" ++ (Js.toHex amount ++ t)))%nat)
    with true
    by (symmetry; apply Nat.leb_le; rewrite !length_append, Hhex; cbn; lia).
  unfold Js.str_substring.
  change (0 + 8)%nat with (String.length "01e18801" + 0)%nat.
  replace (String.length "01e18801" + 0 + 16 - (String.length "01e18801" + 0))%nat
    with (String.length (Js.toHex amount)) by (rewrite Hhex; reflexivity).
  rewrite substring_past_prefix, substring_whole_prefix.
  rewrite parseInt16_toHex by (destruct amount; [discriminate | congruence]).
  unfold reasonable_amount.
  assert (Hbound : 1e18 == inject_Z (10 ^ 18)) by (vm_compute; reflexivity).
  replace (Qltb 0 (inject_Z (Js.nearest_double (big_endian amount)))) with true
    by (symmetry; apply (Qltb_inject_Z 0); apply Hrange).
  replace (Qltb (inject_Z (Js.nearest_double (big_endian amount))) 1e18) with true;
    [reflexivity|].
  symmetry. apply Qltb_lt. rewrite Hbound, <- Zlt_Qlt. apply Hrange.
Qed.

Lemma index_of_op_code (t : string) :
  String.index 0 "01e18801" ("01e18801" ++ t) = Some 0%nat.
Proof. cbn. now destruct t. Qed.

Lemma swap_from_outMsgs_reads_amount (amount rest : list byte) (others : list Js.JsVal) :
  List.length amount = 8%nat ->
  (0 < Js.nearest_double (big_endian amount) < 10 ^ 18)%Z ->
  swap_from_outMsgs (Js.JArr (Js.JBuf (Examples.swap_message amount ++ rest) :: others))
  = Some (mkSwap (Some "TON/USDT")
            (inject_Z (Js.nearest_double (big_endian amount)) / 1e9)).
Proof.
  intros Hlen Hrange.
  unfold swap_from_outMsgs.
  cbn [Js.truthy Js.nonempty_array Js.first_item andb].
  unfold Examples.swap_message.
  rewrite <- app_assoc, !toHex_app.
  change (Js.toHex [x01; xe1; x88; x01]%byte) with "01e18801".
  unfold Js.str_includes, Js.str_indexOf.
  rewrite index_of_op_code.
  now rewrite amount_after_op_code.
Qed.

End SwapAmount.

(** X1: a transaction whose first outgoing message is a Buffer that starts
    with the swap operation code [01e18801] followed by an eight-byte amount
    (most significant byte first) is read by the sandwich strategy as a
    TON/USDT swap of that amount, taken as nano-TON, whenever the amount as
    [parseInt] reads it, the nearest double, is between 1 and 10^18 - 1 (an
    amount below 2^53 is read as it is; the amounts from 10^18 - 64 on read
    as 10^18 and are refused); no random draw is made and the strategy's
    state stays as it is. *)
Theorem sandwich_reads_amount_after_op_code :
  forall (tx : Js.JsVal) (amount rest : list byte) (others : list Js.JsVal)
         (c : Ctx Sandwich.State),
    Js.get tx "outMsgs"
    = Returned (Js.JArr (Js.JBuf (Examples.swap_message amount ++ rest) :: others)) ->
    List.length amount = 8%nat ->
    let read := Js.nearest_double (big_endian amount) in
    (0 < read < 10 ^ 18)%Z ->
    ((big_endian amount < 2 ^ 53)%Z -> read = big_endian amount)
    /\ Sandwich.extractSwapDetails tx c
       = (Returned (Some (Sandwich.mkSwap (Some "TON/USDT") (inject_Z read / 1e9))), c).
Proof.
  intros tx amount rest others c Hget Hlen read Hrange. split.
  - intro Hsmall. unfold read, Js.nearest_double.
    apply Z.ltb_lt in Hsmall. now rewrite Hsmall.
  - unfold Sandwich.extractSwapDetails, try_catch, bind, lift_outcome.
    rewrite Hget.
    now rewrite swap_from_outMsgs_reads_amount.
Qed.

Lemma sandwich_reads_amount_after_op_code_witness :
  Sandwich.extractSwapDetails (packet_data Examples.large_swap_packet)
    (mkCtx (Sandwich.new Sandwich.defaultConfig) Examples.steady)
  = (Returned (Some (Sandwich.mkSwap (Some "TON/USDT") (inject_Z 100000000000 / 1e9))),
     mkCtx (Sandwich.new Sandwich.defaultConfig) Examples.steady).
Proof.
  apply (proj2 (sandwich_reads_amount_after_op_code
                  (packet_data Examples.large_swap_packet) Examples.hundred_ton [] []
                  (mkCtx (Sandwich.new Sandwich.defaultConfig) Examples.steady)
                  eq_refl eq_refl (conj eq_refl eq_refl))).
Defined.

(** ** What the sandwich strategy emits *)

Section SandwichEmits.
Import Sandwich.

(** The two ways out of [analyze]: nothing, or the one opportunity built
    from the decoded swap and two random draws. *)
Lemma sandwich_analyze_cases (packet : MempoolPacket) (c : Ctx State) :
  fst (analyze packet c) = Returned []
  \/ exists swap c1 hash ident,
       let cfg := config (self c) in
       let size := swapSize swap in
       let impact := calculatePriceImpact cfg size in
       let front := calculateOptimalFrontRunAmount size impact in
       let r1 := fst (Math_random (world c1)) in
       let back := front + size * (0.05 + r1 * 0.05) in
       let frontGas := Qmin (maxFrontRunGas cfg) (0.01 + front * 0.001) in
       let backGas := Qmin (maxBackRunGas cfg) (0.01 + back * 0.001) in
       let r2 := fst (Math_random (snd (Math_random (world c1)))) in
       let profit := (size * impact / 100) * (0.6 + r2 * 0.2) - (frontGas + backGas) in
       let conf := calculateConfidence cfg size impact profit in
       extractSwapDetails (packet_data packet) c = (Returned (Some swap), c1)
       /\ includes_pair (targetPairs cfg) (tokenPair swap) = true
       /\ Qltb size (minTargetSwapSize cfg) = false
       /\ Qltb impact 0.5 = false
       /\ Qltb profit (minProfitEstimate cfg) = false
       /\ Qltb conf (minConfidence cfg) = false
       /\ fst (analyze packet c)
          = Returned
              [mkOpportunity ident (name (self c)) (packet_timestamp packet) profit conf
                 (SandwichDetails
                    (SandwichOpportunityDetails.mk hash (pair_text (tokenPair swap)) size
                       impact front back frontGas backGas (frontGas + backGas)))
                 (packet_id packet, packet_timestamp packet)].
Proof.
  unfold analyze, bind, try_catch, get_self, ret.
  cbn [fst snd].
  destruct (negb (Js.truthy (packet_data packet))); [now left|].
  destruct (extractSwapDetails (packet_data packet) c) as [[[swap|]|e] c1] eqn:Hswap;
    try (now left).
  destruct (includes_pair (targetPairs (config (self c))) (tokenPair swap)) eqn:Hpair;
    cbn [negb]; [|now left].
  destruct (Qltb (swapSize swap) (minTargetSwapSize (config (self c)))) eqn:Hsize;
    [now left|].
  destruct (Qltb (calculatePriceImpact (config (self c)) (swapSize swap)) 0.5)
    eqn:Himpact; [now left|].
  unfold calculateOptimalBackRunAmount, calculateProfitEstimate, bind, in_world, ret,
    lift_outcome, update_self.
  cbn [Math_random uuidv4 fst snd world self random_at n_random].
  match goal with
  | |- context [if Qltb ?p (minProfitEstimate _) then _ else _] =>
      destruct (Qltb p (minProfitEstimate (config (self c)))) eqn:Hprofit; [now left|]
  end.
  match goal with
  | |- context [if Qltb ?q (minConfidence _) then _ else _] =>
      destruct (Qltb q (minConfidence (config (self c)))) eqn:Hconf; [now left|]
  end.
  destruct (targetTxHash_of (packet_data packet)) as [hash|e]; [|now left].
  right. exists swap, c1, hash. eexists.
  cbv zeta. repeat split; eassumption.
Qed.

Lemma calculateConfidence_at_most (cfg : SandwichConfig) (size impact profit : Q) :
  calculateConfidence cfg size impact profit <= 0.98.
Proof. unfold calculateConfidence. apply Q.le_min_r. Qed.

Lemma calculateConfidence_at_least (cfg : SandwichConfig) (size impact profit : Q) :
  0 < minTargetSwapSize cfg -> 0 < minProfitEstimate cfg ->
  minTargetSwapSize cfg <= size -> 0.5 <= impact -> minProfitEstimate cfg <= profit ->
  0.78 <= calculateConfidence cfg size impact profit.
Proof.
  intros Hmin Hminp Hsize Himpact Hprofit.
  unfold calculateConfidence.
  assert (Hs : 1 <= size / minTargetSwapSize cfg)
    by (apply Qle_shift_div_l; [assumption | lra]).
  assert (Hp : 1 <= profit / minProfitEstimate cfg)
    by (apply Qle_shift_div_l; [assumption | lra]).
  apply Q.min_glb; [|lra].
  assert (0.05 <= Qmin (size / minTargetSwapSize cfg * 0.05) 0.15)
    by (apply Q.min_glb; lra).
  assert (0.01 <= Qmin (impact * 0.02) 0.1) by (apply Q.min_glb; lra).
  assert (0.02 <= Qmin (profit / minProfitEstimate cfg * 0.02) 0.1)
    by (apply Q.min_glb; lra).
  lra.
Qed.

Lemma impact_needs_eighty_above (cfg : SandwichConfig) (size : Q) :
  0.5 <= calculatePriceImpact cfg size -> minTargetSwapSize cfg + 80 <= size.
Proof.
  intro H. rewrite calculatePriceImpact_formula in H.
  apply Q.min_glb_iff in H. lra.
Qed.

Lemma includes_pair_In (pairs : list string) (p : option string) :
  includes_pair pairs p = true -> In (pair_text p) pairs.
Proof.
  destruct p as [s|]; [|discriminate]. cbn.
  intro H. apply existsb_exists in H. destruct H as (x & Hx & Heq).
  apply String.eqb_eq in Heq. now subst.
Qed.

End SandwichEmits.

(** What the sandwich strategy with the default configuration returns for
    the packet that swaps 100 TON holds an opportunity. *)
Lemma large_swap_found :
  exists opp,
    In opp (contribution
              (fst (Sandwich.analyze Examples.large_swap_packet
                      (mkCtx (Sandwich.new Sandwich.defaultConfig) Examples.steady)))).
Proof. vm_compute. eexists. left. reflexivity. Defined.

(** X2: the sandwich strategy never lets an exception out of [analyze],
    whatever the packet and the state, and it answers with at most one
    opportunity for a packet. *)
Theorem sandwich_analyze_returns_at_most_one :
  forall (packet : MempoolPacket) (c : Ctx Sandwich.State),
  exists found,
    fst (Sandwich.analyze packet c) = Returned found /\ (List.length found <= 1)%nat.
Proof.
  intros packet c.
  destruct (sandwich_analyze_cases packet c) as [H | (swap & c1 & hash & ident & H)].
  - exists []. split; [exact H | cbn; lia].
  - cbv zeta in H. destruct H as (_ & _ & _ & _ & _ & _ & H).
    eexists. split; [exact H | cbn; lia].
Qed.

(** ** The sandwich strategy over every number *)

(** *** Finite numbers are the rationals *)

Section FiniteNumbers.

Lemma finite_as_Fin (q : Q) : finite_as (Num.Fin q) q.
Proof. split; reflexivity. Qed.

Lemma Qzerob_true (q : Q) : Qzerob q = true <-> q == 0.
Proof. unfold Qzerob. apply Qeq_bool_iff. Qed.

Lemma is_zero_value (x : Num.t) :
  Num.is_finite x = true -> (Num.is_zero x = true <-> Num.value x == 0).
Proof.
  destruct x as [q| | | |]; cbn; try discriminate; intros _.
  - apply Qzerob_true.
  - split; reflexivity.
Qed.

Lemma finite_as_zero (neg : bool) : finite_as (Num.zero neg) 0.
Proof. destruct neg; split; reflexivity. Qed.

Lemma finite_as_compat (x : Num.t) (q q' : Q) : q == q' -> finite_as x q -> finite_as x q'.
Proof. intros Hq [Hfin Hval]. split; [exact Hfin | now rewrite Hval]. Qed.

Lemma finite_as_add (x y : Num.t) (a b : Q) :
  finite_as x a -> finite_as y b -> finite_as (Num.add x y) (a + b).
Proof.
  intros [Hx Ha] [Hy Hb].
  destruct x as [p| | | |], y as [q| | | |]; try discriminate; cbn in *;
    (split; [reflexivity|]); rewrite <- ?Ha, <- ?Hb; cbn; lra.
Qed.

Lemma finite_as_opp (x : Num.t) (a : Q) : finite_as x a -> finite_as (Num.opp x) (- a).
Proof.
  intros [Hx Ha]. destruct x as [p| | | |]; try discriminate; cbn in *.
  - destruct (Qzerob p) eqn:Hp; (split; [reflexivity|]); cbn.
    + apply Qzerob_true in Hp. lra.
    + lra.
  - split; [reflexivity|]. cbn. lra.
Qed.

Lemma finite_as_sub (x y : Num.t) (a b : Q) :
  finite_as x a -> finite_as y b -> finite_as (Num.sub x y) (a - b).
Proof.
  intros Hx Hy. unfold Num.sub.
  apply (finite_as_compat _ (a + - b)); [lra|].
  apply finite_as_add; [exact Hx | now apply finite_as_opp].
Qed.

Lemma finite_as_mul (x y : Num.t) (a b : Q) :
  finite_as x a -> finite_as y b -> finite_as (Num.mul x y) (a * b).
Proof.
  intros [Hx Ha] [Hy Hb].
  assert (Hmul : Num.mul x y
                 = if Num.is_zero x || Num.is_zero y
                   then Num.zero (xorb (Num.negative x) (Num.negative y))
                   else Num.Fin (Num.value x * Num.value y)).
  { destruct x, y; try discriminate; reflexivity. }
  rewrite Hmul.
  destruct (Num.is_zero x || Num.is_zero y) eqn:Hzero.
  - apply (finite_as_compat _ 0); [|apply finite_as_zero].
    apply orb_true_iff in Hzero. destruct Hzero as [Hz|Hz];
      apply is_zero_value in Hz; try assumption; rewrite <- Ha, <- Hb, Hz; lra.
  - split; [reflexivity|]. cbn. now rewrite Ha, Hb.
Qed.

Lemma finite_as_div (x y : Num.t) (a b : Q) :
  ~ b == 0 -> finite_as x a -> finite_as y b -> finite_as (Num.div x y) (a / b).
Proof.
  intros Hb0 [Hx Ha] [Hy Hb].
  assert (Hynz : Num.is_zero y = false).
  { destruct (Num.is_zero y) eqn:Hz; [|reflexivity].
    apply is_zero_value in Hz; [|exact Hy]. rewrite Hb in Hz. contradiction. }
  assert (Hdiv : Num.div x y
                 = if Num.is_zero x
                   then Num.zero (xorb (Num.negative x) (Num.negative y))
                   else Num.Fin (Num.value x / Num.value y)).
  { destruct x, y; try discriminate; cbn in Hynz |- *; rewrite ?Hynz; reflexivity. }
  rewrite Hdiv.
  destruct (Num.is_zero x) eqn:Hzero.
  - apply (finite_as_compat _ 0); [|apply finite_as_zero].
    apply is_zero_value in Hzero; [|exact Hx]. rewrite <- Ha, Hzero.
    unfold Qdiv. lra.
  - split; [reflexivity|]. cbn. now rewrite Ha, Hb.
Qed.

Lemma Qltb_morphism (a a' b b' : Q) : a == a' -> b == b' -> Qltb a b = Qltb a' b'.
Proof.
  intros Ha Hb. destruct (Qltb a' b') eqn:H.
  - apply Qltb_lt. apply Qltb_lt in H. now rewrite Ha, Hb.
  - apply Qltb_ge. apply Qltb_ge in H. now rewrite Ha, Hb.
Qed.

Lemma lt_finite (x y : Num.t) (a b : Q) :
  finite_as x a -> finite_as y b -> Num.lt x y = Qltb a b.
Proof.
  intros [Hx Ha] [Hy Hb].
  assert (Hlt : Num.lt x y = Qltb (Num.value x) (Num.value y))
    by (destruct x, y; try discriminate; reflexivity).
  rewrite Hlt. now apply Qltb_morphism.
Qed.

Lemma finite_as_min (x y : Num.t) (a b : Q) :
  finite_as x a -> finite_as y b -> finite_as (Num.min x y) (Qmin a b).
Proof.
  intros Hx Hy.
  assert (Hmin : Num.min x y
                 = if Num.lt x y then x
                   else if Num.lt y x then y
                   else if Num.negative x then x else y).
  { destruct Hx as [Hx _], Hy as [Hy _]. destruct x, y; try discriminate; reflexivity. }
  rewrite Hmin, (lt_finite x y a b Hx Hy), (lt_finite y x b a Hy Hx).
  destruct (Qltb a b) eqn:Hab.
  - apply Qltb_lt in Hab. apply (finite_as_compat _ a); [|exact Hx].
    symmetry. apply Q.min_l. lra.
  - apply Qltb_ge in Hab. destruct (Qltb b a) eqn:Hba.
    + apply (finite_as_compat _ b); [|exact Hy]. symmetry. now apply Q.min_r.
    + apply Qltb_ge in Hba.
      destruct (Num.negative x).
      * apply (finite_as_compat _ a); [|exact Hx]. symmetry. now apply Q.min_l.
      * apply (finite_as_compat _ b); [|exact Hy]. symmetry. now apply Q.min_r.
Qed.

End FiniteNumbers.

(** *** The two embeddings of the strategy *)

Ltac finite_step :=
  first
    [ assumption
    | apply finite_as_Fin
    | apply finite_as_sub | apply finite_as_add | apply finite_as_mul
    | apply finite_as_min
    | apply finite_as_div; [first [assumption | vm_compute; discriminate] | |] ].

Ltac finite_auto := repeat finite_step.

Section SandwichOverNumbers.

Variables (s : Sandwich.State) (s' : SandwichNum.State).
Hypothesis same_name : SandwichNum.name s' = Sandwich.name s.
Hypothesis same_config : SandwichNum.config s' = SandwichNum.of_finite (Sandwich.config s).

Lemma extractSwapDetails_agree (tx : Js.JsVal) (w : World) :
  exists (found : option Sandwich.SwapDetails) (found' : option SandwichNum.SwapDetails)
         (w1 : World),
    Sandwich.extractSwapDetails tx (mkCtx s w) = (Returned found, mkCtx s w1)
    /\ SandwichNum.extractSwapDetails tx (mkCtx s' w) = (Returned found', mkCtx s' w1)
    /\ match found, found' with
       | None, None => True
       | Some d, Some d' =>
           SandwichNum.swapPair d' = Sandwich.tokenPair d
           /\ finite_as (SandwichNum.swapSize d') (Sandwich.swapSize d)
       | _, _ => False
       end.
Proof.
  unfold Sandwich.extractSwapDetails, SandwichNum.extractSwapDetails.
  unfold try_catch, bind, lift_outcome, ret, get_self, in_world.
  destruct (Js.get tx "outMsgs") as [outMsgs|e]; [|now exists None, None, w].
  destruct (Sandwich.swap_from_outMsgs outMsgs) as [d|].
  { exists (Some d), (Some (SandwichNum.decoded d)), w.
    repeat split; reflexivity. }
  destruct (Js.get tx "data") as [data|e]; [|now exists None, None, w].
  assert (Hfallback :
    exists d d' w1,
      (let '(a, w0) := Math_random w in
       (Returned (Some (Sandwich.mkSwap
                          (nth_error (Sandwich.targetPairs (Sandwich.config s)) 0)
                          (Sandwich.minTargetSwapSize (Sandwich.config s) + a * 20))),
        mkCtx s w0))
      = (Returned (Some d), mkCtx s w1)
      /\ (let '(a, w0) := Math_random w in
          (Returned (Some (SandwichNum.mkSwap
                             (nth_error (SandwichNum.targetPairs (SandwichNum.config s')) 0)
                             (Num.add (SandwichNum.minTargetSwapSize (SandwichNum.config s'))
                                      (Num.mul (Num.Fin a) (Num.Fin 20))))),
           mkCtx s' w0))
         = (Returned (Some d'), mkCtx s' w1)
      /\ SandwichNum.swapPair d' = Sandwich.tokenPair d
      /\ finite_as (SandwichNum.swapSize d') (Sandwich.swapSize d)).
  { destruct (Math_random w) as [a w0]. do 2 eexists. exists w0.
    split; [reflexivity|]. split; [reflexivity|].
    rewrite same_config.
    cbn [SandwichNum.of_finite SandwichNum.targetPairs SandwichNum.minTargetSwapSize
         SandwichNum.swapPair SandwichNum.swapSize Sandwich.tokenPair Sandwich.swapSize].
    split; [reflexivity|]. finite_auto. }
  destruct Hfallback as (d & d' & w1 & Hq & Hn & Hpair & Hsize).
  destruct (Js.truthy data).
  - destruct (Sandwich.swap_from_data data) as [[dd|]|e].
    + exists (Some dd), (Some (SandwichNum.decoded dd)), w.
      repeat split; reflexivity.
    + cbn [self world]. exists (Some d), (Some d'), w1.
      split; [exact Hq|]. split; [exact Hn|]. now split.
    + now exists None, None, w.
  - cbn [self world]. exists (Some d), (Some d'), w1.
    split; [exact Hq|]. split; [exact Hn|]. now split.
Qed.

Hypothesis divisible_size : ~ Sandwich.minTargetSwapSize (Sandwich.config s) == 0.
Hypothesis divisible_profit : ~ Sandwich.minProfitEstimate (Sandwich.config s) == 0.

Lemma calculatePriceImpact_agree (size : Q) (size' : Num.t) :
  finite_as size' size ->
  finite_as (SandwichNum.calculatePriceImpact (SandwichNum.config s') size')
            (Sandwich.calculatePriceImpact (Sandwich.config s) size).
Proof.
  intro Hsize. rewrite same_config.
  unfold SandwichNum.calculatePriceImpact, Sandwich.calculatePriceImpact.
  cbn [SandwichNum.of_finite SandwichNum.minTargetSwapSize]. cbv zeta. finite_auto.
Qed.

Lemma calculateConfidence_agree (size impact profit : Q) (size' impact' profit' : Num.t) :
  finite_as size' size -> finite_as impact' impact -> finite_as profit' profit ->
  finite_as (SandwichNum.calculateConfidence (SandwichNum.config s') size' impact' profit')
            (Sandwich.calculateConfidence (Sandwich.config s) size impact profit).
Proof.
  intros Hsize Himpact Hprofit. rewrite same_config.
  unfold SandwichNum.calculateConfidence, Sandwich.calculateConfidence.
  cbn [SandwichNum.of_finite SandwichNum.minTargetSwapSize SandwichNum.minProfitEstimate].
  cbv zeta. finite_auto.
Qed.

(** Under thresholds that are finite, and not zero where [analyze] divides
    by them, the strategy over every number returns what [Sandwich.analyze]
    returns. *)
Lemma sandwich_analyze_agree (packet : MempoolPacket) (w : World) :
  exists (found : list MEVOpportunity) (found' : list SandwichNum.Opportunity),
    fst (Sandwich.analyze packet (mkCtx s w)) = Returned found
    /\ fst (SandwichNum.analyze packet (mkCtx s' w)) = Returned found'
    /\ Forall2 same_opportunity found found'.
Proof.
  assert (Hnothing :
    exists (found : list MEVOpportunity) (found' : list SandwichNum.Opportunity),
      @Returned (list MEVOpportunity) [] = Returned found
      /\ @Returned (list SandwichNum.Opportunity) [] = Returned found'
      /\ Forall2 same_opportunity found found')
    by (exists [], []; repeat split; constructor).
  unfold Sandwich.analyze, SandwichNum.analyze, bind, try_catch, get_self, ret.
  cbn [fst snd self].
  destruct (negb (Js.truthy (packet_data packet))); [exact Hnothing|].
  destruct (extractSwapDetails_agree (packet_data packet) w)
    as (swap & swap' & w1 & Hq & Hn & Hrel).
  rewrite Hq, Hn.
  destruct swap as [swap|], swap' as [swap'|]; try contradiction; [|exact Hnothing].
  destruct Hrel as [Hpair Hsize]. rewrite Hpair.
  pose proof (calculatePriceImpact_agree _ _ Hsize) as Himpact.
  revert Himpact. rewrite same_config.
  cbn [SandwichNum.of_finite SandwichNum.targetPairs SandwichNum.minTargetSwapSize
       SandwichNum.minProfitEstimate SandwichNum.minConfidence
       SandwichNum.maxFrontRunGas SandwichNum.maxBackRunGas].
  intro Himpact.
  destruct (negb (Sandwich.includes_pair _ _)); [exact Hnothing|].
  rewrite (lt_finite _ _ _ _ Hsize (finite_as_Fin _)).
  destruct (Qltb (Sandwich.swapSize swap) _); [exact Hnothing|].
  rewrite (lt_finite _ _ _ _ Himpact (finite_as_Fin _)).
  destruct (Qltb (Sandwich.calculatePriceImpact _ _) 0.5); [exact Hnothing|].
  unfold Sandwich.calculateOptimalBackRunAmount, SandwichNum.calculateOptimalBackRunAmount,
    Sandwich.calculateProfitEstimate, SandwichNum.calculateProfitEstimate,
    bind, in_world, ret, lift_outcome, update_self.
  cbn [world self fst snd].
  destruct (Math_random w1) as [r1 w2]. cbn [world self fst snd].
  destruct (Math_random w2) as [r2 w3]. cbn [world self fst snd].
  assert (Hfront :
    finite_as (SandwichNum.calculateOptimalFrontRunAmount
                 (SandwichNum.swapSize swap')
                 (SandwichNum.calculatePriceImpact
                    (SandwichNum.of_finite (Sandwich.config s))
                    (SandwichNum.swapSize swap')))
              (Sandwich.calculateOptimalFrontRunAmount
                 (Sandwich.swapSize swap)
                 (Sandwich.calculatePriceImpact (Sandwich.config s)
                    (Sandwich.swapSize swap)))).
  { unfold SandwichNum.calculateOptimalFrontRunAmount,
      Sandwich.calculateOptimalFrontRunAmount. finite_auto. }
  match goal with
  | |- context [if Qltb ?profit (Sandwich.minProfitEstimate _) then _ else _] =>
      match goal with
      | |- context [if Num.lt ?profit' (Num.Fin (Sandwich.minProfitEstimate _))
                    then _ else _] =>
          assert (Hprofit : finite_as profit' profit) by finite_auto;
          rewrite (lt_finite _ _ _ _ Hprofit (finite_as_Fin _));
          destruct (Qltb profit (Sandwich.minProfitEstimate (Sandwich.config s)));
          [exact Hnothing|];
          pose proof (calculateConfidence_agree _ _ _ _ _ _ Hsize Himpact Hprofit)
            as Hconfidence
      end
  end.
  revert Hconfidence. rewrite same_config. intro Hconfidence.
  rewrite (lt_finite _ _ _ _ Hconfidence (finite_as_Fin _)).
  match goal with
  | |- context [if Qltb ?conf (Sandwich.minConfidence _) then _ else _] =>
      destruct (Qltb conf (Sandwich.minConfidence (Sandwich.config s)));
      [exact Hnothing|]
  end.
  destruct (Sandwich.targetTxHash_of (packet_data packet)) as [hash|e];
    [|exact Hnothing].
  destruct (uuidv4 w3) as [ident w4]. cbn [fst snd].
  do 2 eexists. split; [reflexivity|]. split; [reflexivity|].
  constructor; [|constructor].
  unfold same_opportunity.
  cbn [SandwichNum.id SandwichNum.strategy SandwichNum.timestamp SandwichNum.rawData
       SandwichNum.profitEstimate SandwichNum.confidence SandwichNum.details
       id strategy timestamp rawData profitEstimate confidence details].
  repeat (split; [first [reflexivity | assumption]|]).
  eexists. split; [reflexivity|].
  cbn [SandwichNum.targetTxHash SandwichNum.tokenPair SandwichNum.targetSwapSize
       SandwichNum.estimatedPriceImpact SandwichNum.frontRunAmount
       SandwichNum.backRunAmount SandwichNum.estimatedFrontRunGas
       SandwichNum.estimatedBackRunGas SandwichNum.totalGasCost
       SandwichOpportunityDetails.targetTxHash SandwichOpportunityDetails.tokenPair
       SandwichOpportunityDetails.targetSwapSize
       SandwichOpportunityDetails.estimatedPriceImpact
       SandwichOpportunityDetails.frontRunAmount
       SandwichOpportunityDetails.backRunAmount
       SandwichOpportunityDetails.estimatedFrontRunGas
       SandwichOpportunityDetails.estimatedBackRunGas
       SandwichOpportunityDetails.totalGasCost].
  split; [reflexivity|]. split; [reflexivity|].
  do 6 (split; [finite_auto|]). finite_auto.
Qed.

End SandwichOverNumbers.

Lemma Forall2_In_r {A B : Type} (R : A -> B -> Prop) (l : list A) (l' : list B) (y : B) :
  Forall2 R l l' -> In y l' -> exists x, In x l /\ R x y.
Proof.
  induction 1 as [|x y' l l' Hxy Hrest IH]; [intros []|].
  intros [<-|Hin].
  - exists x. split; [now left | exact Hxy].
  - destruct (IH Hin) as (x' & Hx' & HR). exists x'. split; [now right | exact HR].
Qed.

(** What [Sandwich.analyze] returns, opportunity by opportunity. *)
Lemma sandwich_emitted (packet : MempoolPacket) (c : Ctx Sandwich.State)
      (opp : MEVOpportunity) :
  In opp (contribution (fst (Sandwich.analyze packet c))) ->
  let cfg := Sandwich.config (self c) in
  Sandwich.minProfitEstimate cfg <= profitEstimate opp
  /\ Sandwich.minConfidence cfg <= confidence opp <= 0.98
  /\ (0 < Sandwich.minTargetSwapSize cfg -> 0 < Sandwich.minProfitEstimate cfg ->
      0.78 <= confidence opp)
  /\ timestamp opp = packet_timestamp packet
  /\ rawData opp = (packet_id packet, packet_timestamp packet)
  /\ exists d,
       details opp = SandwichDetails d
       /\ In (SandwichOpportunityDetails.tokenPair d) (Sandwich.targetPairs cfg)
       /\ 0.5 <= SandwichOpportunityDetails.estimatedPriceImpact d <= 5
       /\ SandwichOpportunityDetails.estimatedFrontRunGas d <= Sandwich.maxFrontRunGas cfg
       /\ SandwichOpportunityDetails.estimatedBackRunGas d <= Sandwich.maxBackRunGas cfg
       /\ SandwichOpportunityDetails.totalGasCost d
          == SandwichOpportunityDetails.estimatedFrontRunGas d
             + SandwichOpportunityDetails.estimatedBackRunGas d
       /\ SandwichOpportunityDetails.frontRunAmount d
          == SandwichOpportunityDetails.targetSwapSize d
             * (0.15 + SandwichOpportunityDetails.estimatedPriceImpact d / 100).
Proof.
  intros Hin cfg.
  destruct (sandwich_analyze_cases packet c) as [H | (swap & c1 & hash & ident & H)].
  - rewrite H in Hin. destruct Hin.
  - cbv zeta in H. destruct H as (_ & Hpair & Hsize & Himpact & Hprofit & Hconf & H).
    rewrite H in Hin. destruct Hin as [<- | []].
    apply Qltb_ge in Hsize, Himpact, Hprofit, Hconf.
    cbn [confidence profitEstimate timestamp rawData details].
    split; [exact Hprofit|].
    split; [split; [exact Hconf | apply calculateConfidence_at_most]|].
    split; [intros Hmin Hminp; now apply calculateConfidence_at_least|].
    split; [reflexivity|]. split; [reflexivity|].
    eexists. split; [reflexivity|].
    cbn [SandwichOpportunityDetails.tokenPair SandwichOpportunityDetails.targetSwapSize
         SandwichOpportunityDetails.estimatedPriceImpact
         SandwichOpportunityDetails.estimatedFrontRunGas
         SandwichOpportunityDetails.estimatedBackRunGas
         SandwichOpportunityDetails.totalGasCost
         SandwichOpportunityDetails.frontRunAmount].
    split; [now apply includes_pair_In|].
    split; [split; [assumption | apply Q.le_min_r]|].
    split; [apply Q.le_min_l|].
    split; [apply Q.le_min_l|].
    split; reflexivity.
Qed.

Lemma ge_finite (x y : Num.t) (a b : Q) :
  finite_as x a -> finite_as y b -> Num.ge x y = negb (Qltb a b).
Proof.
  intros Hx Hy. rewrite <- (lt_finite x y a b Hx Hy).
  destruct Hx as [Hx _], Hy as [Hy _]. destruct x, y; try discriminate; reflexivity.
Qed.

(** The opportunities of the strategy over every number, under thresholds
    that are finite and, where [analyze] divides by them, not zero, are
    those of [Sandwich.analyze]. *)
Lemma finite_opportunity (packet : MempoolPacket) (c : Ctx SandwichNum.State)
      (cfg : Sandwich.SandwichConfig) (found : list SandwichNum.Opportunity)
      (opp : SandwichNum.Opportunity) :
  SandwichNum.config (self c) = SandwichNum.of_finite cfg ->
  ~ Sandwich.minTargetSwapSize cfg == 0 ->
  ~ Sandwich.minProfitEstimate cfg == 0 ->
  fst (SandwichNum.analyze packet c) = Returned found ->
  In opp found ->
  exists o,
    In o (contribution
            (fst (Sandwich.analyze packet
                    (mkCtx (Sandwich.mkState (SandwichNum.name (self c)) cfg [])
                           (world c)))))
    /\ same_opportunity o opp.
Proof.
  intros Hcfg Hsize Hprofit Hfound Hin.
  destruct c as [st w]. cbn [self world] in *.
  destruct (sandwich_analyze_agree
              (Sandwich.mkState (SandwichNum.name st) cfg []) st eq_refl Hcfg
              Hsize Hprofit packet w)
    as (l & l' & Hl & Hl' & Hsame).
  rewrite Hfound in Hl'. injection Hl' as <-.
  destruct (Forall2_In_r _ _ _ _ Hsame Hin) as (o & Ho & Hoo).
  exists o. rewrite Hl. split; [exact Ho | exact Hoo].
Qed.





(** ** What the arbitrage strategy emits *)

(** *** Loops that gather opportunities *)

Section Gathering.
Context {St : Type} (P : MEVOpportunity -> Prop).
Local Abbreviation Loop := (M (Ctx St * list MEVOpportunity)).

Lemma gathers_ret {A} (a : A) : gathers P (ret a : Loop A).
Proof. intros sl H. exact H. Qed.

Lemma gathers_bind {A C} (m : Loop A) (k : A -> Loop C) :
  gathers P m -> (forall a, gathers P (k a)) -> gathers P (bind m k).
Proof.
  intros Hm Hk sl H. unfold bind. specialize (Hm sl H).
  destruct (m sl) as [[a|e] sl1]; cbn in *; [now apply Hk | exact Hm].
Qed.

Lemma gathers_for_each {A} (l : list A) (body : A -> Loop unit) :
  (forall x, In x l -> gathers P (body x)) -> gathers P (for_each l body).
Proof.
  induction l as [|x l IH]; intro H; cbn [for_each].
  - apply gathers_ret.
  - apply gathers_bind; [apply H; now left | intros _; apply IH].
    intros y Hy. apply H. now right.
Qed.

Lemma gathers_on_object {A} (m : M (Ctx St) A) : gathers P (on_object m : Loop A).
Proof. intros sl H. unfold on_object. now destruct (m (fst sl)). Qed.

Lemma gathers_collect (m : M (Ctx St) (list MEVOpportunity)) :
  (forall c, Forall P (contribution (fst (m c)))) ->
  gathers P (bind (on_object m) (fun found => modify (fun sl => (fst sl, snd sl ++ found)))).
Proof.
  intros Hm sl H. unfold bind, on_object, modify. specialize (Hm (fst sl)).
  destruct (m (fst sl)) as [[found|e] c1]; cbn in *; [|exact H].
  apply Forall_app. now split.
Qed.

Lemma gathered_with_local (m : Loop unit) (c : Ctx St) :
  gathers P m ->
  Forall P (contribution (fst (with_local [] (try_catch m (fun _ => ret tt)) c))).
Proof.
  intro Hm. unfold with_local, try_catch. specialize (Hm (c, []) (Forall_nil P)).
  destruct (m (c, [])) as [[u|e] [c1 l]]; cbn in *; exact Hm.
Qed.

End Gathering.

(** A loop in a try block, run with a local list, returns. *)
Lemma guarded_loop_returns {S L : Type} (init : L) (m : M (S * L) unit) (s : S) :
  exists l, fst (with_local init (try_catch m (fun _ => ret tt)) s) = Returned l.
Proof.
  unfold with_local, try_catch, ret.
  destruct (m (s, init)) as [[u|e] [s1 l]]; now exists l.
Qed.

Section ArbitrageEmits.
Import Arbitrage.

Lemma estimateGasCost_range (buy sell : string) :
  0.01 <= estimateGasCost buy sell <= 0.015
  /\ (buy <> sell -> 0.013 <= estimateGasCost buy sell).
Proof.
  unfold estimateGasCost.
  destruct (String.eqb_spec buy sell) as [Heq|Hne];
    destruct (String.eqb buy "Megaton" || String.eqb sell "Megaton");
    cbn [negb]; (split; [split; lra | intro H; try contradiction; lra]).
Qed.

Lemma calculateConfidence_at_most_one (percent profit minProfit : Q) :
  calculateConfidence percent profit minProfit <= 1.
Proof.
  unfold calculateConfidence.
  pose proof (Q.le_min_r (percent / 5) 1).
  pose proof (Q.le_min_r (profit / (minProfit * 10)) 1).
  lra.
Qed.

Lemma compareWith_vets (cfg : ArbitrageConfig) (info : DexInfo) (otherDex : string)
      (otherPrice : Q) (d : ArbitrageOpportunityDetails.t) (conf : Q) :
  compareWith cfg info otherDex otherPrice = Some (d, conf) ->
  otherDex <> dex info ->
  minProfitEstimate cfg <= ArbitrageOpportunityDetails.estimatedProfit d
  /\ minConfidence cfg <= conf <= 1
  /\ minPriceDifferencePercent cfg <= ArbitrageOpportunityDetails.priceDifferencePercent d
  /\ ArbitrageOpportunityDetails.buyDex d <> ArbitrageOpportunityDetails.sellDex d
  /\ (ArbitrageOpportunityDetails.buyDex d = otherDex
      \/ ArbitrageOpportunityDetails.sellDex d = otherDex)
  /\ ArbitrageOpportunityDetails.buyAmount d <= 60
  /\ 0.013 <= ArbitrageOpportunityDetails.estimatedGas d <= 0.015.
Proof.
  unfold compareWith. cbv zeta. intros H Hne.
  destruct (Qltb (priceDifferencePercentOf (price info) otherPrice)
                 (minPriceDifferencePercent cfg)) eqn:Hpercent; [discriminate|].
  match type of H with
  | (if Qltb ?p _ then _ else _) = _ => destruct (Qltb p (minProfitEstimate cfg)) eqn:Hprofit
  end; [discriminate|].
  match type of H with
  | (if Qltb ?q _ then _ else _) = _ => destruct (Qltb q (minConfidence cfg)) eqn:Hconf
  end; [discriminate|].
  injection H as <- <-.
  apply Qltb_ge in Hpercent, Hprofit, Hconf.
  cbn [ArbitrageOpportunityDetails.estimatedProfit
       ArbitrageOpportunityDetails.priceDifferencePercent
       ArbitrageOpportunityDetails.buyDex ArbitrageOpportunityDetails.sellDex
       ArbitrageOpportunityDetails.buyAmount ArbitrageOpportunityDetails.estimatedGas].
  split; [exact Hprofit|].
  split; [split; [exact Hconf | apply calculateConfidence_at_most_one]|].
  split; [exact Hpercent|].
  assert (Hvenues :
    (if Qltb (price info) otherPrice then dex info else otherDex)
    <> (if Qltb (price info) otherPrice then otherDex else dex info))
    by (destruct (Qltb (price info) otherPrice); congruence).
  split; [exact Hvenues|].
  split; [destruct (Qltb (price info) otherPrice); auto|].
  split; [apply calculateOptimalTradeSize_bound|].
  destruct (estimateGasCost_range
              (if Qltb (price info) otherPrice then dex info else otherDex)
              (if Qltb (price info) otherPrice then otherDex else dex info))
    as ((_ & Hhi) & Hlo).
  split; [now apply Hlo | exact Hhi].
Qed.

(** What one turn of the loop over the other venues pushes. *)
Lemma checkOtherDex_emits (packet : MempoolPacket) (cfg : ArbitrageConfig)
      (info : DexInfo) (otherDex : string) (c : Ctx State) (o : MEVOpportunity) :
  In o (contribution (fst (checkOtherDex packet cfg info otherDex c))) ->
  otherDex <> dex info
  /\ exists cached d conf,
       PriceCache.entry_of (priceCache (self c)) otherDex (tokenPair info) = Some cached
       /\ compareWith cfg info otherDex (PriceCache.price cached) = Some (d, conf)
       /\ details o = ArbitrageDetails d
       /\ profitEstimate o = ArbitrageOpportunityDetails.estimatedProfit d
       /\ confidence o = conf
       /\ timestamp o = packet_timestamp packet.
Proof.
  unfold checkOtherDex.
  destruct (String.eqb_spec otherDex (dex info)) as [Heq|Hne]; [intros []|].
  unfold bind at 1. unfold do_getPriceFromCache.
  unfold bind at 1. unfold get_self at 1.
  destruct (PriceCache.entry_of (priceCache (self c)) otherDex (tokenPair info))
    as [cached|] eqn:Hentry; [|intros []].
  unfold bind at 1. unfold in_world at 1.
  destruct (Date_now (world c)) as [now w1] eqn:Hnow. cbn [fst self world].
  unfold PriceCache.getPriceFromCache. rewrite Hentry.
  destruct (PriceCache.expired now cached) eqn:Hexpired; [intros []|].
  unfold bind, update_self, ret. cbn [self world fst snd].
  destruct (price_truthy (Some (PriceCache.price cached))); cbn [negb]; [|intros []].
  unfold in_world, get_self, set_cache.
  cbn [self world fst snd priceCache].
  destruct (Date_now w1) as [now2 w2]. cbn [self world fst snd priceCache].
  rewrite Hentry.
  destruct (_ >? _)%Z; [destruct (Date_now w2); intros []|].
  destruct (compareWith cfg info otherDex (PriceCache.price cached))
    as [[d conf]|] eqn:Hcompare; [|intros []].
  destruct (uuidv4 w2) as [ident w3]. cbn. intros [<- | []].
  split; [exact Hne|].
  exists cached, d, conf. repeat split; assumption.
Qed.

Lemma checkOtherDex_vets (packet : MempoolPacket) (cfg : ArbitrageConfig)
      (info : DexInfo) (otherDex : string) (c : Ctx State) :
  In otherDex (dexes cfg) ->
  Forall (vetted cfg packet) (contribution (fst (checkOtherDex packet cfg info otherDex c))).
Proof.
  intro Hother. apply Forall_forall. intros o Hin.
  destruct (checkOtherDex_emits _ _ _ _ _ _ Hin)
    as (Hne & cached & d & conf & _ & Hcompare & Hd & Hprofit & Hconf & Hts).
  destruct (compareWith_vets _ _ _ _ _ _ Hcompare Hne)
    as (H1 & H2 & H3 & H4 & H5 & H6 & H7).
  exists d. rewrite Hprofit, Hconf.
  repeat split; try assumption; try tauto.
  destruct H5 as [<- | <-]; [now left | now right].
Qed.

Lemma arbitrage_analyze_vets (packet : MempoolPacket) (c : Ctx State) :
  Forall (vetted (config (self c)) packet) (contribution (fst (analyze packet c))).
Proof.
  unfold analyze. unfold bind at 1. unfold get_self at 1.
  destruct (negb (enabled (config (self c)))); [constructor|].
  cbv zeta. unfold bind at 1.
  destruct ((match extractTransactions packet with
             | [] => ret tt
             | tx :: _ => lift_outcome (Js.log_hash tx)
             end) c) as [[u|e] c1] eqn:Hlog; [|constructor].
  apply gathered_with_local.
  apply gathers_for_each. intros tx _.
  apply gathers_bind; [apply gathers_on_object|]. intro isDex.
  destruct (negb isDex); [apply gathers_ret|].
  apply gathers_bind; [apply gathers_on_object|]. intros _.
  apply gathers_bind; [apply gathers_on_object|]. intro info.
  destruct info as [info|]; [|apply gathers_ret].
  apply gathers_bind; [apply gathers_on_object|]. intros _.
  apply gathers_bind; [apply gathers_on_object|]. intros _.
  apply gathers_for_each. intros otherDex Hother.
  apply gathers_collect. intro c'. now apply checkOtherDex_vets.
Qed.

(** When the logging of a transaction hash throws. *)
Lemma log_hash_throws (tx : Js.JsVal) (e : Exn) :
  Js.log_hash tx = Threw e
  <-> ((tx = Js.JNull \/ tx = Js.JUndefined) /\ e = TypeError)
      \/ ((exists q, Js.get tx "hash" = Returned (Js.JNum q)) /\ e = RangeError)
      \/ ((exists h, Js.get tx "hash" = Returned h /\ Js.unprintable h = true)
          /\ e = TypeError).
Proof.
  unfold Js.log_hash.
  destruct (Js.get tx "hash") as [h|e'] eqn:Hget.
  - assert (Htx : tx <> Js.JNull /\ tx <> Js.JUndefined)
      by (split; intros ->; discriminate).
    assert (Hcases :
              forall P : Prop,
                (P <-> ((exists q, h = Js.JNum q) /\ e = RangeError)
                       \/ (Js.unprintable h = true /\ e = TypeError)) ->
                (P <-> ((tx = Js.JNull \/ tx = Js.JUndefined) /\ e = TypeError)
                       \/ ((exists q, Returned h = Returned (Js.JNum q)) /\ e = RangeError)
                       \/ ((exists h', Returned h = Returned h' /\ Js.unprintable h' = true)
                           /\ e = TypeError))).
    { intros P HP. rewrite HP. split.
      - intros [[[q ->] ->]|[Hh ->]].
        + right. left. split; [now exists q | reflexivity].
        + right. right. split; [now exists h | reflexivity].
      - intros [[[?|?] _]|[[[q Hq] ->]|[(h' & Hh' & Hun) ->]]]; try tauto.
        + left. injection Hq as ->. split; [now exists q | reflexivity].
        + right. injection Hh' as <-. now split. }
    apply Hcases.
    destruct h as [| |b|q|s|bytes|items|fields]; cbn [Js.toString_hex Js.unprintable];
      try (split; [discriminate | intros [[[q' Hq] _]|[Hun _]]; discriminate]).
    + destruct b; (split; [discriminate | intros [[[q' Hq] _]|[Hun _]]; discriminate]).
    + split.
      * intro H. injection H as <-. left. split; [now exists q | reflexivity].
      * intros [[_ ->]|[Hun _]]; [reflexivity | discriminate].
    + destruct (existsb Js.unprintable items); split.
      * intro H. injection H as <-. right. now split.
      * intros [[[q' Hq] _]|[_ ->]]; [discriminate | reflexivity].
      * discriminate.
      * intros [[[q' Hq] _]|[Hun _]]; discriminate.
    + destruct (Js.has_key "toString" fields); split.
      * intro H. injection H as <-. right. now split.
      * intros [[[q' Hq] _]|[_ ->]]; [discriminate | reflexivity].
      * discriminate.
      * intros [[[q' Hq] _]|[Hun _]]; discriminate.
  - destruct tx; try discriminate; cbn in Hget; injection Hget as <-.
    + split.
      * intro H. injection H as <-. left. split; [now right | reflexivity].
      * intros [[_ ->]|[[[q Hq] _]|[(h & Hh & _) _]]]; [reflexivity | discriminate..].
    + split.
      * intro H. injection H as <-. left. split; [now left | reflexivity].
      * intros [[_ ->]|[[[q Hq] _]|[(h & Hh & _) _]]]; [reflexivity | discriminate..].
Qed.

End ArbitrageEmits.





(** ** The price difference between two venues *)

Section PriceDifference.
Import Arbitrage.

Lemma priceDifferencePercentOf_symmetric (p1 p2 : Q) :
  priceDifferencePercentOf p1 p2 == priceDifferencePercentOf p2 p1.
Proof.
  unfold priceDifferencePercentOf.
  rewrite (Q.min_comm p2 p1).
  setoid_replace ((p2 - p1) / Qmin p1 p2 * 100) with (- ((p1 - p2) / Qmin p1 p2 * 100)).
  - now rewrite Qabs_opp.
  - unfold Qdiv. ring.
Qed.

Lemma Qltb_compat (x x' y : Q) : x == x' -> Qltb x y = Qltb x' y.
Proof.
  intro H. destruct (Qltb x' y) eqn:H'.
  - apply Qltb_lt. apply Qltb_lt in H'. now rewrite H.
  - apply Qltb_ge. apply Qltb_ge in H'. now rewrite H.
Qed.

Lemma calculateConfidence_compat (percent percent' profit minProfit : Q) :
  percent == percent' ->
  calculateConfidence percent profit minProfit
  == calculateConfidence percent' profit minProfit.
Proof. intro H. unfold calculateConfidence. now rewrite H. Qed.

End PriceDifference.

(** X7: the comparison of two venues does not depend on which of them is
    the one just observed: with the price of the first venue below the price
    of the second, comparing the first against the cached second and the
    second against the cached first give either no opportunity both times, or
    twice the same trade: buy on the first venue, sell on the second, with the
    same amounts and profit, and equal price difference and confidence. *)
Theorem detection_is_symmetric :
  forall (cfg : Arbitrage.ArbitrageConfig) (dex1 dex2 tokenPair : string) (p1 p2 : Q),
    p1 < p2 ->
    match Arbitrage.compareWith cfg (Arbitrage.mkDexInfo dex1 tokenPair p1) dex2 p2,
          Arbitrage.compareWith cfg (Arbitrage.mkDexInfo dex2 tokenPair p2) dex1 p1 with
    | Some (a, confidenceA), Some (b, confidenceB) =>
        ArbitrageOpportunityDetails.buyDex a = dex1
        /\ ArbitrageOpportunityDetails.buyDex b = dex1
        /\ ArbitrageOpportunityDetails.sellDex a = dex2
        /\ ArbitrageOpportunityDetails.sellDex b = dex2
        /\ ArbitrageOpportunityDetails.buyAmount a = ArbitrageOpportunityDetails.buyAmount b
        /\ ArbitrageOpportunityDetails.sellAmount a = ArbitrageOpportunityDetails.sellAmount b
        /\ ArbitrageOpportunityDetails.estimatedProfit a
           = ArbitrageOpportunityDetails.estimatedProfit b
        /\ ArbitrageOpportunityDetails.priceDifferencePercent a
           == ArbitrageOpportunityDetails.priceDifferencePercent b
        /\ confidenceA == confidenceB
    | None, None => True
    | _, _ => False
    end.
Proof.
  intros cfg dex1 dex2 tokenPair p1 p2 Hlt.
  unfold Arbitrage.compareWith. cbv zeta.
  cbn [Arbitrage.price Arbitrage.dex Arbitrage.tokenPair].
  assert (H12 : Qltb p1 p2 = true) by now apply Qltb_lt.
  assert (H21 : Qltb p2 p1 = false) by (apply Qltb_ge; lra).
  rewrite H12, H21.
  pose proof (priceDifferencePercentOf_symmetric p1 p2) as Hsym.
  rewrite (Qltb_compat _ _ _ Hsym).
  destruct (Qltb (Arbitrage.priceDifferencePercentOf p2 p1) _); [exact I|].
  match goal with
  | |- context [if Qltb ?p (Arbitrage.minProfitEstimate cfg) then _ else _] =>
      destruct (Qltb p (Arbitrage.minProfitEstimate cfg)); [exact I|]
  end.
  rewrite (Qltb_compat _ _ _ (calculateConfidence_compat _ _ _ _ Hsym)).
  match goal with
  | |- context [if Qltb ?q (Arbitrage.minConfidence cfg) then _ else _] =>
      destruct (Qltb q (Arbitrage.minConfidence cfg)); [exact I|]
  end.
  cbn. repeat split; try reflexivity; try assumption.
  now apply calculateConfidence_compat.
Qed.

Lemma detection_is_symmetric_witness :
  exists a b confidenceA confidenceB,
    Arbitrage.compareWith Examples.threshold_one_percent
      (Arbitrage.mkDexInfo "DexA" "TON/USDT" 0.50) "DexB" 0.52
    = Some (a, confidenceA)
    /\ Arbitrage.compareWith Examples.threshold_one_percent
         (Arbitrage.mkDexInfo "DexB" "TON/USDT" 0.52) "DexA" 0.50
       = Some (b, confidenceB)
    /\ ArbitrageOpportunityDetails.buyDex b = "DexA"
    /\ ArbitrageOpportunityDetails.estimatedProfit a
       = ArbitrageOpportunityDetails.estimatedProfit b.
Proof.
  assert (Hlt : 0.50 < 0.52) by reflexivity.
  assert (Ha : exists a confidenceA,
             Arbitrage.compareWith Examples.threshold_one_percent
               (Arbitrage.mkDexInfo "DexA" "TON/USDT" 0.50) "DexB" 0.52
             = Some (a, confidenceA))
    by (vm_compute; eexists; eexists; reflexivity).
  assert (Hb : exists b confidenceB,
             Arbitrage.compareWith Examples.threshold_one_percent
               (Arbitrage.mkDexInfo "DexB" "TON/USDT" 0.52) "DexA" 0.50
             = Some (b, confidenceB))
    by (vm_compute; eexists; eexists; reflexivity).
  destruct Ha as (a & confidenceA & Ha). destruct Hb as (b & confidenceB & Hb).
  pose proof (detection_is_symmetric Examples.threshold_one_percent
                "DexA" "DexB" "TON/USDT" 0.50 0.52 Hlt) as Hs.
  rewrite Ha, Hb in Hs.
  exists a, b, confidenceA, confidenceB.
  destruct Hs as (_ & Hbuy & _ & _ & _ & _ & Hprofit & _).
  split; [exact Ha|]. split; [exact Hb|]. split; [exact Hbuy | exact Hprofit].
Defined.

(** ** How a transaction is attributed to a venue *)

Section VenueProbes.
Import Arbitrage.

Lemma find_by_op_code (v : Js.JsVal) (d : string) :
  find_dex DexConfig.getDexOpCode v DexConfig.getSupportedDexes = Returned (Some d) ->
  d = "DeDust".
Proof.
  change DexConfig.getSupportedDexes with ["DeDust"; "Ston.fi"; "Megaton"].
  cbn [find_dex].
  change (DexConfig.getDexOpCode "DeDust") with (Some "b5ee9c72").
  change (DexConfig.getDexOpCode "Ston.fi") with (Some "b5ee9c72").
  change (DexConfig.getDexOpCode "Megaton") with (Some "b5ee9c72").
  cbv beta iota. destruct (Js.includes v "b5ee9c72") as [[|]|e]; congruence.
Qed.

Lemma dex_by_outMsgs_DeDust (tx : Js.JsVal) (d : string) :
  dex_by_outMsgs tx = Returned (Some d) -> d = "DeDust".
Proof.
  unfold dex_by_outMsgs.
  destruct (Js.get tx "outMsgs") as [outMsgs|e]; [|discriminate].
  destruct (Js.nonempty_array outMsgs); [|discriminate].
  destruct (Js.first_item outMsgs); try discriminate.
  apply find_by_op_code.
Qed.

Lemma dex_by_data_DeDust (tx : Js.JsVal) (d : string) :
  dex_by_data tx = Returned (Some d) -> d = "DeDust".
Proof.
  unfold dex_by_data.
  destruct (Js.get tx "data") as [data|e]; [|discriminate].
  destruct (Js.truthy data); [|discriminate].
  apply find_by_op_code.
Qed.

(** The computation names the venue [d] in whatever it returns. *)
Local Abbreviation names d m :=
  (forall (c : Ctx State) (info : DexInfo),
      fst (m c) = Returned (Some info) -> dex info = d).

Lemma names_bind {A} (d : string) (m : M (Ctx State) A)
      (k : A -> M (Ctx State) (option DexInfo)) :
  (forall a, names d (k a)) -> names d (bind m k).
Proof.
  intros Hk c info. unfold bind.
  destruct (m c) as [[a|e] c1]; [apply Hk | discriminate].
Qed.

Lemma names_ret_None (d : string) : names d (ret None).
Proof. intros c info. discriminate. Qed.

Lemma names_ret_Some (d p : string) (q : Q) : names d (ret (Some (mkDexInfo d p q))).
Proof. intros c info H. now injection H as <-. Qed.

Ltac names_step :=
  first
    [ apply names_ret_None | apply names_ret_Some
    | apply names_bind; intros ?
    | match goal with
      | |- forall c info, fst (match ?x with _ => _ end c) = _ -> _ => destruct x
      | |- forall c info, fst ((if ?b then _ else _) c) = _ -> _ => destruct b
      end ].

Lemma logged_null (tx : Js.JsVal) (c : Ctx State) (info : DexInfo) :
  fst (bind (lift_outcome (Js.log_hash tx)) (fun _ => ret None) c)
  <> Returned (Some info).
Proof. unfold bind, lift_outcome, ret. now destruct (Js.log_hash tx). Qed.

(** The venue of what [extractDexInfo] returns is the one found by the
    three probes. *)
Lemma extractDexInfo_venue (tx : Js.JsVal) (c : Ctx State) (info : DexInfo) :
  fst (extractDexInfo tx c) = Returned (Some info) ->
  first_some (dex_by_address tx) (first_some (dex_by_outMsgs tx) (dex_by_data tx))
  = Returned (Some (dex info)).
Proof.
  unfold extractDexInfo, try_catch.
  unfold bind at 1. unfold lift_outcome at 1.
  destruct (first_some (dex_by_address tx)
              (first_some (dex_by_outMsgs tx) (dex_by_data tx))) as [[d|]|e].
  - match goal with
    | |- fst (let (o, s1) := ?m c in _) = _ -> _ =>
        assert (Hm : names d m) by (repeat names_step);
        specialize (Hm c info); destruct (m c) as [[r|e] c1]
    end.
    + cbn [fst] in *. intro H. now rewrite (Hm H).
    + intro H. now apply logged_null in H.
  - intro H. exfalso. revert H. unfold bind, lift_outcome, ret.
    now destruct (Js.log_hash tx).
  - intro H. now apply logged_null in H.
Qed.

End VenueProbes.

(** X8: the three venues are configured with the same operation code, so a
    transaction that no contract address attributes to a venue is attributed
    to the first one: whenever the address probe finds nothing, the venue of
    the information [extractDexInfo] returns is DeDust. *)
Theorem op_code_names_first_venue :
  forall (tx : Js.JsVal) (c : Ctx Arbitrage.State) (info : Arbitrage.DexInfo),
    Arbitrage.dex_by_address tx = Returned None ->
    fst (Arbitrage.extractDexInfo tx c) = Returned (Some info) ->
    Arbitrage.dex info = "DeDust".
Proof.
  intros tx c info Haddress Hinfo.
  apply extractDexInfo_venue in Hinfo. rewrite Haddress in Hinfo.
  unfold Arbitrage.first_some, Arbitrage.bind_outcome in Hinfo.
  destruct (Arbitrage.dex_by_outMsgs tx) as [[d|]|e] eqn:HoutMsgs.
  - injection Hinfo as <-. now apply dex_by_outMsgs_DeDust in HoutMsgs.
  - now apply dex_by_data_DeDust in Hinfo.
  - discriminate.
Qed.

Lemma op_code_names_first_venue_witness :
  exists info,
    fst (Arbitrage.extractDexInfo Examples.op_code_only
           (mkCtx (Arbitrage.new Arbitrage.defaultConfig) Examples.steady))
    = Returned (Some info)
    /\ Arbitrage.dex info = "DeDust".
Proof.
  assert (Hinfo : exists info,
             fst (Arbitrage.extractDexInfo Examples.op_code_only
                    (mkCtx (Arbitrage.new Arbitrage.defaultConfig) Examples.steady))
             = Returned (Some info))
    by (vm_compute; eexists; reflexivity).
  destruct Hinfo as [info Hinfo]. exists info. split; [exact Hinfo|].
  apply (op_code_names_first_venue Examples.op_code_only
           (mkCtx (Arbitrage.new Arbitrage.defaultConfig) Examples.steady) info);
    [reflexivity | exact Hinfo].
Defined.

(** X9: an address given as a Buffer is compared as lower-case hexadecimal
    text, in which the contract address configured for DeDust (a text in
    user-friendly form, starting with [EQ]) cannot occur: the address probe
    attributes such a transaction to Ston.fi or to Megaton, or to no venue. *)
Theorem buffer_address_never_names_DeDust :
  forall (tx : Js.JsVal) (bytes : list byte) (d : string),
    Js.get tx "stdSmcAddress" = Returned (Js.JBuf bytes) ->
    Arbitrage.dex_by_address tx = Returned (Some d) ->
    d = "Ston.fi" \/ d = "Megaton".
Proof.
  intros tx bytes d Hget. unfold Arbitrage.dex_by_address. rewrite Hget.
  cbn [Js.truthy Js.hex_or_self].
  change DexConfig.getSupportedDexes with ["DeDust"; "Ston.fi"; "Megaton"].
  cbn [Arbitrage.find_dex].
  change (DexConfig.getDexContractAddress "DeDust")
    with (Some "EQBfBWT7X2BHg9tXAxzhz2aKiNTU1tpt5NsiK0uSDW_YAJ67").
  cbv beta iota. cbn [Js.includes]. rewrite toHex_excludes.
  change (DexConfig.getDexContractAddress "Ston.fi")
    with (Some "fdc7cd1d8d0e710105e2b69bbd747eb3748cc4103bc0dd581e91ba4360929b73").
  change (DexConfig.getDexContractAddress "Megaton")
    with (Some "0bfe2f05a7ccf04aa326cb3ae08c2bb7d9729ddec7fc04a5f9d01007d9c65f9f").
  cbv beta iota.
  destruct (Js.str_includes _ _); [intro H; injection H as <-; now left|].
  destruct (Js.str_includes _ _); [intro H; injection H as <-; now right | discriminate].
Qed.

Lemma buffer_address_never_names_DeDust_witness :
  Arbitrage.dex_by_address Examples.buffer_addressed = Returned (Some "Ston.fi")
  /\ ("Ston.fi" = "Ston.fi" \/ "Ston.fi" = "Megaton").
Proof.
  assert (H : Arbitrage.dex_by_address Examples.buffer_addressed
              = Returned (Some "Ston.fi")) by (vm_compute; reflexivity).
  split; [exact H|].
  exact (buffer_address_never_names_DeDust Examples.buffer_addressed
           Examples.stonfi_address "Ston.fi" eq_refl H).
Defined.

(** ** What [extractDexInfo] returns *)

Section DexInfoShape.
Import Arbitrage.

(** The venue [d] is supported, and what is returned names it with one of
    its pairs and a price that is not zero. *)
Local Abbreviation well_shaped info :=
  (In (dex info) DexConfig.getSupportedDexes
   /\ In (tokenPair info) (map pair_of (DexConfig.getSupportedTokens (dex info)))
   /\ ~ price info == 0).

Local Abbreviation shapes m :=
  (forall (c : Ctx State) (info : DexInfo),
      fst (m c) = Returned (Some info) -> well_shaped info).

Lemma shapes_bind {A} (m : M (Ctx State) A) (k : A -> M (Ctx State) (option DexInfo)) :
  (forall a, shapes (k a)) -> shapes (bind m k).
Proof.
  intros Hk c info. unfold bind.
  destruct (m c) as [[a|e] c1]; [apply Hk | discriminate].
Qed.

Lemma shapes_ret_None : shapes (ret None).
Proof. intros c info. discriminate. Qed.

Lemma find_dex_In (needle_of : string -> option string) (v : Js.JsVal)
      (dexNames : list string) (d : string) :
  find_dex needle_of v dexNames = Returned (Some d) -> In d dexNames.
Proof.
  induction dexNames as [|x dexNames IH]; cbn [find_dex]; [discriminate|].
  destruct (needle_of x); [|intro H; right; now apply IH].
  destruct (Js.includes v s) as [[|]|e]; [|intro H; right; now apply IH | discriminate].
  intro H. injection H as <-. now left.
Qed.

Lemma identified_In (tx : Js.JsVal) (d : string) :
  first_some (dex_by_address tx) (first_some (dex_by_outMsgs tx) (dex_by_data tx))
  = Returned (Some d) ->
  In d DexConfig.getSupportedDexes.
Proof.
  unfold first_some, bind_outcome.
  destruct (dex_by_address tx) as [[a|]|e] eqn:Haddress; [| |discriminate].
  - intro H. injection H as <-. unfold dex_by_address in Haddress.
    destruct (Js.get tx "stdSmcAddress"); [|discriminate].
    destruct (Js.truthy a0); [|discriminate]. now apply find_dex_In in Haddress.
  - destruct (dex_by_outMsgs tx) as [[a|]|e] eqn:HoutMsgs; [| |discriminate].
    + intro H. injection H as <-. unfold dex_by_outMsgs in HoutMsgs.
      destruct (Js.get tx "outMsgs"); [|discriminate].
      destruct (Js.nonempty_array a0); [|discriminate].
      destruct (Js.first_item a0); try discriminate. now apply find_dex_In in HoutMsgs.
    + unfold dex_by_data. destruct (Js.get tx "data"); [|discriminate].
      destruct (Js.truthy a); [|discriminate]. apply find_dex_In.
Qed.

Lemma pair_from_outMsg_In (d hex : string) (tokens : list string) (p : string) :
  fst (pair_from_outMsg d hex tokens) = Some p -> In p (map pair_of tokens).
Proof.
  induction tokens as [|token tokens IH]; cbn [pair_from_outMsg]; [discriminate|].
  destruct (DexConfig.getTokenSwapOpCode d token); [|intro H; right; now apply IH].
  destruct (Js.str_includes hex s); [|intro H; right; now apply IH].
  cbn [fst]. intro H. injection H as <-. now left.
Qed.

Lemma pair_from_data_In (d : string) (dataHex : Js.JsVal) (tokens all : list string)
      (current result : option string * option Q) (p : string) :
  incl tokens all ->
  (forall q, fst current = Some q -> In q (map pair_of all)) ->
  pair_from_data d dataHex tokens current = Returned result ->
  fst result = Some p -> In p (map pair_of all).
Proof.
  intros Hincl Hcurrent. revert Hincl.
  induction tokens as [|token tokens IH]; intro Hincl; cbn [pair_from_data].
  - intro H. injection H as <-. apply Hcurrent.
  - assert (Htoken : In (pair_of token) (map pair_of all))
      by (apply in_map, Hincl; now left).
    assert (Hrest : incl tokens all) by (intros x Hx; apply Hincl; now right).
    unfold bind_outcome.
    destruct (probe_data dataHex (DexConfig.getTokenAddress d token) 80)
      as [[byAddress|]|e]; [| |discriminate].
    { intro H. injection H as <-. cbn [fst]. intro H. now injection H as <-. }
    destruct (probe_data dataHex (DexConfig.getTokenPoolId d token) 24)
      as [[byPool|]|e]; [| |discriminate].
    { intro H. injection H as <-. cbn [fst]. intro H. now injection H as <-. }
    destruct (probe_data dataHex (DexConfig.getTokenId d token) 24)
      as [[byId|]|e]; [| |discriminate].
    { intro H. injection H as <-. cbn [fst]. intro H. now injection H as <-. }
    now apply IH.
Qed.


Lemma shapes_bind_with {A} (R : A -> Prop) (m : M (Ctx State) A)
      (k : A -> M (Ctx State) (option DexInfo)) :
  (forall c a, fst (m c) = Returned a -> R a) ->
  (forall a, R a -> shapes (k a)) -> shapes (bind m k).
Proof.
  intros Hm Hk c info. unfold bind. specialize (Hm c).
  destruct (m c) as [[a|e] c1]; [|discriminate].
  apply Hk, Hm. reflexivity.
Qed.

Lemma shapes_logged (tx : Js.JsVal) (m : M (Ctx State) (option DexInfo)) :
  shapes m -> shapes (bind (lift_outcome (Js.log_hash tx)) (fun _ => m)).
Proof. intro Hm. apply shapes_bind. intros _. exact Hm. Qed.

Lemma Qzerob_false (q : Q) : negb (Qzerob q) = true -> ~ q == 0.
Proof.
  unfold Qzerob. intros H Hq. apply Qeq_bool_iff in Hq. rewrite Hq in H. discriminate.
Qed.

(** What [extractDexInfo] returns has one of the pairs of its venue, and a
    price that is not zero. *)
Lemma extractDexInfo_pair (tx : Js.JsVal) (c : Ctx State) (info : DexInfo) :
  fst (extractDexInfo tx c) = Returned (Some info) ->
  In (dex info) DexConfig.getSupportedDexes
  /\ In (tokenPair info) (map pair_of (DexConfig.getSupportedTokens (dex info)))
  /\ ~ price info == 0.
Proof.
  unfold extractDexInfo, try_catch.
  unfold bind at 1. unfold lift_outcome at 1.
  destruct (first_some (dex_by_address tx)
              (first_some (dex_by_outMsgs tx) (dex_by_data tx))) as [[d|]|e] eqn:Hd.
  - apply identified_In in Hd.
    match goal with
    | |- fst (let (o, s1) := ?m c in _) = _ -> _ =>
        assert (Hm : shapes m); [|specialize (Hm c info); destruct (m c) as [[r|e] c1]]
    end.
    + apply shapes_bind. intros outMsgs.
      cbv zeta.
      set (tokens := DexConfig.getSupportedTokens d).
      set (fromOutMsgs := if Js.nonempty_array outMsgs then _ else _).
      assert (HfromOutMsgs :
                forall p, fst fromOutMsgs = Some p -> In p (map pair_of tokens)).
      { subst fromOutMsgs. destruct (Js.nonempty_array outMsgs); [|discriminate].
        destruct (Js.first_item outMsgs); try discriminate.
        apply pair_from_outMsg_In. }
      apply shapes_bind. intros data.
      apply shapes_bind_with
        with (R := fun fromData =>
                     forall p, fst fromData = Some p -> In p (map pair_of tokens)).
      { intros c0 fromData. destruct (_ && _).
        - unfold lift_outcome. cbn [fst]. intros H p.
          now apply (pair_from_data_In _ _ _ tokens _ _ _ (incl_refl tokens)
                       HfromOutMsgs H).
        - unfold ret. cbn [fst]. intro H. now injection H as <-. }
      intros fromData HfromData.
      assert (Hnone : shapes
                (bind (lift_outcome (Js.log_hash tx)) (fun _ =>
                 bind (if Js.truthy data
                       then lift_outcome (Js.as_string (Js.hex_or_self data))
                       else ret EmptyString) (fun _ => ret (@None DexInfo))))).
      { apply shapes_logged, shapes_bind. intros _. apply shapes_ret_None. }
      assert (Htail : forall p, In p (map pair_of tokens) ->
                shapes
                  (bind (if price_truthy (snd fromData) then ret (snd fromData)
                         else bind (in_world Math_random)
                                (fun r => ret (Some (simulated_price p r))))
                     (fun price =>
                        match price with
                        | Some q =>
                            if negb (Qzerob q)
                            then bind (lift_outcome (Js.log_hash tx))
                                   (fun _ => ret (Some (mkDexInfo d p q)))
                            else
                              bind (lift_outcome (Js.log_hash tx)) (fun _ =>
                              bind (if Js.truthy data
                                    then lift_outcome (Js.as_string (Js.hex_or_self data))
                                    else ret EmptyString) (fun _ => ret None))
                        | None =>
                            bind (lift_outcome (Js.log_hash tx)) (fun _ =>
                            bind (if Js.truthy data
                                  then lift_outcome (Js.as_string (Js.hex_or_self data))
                                  else ret EmptyString) (fun _ => ret None))
                        end))).
      { intros p Hp. apply shapes_bind. intros [q|]; [|exact Hnone].
        destruct (negb (Qzerob q)) eqn:Hq; [|exact Hnone].
        apply shapes_logged. intros c0 found H. injection H as <-.
        cbn [dex tokenPair price]. auto using Qzerob_false. }
      destruct (fst fromData) as [p|] eqn:Hp.
      * apply Htail, HfromData. reflexivity.
      * destruct (nth_error tokens 0) as [first|] eqn:Hfirst; cbn [option_map].
        -- apply Htail, in_map. now apply nth_error_In in Hfirst.
        -- apply shapes_bind. intros price. exact Hnone.
    + cbn [fst] in *. exact Hm.
    + intro H. now apply logged_null in H.
  - intro H. exfalso. revert H. unfold bind, lift_outcome, ret.
    now destruct (Js.log_hash tx).
  - intro H. now apply logged_null in H.
Qed.

Lemma configured_pair (d p : string) :
  In d DexConfig.getSupportedDexes ->
  In p (map pair_of (DexConfig.getSupportedTokens d)) ->
  In p ["TON/USDT"; "TON/USDC"; "TON/ETH"].
Proof.
  intros Hd Hp.
  change DexConfig.getSupportedDexes with ["DeDust"; "Ston.fi"; "Megaton"] in Hd.
  destruct Hd as [<-|[<-|[<-|[]]]]; exact Hp.
Qed.

End DexInfoShape.

(** X26: whatever the transaction holds, the information [extractDexInfo]
    returns for it names one of the three configured venues, one of the
    pairs TON/USDT, TON/USDC and TON/ETH configured for them, and a price
    that is not zero. *)
Theorem extractDexInfo_names_configured_pair :
  forall (tx : Js.JsVal) (c : Ctx Arbitrage.State) (info : Arbitrage.DexInfo),
    fst (Arbitrage.extractDexInfo tx c) = Returned (Some info) ->
    In (Arbitrage.dex info) ["DeDust"; "Ston.fi"; "Megaton"]
    /\ In (Arbitrage.tokenPair info) ["TON/USDT"; "TON/USDC"; "TON/ETH"]
    /\ ~ Arbitrage.price info == 0.
Proof.
  intros tx c info Hinfo.
  destruct (extractDexInfo_pair tx c info Hinfo) as (Hd & Hp & Hq).
  split; [exact Hd|]. split; [exact (configured_pair _ _ Hd Hp) | exact Hq].
Qed.

Lemma extractDexInfo_names_configured_pair_witness :
  exists info,
    fst (Arbitrage.extractDexInfo Examples.op_code_only
           (mkCtx (Arbitrage.new Arbitrage.defaultConfig) Examples.steady))
    = Returned (Some info)
    /\ In (Arbitrage.tokenPair info) ["TON/USDT"; "TON/USDC"; "TON/ETH"].
Proof.
  assert (Hinfo : exists info,
             fst (Arbitrage.extractDexInfo Examples.op_code_only
                    (mkCtx (Arbitrage.new Arbitrage.defaultConfig) Examples.steady))
             = Returned (Some info))
    by (vm_compute; eexists; reflexivity).
  destruct Hinfo as [info Hinfo]. exists info. split; [exact Hinfo|].
  exact (proj1 (proj2 (extractDexInfo_names_configured_pair _ _ info Hinfo))).
Defined.

(** ** The test for a venue against the extraction *)

Section VenueTest.
Import Arbitrage.

(** Whatever the computation returns, it has logged the hash of [tx]. *)
Local Abbreviation logs tx m :=
  (forall (c : Ctx State) (info : DexInfo),
      fst (m c) = Returned (Some info) -> Js.log_hash tx = Returned tt).

Lemma logs_bind {A} (tx : Js.JsVal) (m : M (Ctx State) A)
      (k : A -> M (Ctx State) (option DexInfo)) :
  (forall a, logs tx (k a)) -> logs tx (bind m k).
Proof.
  intros Hk c info. unfold bind.
  destruct (m c) as [[a|e] c1]; [apply Hk | discriminate].
Qed.

Lemma logs_ret_None (tx : Js.JsVal) : logs tx (ret None).
Proof. intros c info. discriminate. Qed.

Lemma logs_hash (tx : Js.JsVal) (k : unit -> M (Ctx State) (option DexInfo)) :
  logs tx (bind (lift_outcome (Js.log_hash tx)) k).
Proof.
  intros c info. unfold bind, lift_outcome.
  destruct (Js.log_hash tx) as [[]|e]; [reflexivity | discriminate].
Qed.

Ltac logs_step :=
  first
    [ apply logs_ret_None | apply logs_hash
    | apply logs_bind; intros ?
    | match goal with
      | |- forall c info, fst (match ?x with _ => _ end c) = _ -> _ => destruct x
      | |- forall c info, fst ((if ?b then _ else _) c) = _ -> _ => destruct b
      end ].

Lemma extractDexInfo_logs (tx : Js.JsVal) (c : Ctx State) (info : DexInfo) :
  fst (extractDexInfo tx c) = Returned (Some info) -> Js.log_hash tx = Returned tt.
Proof.
  unfold extractDexInfo, try_catch.
  match goal with
  | |- fst (match ?m c with _ => _ end) = _ -> _ =>
      assert (Hm : logs tx m) by (repeat logs_step);
      specialize (Hm c info); destruct (m c) as [[r|e] c1]
  end.
  - exact Hm.
  - intro H. now apply logged_null in H.
Qed.

End VenueTest.

(** X28: [isDexTransaction] rejects no transaction that [extractDexInfo]
    can read: whenever [extractDexInfo] returns information for a
    transaction, [isDexTransaction] answers [true] for it. *)
Theorem isDexTransaction_accepts_what_is_extracted :
  forall (tx : Js.JsVal) (c : Ctx Arbitrage.State) (info : Arbitrage.DexInfo),
    fst (Arbitrage.extractDexInfo tx c) = Returned (Some info) ->
    Arbitrage.isDexTransaction tx = Returned true.
Proof.
  intros tx c info Hinfo.
  pose proof (extractDexInfo_logs tx c info Hinfo) as Hlog.
  apply extractDexInfo_venue in Hinfo.
  unfold Arbitrage.isDexTransaction, Arbitrage.found_and_logged.
  unfold Arbitrage.first_some, Arbitrage.bind_outcome in *. rewrite Hlog.
  destruct (Arbitrage.dex_by_address tx) as [[byAddress|]|e]; [reflexivity | | discriminate].
  destruct (Arbitrage.dex_by_outMsgs tx) as [[byOutMsgs|]|e]; [reflexivity | | discriminate].
  destruct (Arbitrage.dex_by_data tx) as [[byData|]|e]; [reflexivity | discriminate..].
Qed.

Lemma isDexTransaction_accepts_what_is_extracted_witness :
  exists info,
    fst (Arbitrage.extractDexInfo Examples.buffer_addressed
           (mkCtx (Arbitrage.new Arbitrage.defaultConfig) Examples.steady))
    = Returned (Some info)
    /\ Arbitrage.isDexTransaction Examples.buffer_addressed = Returned true.
Proof.
  assert (Hinfo : exists info,
             fst (Arbitrage.extractDexInfo Examples.buffer_addressed
                    (mkCtx (Arbitrage.new Arbitrage.defaultConfig) Examples.steady))
             = Returned (Some info))
    by (vm_compute; eexists; reflexivity).
  destruct Hinfo as [info Hinfo]. exists info. split; [exact Hinfo|].
  exact (isDexTransaction_accepts_what_is_extracted _ _ info Hinfo).
Defined.

(** ** The two extractors of transactions *)

(** X10: the extractor of the arbitrage strategy and the extractor of the
    packet source return the same transactions for every packet, except for
    a packet recognized by its [externalMessages] only: there the strategy's
    extractor finds nothing and the source's returns those messages. *)
Theorem extractors_differ_on_externalMessages_only :
  forall packet : MempoolPacket,
    Arbitrage.extractTransactions packet = Searcher.extractTransactionsFromPacket packet
    \/ (Arbitrage.extractTransactions packet = []
        /\ packet_transactions packet = None
        /\ Js.get (packet_data packet) "externalMessages"
           = Returned (Js.JArr (Searcher.extractTransactionsFromPacket packet))).
Proof.
  intro packet.
  unfold Arbitrage.extractTransactions, Searcher.extractTransactionsFromPacket.
  destruct (packet_transactions packet) as [txs|]; [now left|].
  destruct (Js.truthy (packet_data packet)); [|now left].
  destruct (Js.get (packet_data packet) "transactions") as [[]|]; try (now left);
    (destruct (Js.get (packet_data packet) "messages") as [[]|]; try (now left);
     destruct (packet_data packet) eqn:Hdata; try (now left);
     destruct (Js.get _ "externalMessages") as [[]|] eqn:Hext; try (now left);
     right; repeat split; reflexivity).
Qed.

(** ** Queries on the manager's store *)

Section Queries.
Import StrategyManager.

Lemma Qle_bool_trans (x y z : Q) :
  Qle_bool x y = true -> Qle_bool y z = true -> Qle_bool x z = true.
Proof. rewrite !Qle_bool_iff. apply Qle_trans. Qed.

Lemma insert_before_all (x : MEVOpportunity) (l : list MEVOpportunity) :
  Forall (fun y => Qle_bool (profitEstimate y) (profitEstimate x) = true) l ->
  insert_by_profit x l = x :: l.
Proof.
  intro H. destruct l as [|y l]; [reflexivity|].
  cbn [insert_by_profit]. inversion H; subst.
  match goal with Hy : Qle_bool _ _ = true |- _ => now rewrite Hy end.
Qed.

Lemma Forall_descending (x : MEVOpportunity) (l : list MEVOpportunity) :
  Forall (descending x) l ->
  Forall (fun y => Qle_bool (profitEstimate y) (profitEstimate x) = true) l.
Proof.
  apply Forall_impl. intros y H. now apply Qle_bool_iff.
Qed.

(** Sorting a list that is already sorted leaves it as it is. *)
Lemma sort_by_profit_sorted_id (l : list MEVOpportunity) :
  StronglySorted descending l -> sort_by_profit l = l.
Proof.
  induction 1 as [|x l Hl IH Hx]; [reflexivity|].
  unfold sort_by_profit in *. cbn [fold_right]. rewrite IH.
  apply insert_before_all. now apply Forall_descending.
Qed.

(** Filtering commutes with the insertion into a sorted list: the sort is
    stable. *)
Lemma filter_insert_by_profit (p : MEVOpportunity -> bool) (x : MEVOpportunity)
      (l : list MEVOpportunity) :
  StronglySorted descending l ->
  filter p (insert_by_profit x l)
  = if p x then insert_by_profit x (filter p l) else filter p l.
Proof.
  induction 1 as [|y l Hl IH Hy].
  - cbn. now destruct (p x).
  - cbn [insert_by_profit].
    destruct (Qle_bool (profitEstimate y) (profitEstimate x)) eqn:Hyx.
    + change (filter p (x :: y :: l))
        with (if p x then x :: filter p (y :: l) else filter p (y :: l)).
      destruct (p x); [|reflexivity].
      symmetry. apply insert_before_all.
      assert (Hall : Forall (fun z => Qle_bool (profitEstimate z) (profitEstimate x) = true)
                         (y :: l)).
      { constructor; [exact Hyx|].
        apply Forall_descending in Hy. revert Hy. apply Forall_impl.
        intros z Hz. now apply Qle_bool_trans with (profitEstimate y). }
      apply Forall_forall. intros z Hz. apply filter_In in Hz.
      rewrite Forall_forall in Hall. now apply Hall.
    + cbn [filter]. rewrite IH.
      destruct (p y), (p x); cbn [insert_by_profit]; try rewrite Hyx; reflexivity.
Qed.

Lemma filter_sort_by_profit (p : MEVOpportunity -> bool) (l : list MEVOpportunity) :
  filter p (sort_by_profit l) = sort_by_profit (filter p l).
Proof.
  induction l as [|x l IH]; [reflexivity|].
  unfold sort_by_profit in *. cbn [fold_right filter].
  rewrite filter_insert_by_profit by apply sort_by_profit_sorted.
  rewrite IH. now destruct (p x).
Qed.

Lemma sort_by_profit_idempotent (l : list MEVOpportunity) :
  sort_by_profit (sort_by_profit l) = sort_by_profit l.
Proof. apply sort_by_profit_sorted_id, sort_by_profit_sorted. Qed.

(** The answer of a query, read off the store. *)
Lemma fst_getOpportunities (limit : Z) (strategyFilter : option string) (m : State) :
  fst (getOpportunities limit strategyFilter m)
  = let ranked :=
      sort_by_profit
        match given strategyFilter with
        | Some f => filter (fun opp => String.eqb (strategy opp) f) (opportunities m)
        | None => opportunities m
        end in
    if (limit >? 0)%Z && (Z.of_nat (List.length ranked) >? limit)%Z
    then firstn (Z.to_nat limit) ranked else ranked.
Proof.
  unfold getOpportunities. cbv zeta.
  destruct (given strategyFilter); cbn [fst snd];
    match goal with |- context [if ?b then _ else _] => now destruct b end.
Qed.

(** The state a query leaves. *)
Lemma snd_getOpportunities (limit : Z) (strategyFilter : option string) (m : State) :
  let after := snd (getOpportunities limit strategyFilter m) in
  strategies after = strategies m
  /\ lastAnalysisTime after = lastAnalysisTime m
  /\ emitted after = emitted m
  /\ logged after = logged m
  /\ opportunities after
     = match given strategyFilter with
       | Some _ => opportunities m
       | None => sort_by_profit (opportunities m)
       end.
Proof.
  unfold getOpportunities. cbv zeta.
  destruct (given strategyFilter); cbn [fst snd];
    match goal with |- context [if ?b then _ else _] => destruct b end;
    cbn; repeat split; reflexivity.
Qed.

Lemma answer_of_store (limit : Z) (strategyFilter : option string) (m m' : State) :
  opportunities m' = opportunities m
  \/ opportunities m' = sort_by_profit (opportunities m) ->
  fst (getOpportunities limit strategyFilter m')
  = fst (getOpportunities limit strategyFilter m).
Proof.
  intros H. rewrite !fst_getOpportunities. cbv zeta.
  destruct H as [-> | ->]; [reflexivity|].
  destruct (given strategyFilter).
  - now rewrite filter_sort_by_profit, sort_by_profit_idempotent.
  - now rewrite sort_by_profit_idempotent.
Qed.

Lemma given_Some (f : string) : f <> "" -> given (Some f) = Some f.
Proof. intro H. cbn. destruct (String.eqb_spec f ""); [contradiction | reflexivity]. Qed.

Lemma clearOpportunities_store (f : string) (m : State) :
  f <> "" ->
  strategies (clearOpportunities (Some f) m) = strategies m
  /\ opportunities (clearOpportunities (Some f) m)
     = sort_by_profit
         (filter (fun opp => negb (String.eqb (strategy opp) f)) (opportunities m)).
Proof.
  intro Hf. unfold clearOpportunities. rewrite (given_Some f Hf).
  destruct (emitUpdated_store
              (write_log (mkLog LInfo "Opportunities cleared for strategy" (Some f))
                 (mkState (strategies m)
                    (filter (fun opp => negb (String.eqb (strategy opp) f)) (opportunities m))
                    (lastAnalysisTime m) (emitted m) (logged m)))) as [H1 H2].
  now rewrite H1, H2.
Qed.

Lemma emitUpdated_emits (m : State) :
  emitted (emitUpdated m) = emitted m ++ [fst (getOpportunities 20 None m)]
  /\ fst (getOpportunities 20 None (emitUpdated m)) = fst (getOpportunities 20 None m).
Proof.
  split.
  - unfold emitUpdated.
    destruct (snd_getOpportunities 20 None m) as (_ & _ & Hemitted & _).
    destruct (getOpportunities 20 None m) as [top m1]. cbn in *. now rewrite Hemitted.
  - apply answer_of_store. right. apply emitUpdated_store.
Qed.

Lemma top_twenty (m : State) :
  (List.length (fst (getOpportunities 20 None m)) <= 20)%nat.
Proof.
  rewrite fst_getOpportunities. cbv zeta.
  change (20 >? 0)%Z with true. cbn [andb].
  destruct (_ >? 20)%Z eqn:Hmore.
  - rewrite length_firstn. apply Nat.le_min_l.
  - rewrite Z.gtb_ltb in Hmore. apply Z.ltb_ge in Hmore. lia.
Qed.

End Queries.

(** X11: a query on the manager's store changes neither the answer to any
    later query nor the contents of the store: without a filter it leaves the
    store sorted, a permutation of what it was; with a filter it leaves the
    manager as it is.  The registry and the emitted events are untouched. *)
Theorem queries_do_not_interfere :
  forall (m : StrategyManager.State) (limit limit' : Z)
         (strategyFilter strategyFilter' : option string),
    let after := snd (StrategyManager.getOpportunities limit strategyFilter m) in
    fst (StrategyManager.getOpportunities limit' strategyFilter' after)
    = fst (StrategyManager.getOpportunities limit' strategyFilter' m)
    /\ Permutation (StrategyManager.opportunities after) (StrategyManager.opportunities m)
    /\ StrategyManager.strategies after = StrategyManager.strategies m
    /\ StrategyManager.emitted after = StrategyManager.emitted m
    /\ (forall f, StrategyManager.given strategyFilter = Some f -> after = m).
Proof.
  intros m limit limit' strategyFilter strategyFilter' after.
  destruct (snd_getOpportunities limit strategyFilter m)
    as (Hstrategies & _ & Hemitted & _ & Hstore).
  fold after in Hstrategies, Hemitted, Hstore.
  split; [|split; [|split; [|split]]]; try assumption.
  - apply answer_of_store. rewrite Hstore.
    destruct (StrategyManager.given strategyFilter); [now left | now right].
  - rewrite Hstore. destruct (StrategyManager.given strategyFilter);
      [reflexivity | apply sort_by_profit_perm].
  - intros f Hf. unfold after, StrategyManager.getOpportunities. rewrite Hf.
    cbv zeta. match goal with |- context [if ?b then _ else _] => now destruct b end.
Qed.

(** X12: a query returns as many opportunities as the store holds for the
    filter, or [limit] of them when [limit] is positive and smaller; with a
    limit of zero or less the answer is a permutation of all of them. *)
Theorem getOpportunities_count :
  forall (m : StrategyManager.State) (limit : Z) (strategyFilter : option string),
    let matching :=
      match StrategyManager.given strategyFilter with
      | Some f => filter (fun opp => String.eqb (strategy opp) f)
                         (StrategyManager.opportunities m)
      | None => StrategyManager.opportunities m
      end in
    let answer := fst (StrategyManager.getOpportunities limit strategyFilter m) in
    List.length answer
    = (if (0 <? limit)%Z then Nat.min (Z.to_nat limit) (List.length matching)
       else List.length matching)
    /\ ((limit <= 0)%Z -> Permutation answer matching).
Proof.
  intros m limit strategyFilter matching answer.
  unfold answer. rewrite fst_getOpportunities. cbv zeta. fold matching.
  pose proof (Permutation_length (sort_by_profit_perm matching)) as Hlen.
  rewrite Z.gtb_ltb.
  destruct (0 <? limit)%Z eqn:Hpos; cbn [andb].
  - apply Z.ltb_lt in Hpos. rewrite Z.gtb_ltb.
    destruct (limit <? _)%Z eqn:Hmore.
    + apply Z.ltb_lt in Hmore. split; [|lia].
      rewrite length_firstn, Hlen in *. lia.
    + apply Z.ltb_ge in Hmore. split; [|lia]. rewrite Hlen in *. lia.
  - apply Z.ltb_ge in Hpos. split; [exact Hlen | intros _; apply sort_by_profit_perm].
Qed.

(** X13: after the opportunities of one strategy are cleared from the
    manager's store, a query for that strategy returns nothing and a query
    for any other strategy returns what it returned before; the registered
    strategy objects, and so their own histories, are not touched. *)
Theorem clearing_one_strategy :
  forall (m : StrategyManager.State) (f : string) (limit : Z),
    f <> "" ->
    let after := StrategyManager.clearOpportunities (Some f) m in
    fst (StrategyManager.getOpportunities limit (Some f) after) = []
    /\ (forall g, g <> "" -> g <> f ->
          fst (StrategyManager.getOpportunities limit (Some g) after)
          = fst (StrategyManager.getOpportunities limit (Some g) m))
    /\ StrategyManager.strategies after = StrategyManager.strategies m.
Proof.
  intros m f limit Hf after.
  destruct (clearOpportunities_store f m Hf) as [Hstrategies Hstore].
  fold after in Hstrategies, Hstore.
  split; [|split; [|exact Hstrategies]].
  - rewrite fst_getOpportunities, Hstore, (given_Some f Hf). cbv zeta.
    rewrite filter_sort_by_profit, filter_filter_same.
    cbn [StrategyManager.sort_by_profit fold_right List.length].
    destruct (_ && _); [apply firstn_nil | reflexivity].
  - intros g Hgiven Hg.
    rewrite !fst_getOpportunities, Hstore, (given_Some g Hgiven). cbv zeta.
    now rewrite filter_sort_by_profit, sort_by_profit_idempotent,
      (filter_filter_other g f) by exact Hg.
Qed.

Lemma clearing_one_strategy_witness :
  let after :=
    StrategyManager.clearOpportunities (Some "arbitrage") Examples.three_opportunities in
  fst (StrategyManager.getOpportunities 0 (Some "arbitrage") after) = []
  /\ fst (StrategyManager.getOpportunities 0 (Some "sandwich") after)
     = [Examples.opportunity_of "sandwich" 3].
Proof.
  assert (Hf : "arbitrage" <> "") by discriminate.
  destruct (clearing_one_strategy Examples.three_opportunities "arbitrage" 0 Hf)
    as (Hcleared & Hothers & _).
  split; [exact Hcleared|].
  rewrite (Hothers "sandwich") by discriminate. reflexivity.
Defined.

(** X14: when [analyzePacket] finds opportunities it emits one
    [opportunitiesUpdated] event, whose payload is what a query for the top
    twenty returns right after: at most twenty opportunities, by descending
    profit; when it finds none it emits nothing. *)
Theorem analyzePacket_notifies_top_twenty :
  forall (packet : MempoolPacket) (c : Ctx StrategyManager.State),
    Js.truthy (packet_data packet) = true ->
    let after := self (snd (StrategyManager.analyzePacket packet c)) in
    let top := fst (StrategyManager.getOpportunities 20 None after) in
    exists found,
      fst (StrategyManager.analyzePacket packet c) = Returned found
      /\ (found = [] -> StrategyManager.emitted after = StrategyManager.emitted (self c))
      /\ (found <> [] ->
          StrategyManager.emitted after = StrategyManager.emitted (self c) ++ [top]
          /\ (List.length top <= 20)%nat
          /\ StronglySorted descending top).
Proof.
  intros packet c Hdata after top. subst top after.
  unfold StrategyManager.analyzePacket. rewrite Hdata. cbn [negb].
  destruct (Date_now (world c)) as [startTime w1].
  destruct (StrategyManager.runStrategies packet _ _) as [strategies1 f].
  destruct (Date_now (StrategyManager.env f)) as [endTime w2].
  exists (StrategyManager.newOpportunities f). cbn [fst snd self].
  split; [reflexivity|].
  destruct (StrategyManager.newOpportunities f) as [|o found].
  - split; [reflexivity | congruence].
  - split; [discriminate|]. intros _.
    match goal with
    | |- context [StrategyManager.emitUpdated ?m] =>
        destruct (emitUpdated_emits m) as [Hemitted Htop];
        rewrite Hemitted, Htop; split; [reflexivity|]; split; [apply top_twenty|]
    end.
    match goal with
    | |- StronglySorted _ (fst (StrategyManager.getOpportunities ?l ?f ?m)) =>
        destruct (getOpportunities_ranked l f m) as (ranked & Hsorted & _ & _ & ->)
    end.
    destruct (_ && _); [now apply firstn_sorted | exact Hsorted].
Qed.

Lemma analyzePacket_notifies_top_twenty_witness :
  let after :=
    self (snd (StrategyManager.analyzePacket Examples.large_swap_packet
                 (mkCtx StrategyManager.new Examples.steady))) in
  StrategyManager.emitted after
  = [fst (StrategyManager.getOpportunities 20 None after)].
Proof.
  destruct (analyzePacket_notifies_top_twenty Examples.large_swap_packet
              (mkCtx StrategyManager.new Examples.steady) eq_refl)
    as (found & Hfound & _ & Hsome).
  apply Hsome. intros ->. vm_compute in Hfound. discriminate.
Defined.

(** ** The registry of strategies *)

Section Registry.
Import PriceCache.
Context {V : Type}.
Implicit Types (o : list (string * V)) (k : string) (v : V).

Lemma obj_get_None_keys k o : obj_get k o = None <-> ~ In k (map fst o).
Proof.
  induction o as [|[k' v'] o IH]; cbn; [tauto|].
  destruct (String.eqb_spec k k') as [->|Hne].
  - split; [discriminate | intro H; exfalso; apply H; now left].
  - rewrite IH. split; [intros H [Heq|Hin]; [congruence | contradiction] | tauto].
Qed.

Lemma obj_get_delete_same k o :
  NoDup (map fst o) -> obj_get k (obj_delete k o) = None.
Proof.
  induction o as [|[k' v'] o IH]; cbn; [reflexivity|].
  intro H. inversion H as [|? ? Hnotin Hrest]; subst.
  destruct (String.eqb_spec k k') as [->|Hne].
  - now apply obj_get_None_keys.
  - cbn. destruct (String.eqb_spec k k'); [contradiction | now apply IH].
Qed.

Lemma keys_obj_set_present k v o :
  obj_get k o <> None -> map fst (obj_set k v o) = map fst o.
Proof.
  induction o as [|[k' v'] o IH]; cbn; [congruence|].
  destruct (String.eqb_spec k k') as [->|Hne]; cbn; [reflexivity|].
  intro H. now rewrite IH.
Qed.

Lemma length_obj_delete k o :
  obj_get k o <> None -> S (List.length (obj_delete k o)) = List.length o.
Proof.
  induction o as [|[k' v'] o IH]; cbn; [congruence|].
  destruct (String.eqb_spec k k') as [->|Hne]; cbn; [reflexivity|].
  intro H. now rewrite IH.
Qed.

End Registry.

(** X15: the registry behaves as a map keyed by the strategies' names.  A
    registered strategy is found under its name and the other names are not
    affected; registering under a name already taken replaces the strategy
    in place, so that the order in which strategies run is kept; an
    unregistered name is no longer found, the other names are not affected,
    and unregistering an unknown name changes nothing.  Names stay unique. *)
Theorem registry_round_trip :
  forall (m : StrategyManager.State) (s : AnyStrategy) (n : string),
    NoDup (map fst (StrategyManager.strategies m)) ->
    StrategyManager.getStrategy (nameOf s) (StrategyManager.registerStrategy s m) = Some s
    /\ (n <> nameOf s ->
        StrategyManager.getStrategy n (StrategyManager.registerStrategy s m)
        = StrategyManager.getStrategy n m)
    /\ (StrategyManager.getStrategy (nameOf s) m <> None ->
        map fst (StrategyManager.strategies (StrategyManager.registerStrategy s m))
        = map fst (StrategyManager.strategies m))
    /\ StrategyManager.getStrategy n (StrategyManager.unregisterStrategy n m) = None
    /\ (forall n', n' <> n ->
          StrategyManager.getStrategy n' (StrategyManager.unregisterStrategy n m)
          = StrategyManager.getStrategy n' m)
    /\ (StrategyManager.getStrategy n m = None ->
        StrategyManager.unregisterStrategy n m = m)
    /\ NoDup (map fst (StrategyManager.strategies (StrategyManager.registerStrategy s m)))
    /\ NoDup (map fst (StrategyManager.strategies (StrategyManager.unregisterStrategy n m))).
Proof.
  intros m s n Hkeys.
  unfold StrategyManager.getStrategy, StrategyManager.registerStrategy,
    StrategyManager.unregisterStrategy, StrategyManager.write_log.
  cbn [StrategyManager.strategies].
  split; [apply obj_get_set_same|].
  split; [intro Hn; now apply obj_get_set_other|].
  split; [apply keys_obj_set_present|].
  destruct (PriceCache.obj_get n (StrategyManager.strategies m)) eqn:Hget;
    cbn [StrategyManager.strategies].
  - split; [now apply obj_get_delete_same|].
    split; [intros n' Hn'; now apply obj_get_delete_other|].
    split; [discriminate|].
    split; [now apply NoDup_obj_set | now apply NoDup_obj_delete].
  - split; [exact Hget|].
    split; [reflexivity|].
    split; [reflexivity|].
    split; [now apply NoDup_obj_set | exact Hkeys].
Qed.

Lemma registry_round_trip_witness :
  StrategyManager.getStrategy "sandwich"
    (StrategyManager.unregisterStrategy "sandwich" StrategyManager.new) = None
  /\ map fst (StrategyManager.strategies
                (StrategyManager.registerStrategy
                   (Pack (Arbitrage.new Examples.threshold_one_percent))
                   StrategyManager.new))
     = ["arbitrage"; "sandwich"].
Proof.
  destruct (registry_round_trip StrategyManager.new
              (Pack (Arbitrage.new Examples.threshold_one_percent)) "sandwich"
              (proj1 new_manager_sound))
    as (_ & _ & Hkeys & Hgone & _).
  split; [exact Hgone|].
  apply Hkeys. discriminate.
Defined.

(** ** The statistics of the manager *)

Section ManagerStatistics.
Import StrategyManager.

Lemma list_sum_cons (x : nat) (l : list nat) : list_sum (x :: l) = (x + list_sum l)%nat.
Proof. reflexivity. Qed.

Lemma count_one (s : string) (keys : list string) :
  NoDup keys -> In s keys ->
  list_sum (map (fun k => if String.eqb s k then 1%nat else 0%nat) keys) = 1%nat.
Proof.
  induction 1 as [|k keys Hnotin Hkeys IH]; [intros []|].
  cbn [map]. rewrite list_sum_cons. intros [->|Hin].
  - rewrite String.eqb_refl.
    assert (Hrest : list_sum (map (fun k => if String.eqb s k then 1%nat else 0%nat) keys)
                    = 0%nat).
    { clear IH Hkeys. induction keys as [|k keys IH]; [reflexivity|].
      cbn [map]. rewrite list_sum_cons. destruct (String.eqb_spec s k) as [->|Hne].
      - exfalso. apply Hnotin. now left.
      - rewrite IH; [reflexivity|]. intro H. apply Hnotin. now right. }
    now rewrite Hrest.
  - destruct (String.eqb_spec s k) as [->|Hne]; [contradiction|].
    now rewrite IH.
Qed.

(** Opportunities that bear registered names, counted by name. *)
Lemma count_by_name (keys : list string) (st : list MEVOpportunity) :
  NoDup keys ->
  Forall (fun opp => In (strategy opp) keys) st ->
  list_sum (map (fun k => List.length
                            (filter (fun opp => String.eqb (strategy opp) k) st)) keys)
  = List.length st.
Proof.
  intros Hkeys. induction 1 as [|x st Hx Hst IH]; cbn [filter List.length].
  - induction keys; [reflexivity|]. cbn. inversion Hkeys; subst. auto.
  - transitivity
      (list_sum (map (fun k => if String.eqb (strategy x) k then 1%nat else 0%nat) keys)
       + list_sum (map (fun k => List.length
                                   (filter (fun opp => String.eqb (strategy opp) k) st))
                       keys))%nat.
    + clear. induction keys as [|k keys IHk]; [reflexivity|].
      cbn [map]. rewrite !list_sum_cons, IHk.
      destruct (String.eqb (strategy x) k); cbn [List.length]; lia.
    + now rewrite IH, (count_one (strategy x) keys Hkeys Hx).
Qed.

End ManagerStatistics.

(** X16: in a manager whose store agrees with the histories of its
    strategies and holds only opportunities that bear a registered name, the
    statistics add up: the total number of opportunities is the sum of the
    strategies' counts. *)
Theorem getStatistics_counts_add_up :
  forall m : StrategyManager.State,
    in_step m ->
    Forall (fun opp => In (strategy opp) (map fst (StrategyManager.strategies m)))
           (StrategyManager.opportunities m) ->
    let stats := StrategyManager.getStatistics m in
    StrategyManager.totalOpportunities stats
    = list_sum (map StrategyManager.opportunitiesCount (StrategyManager.strategyStats stats)).
Proof.
  intros m [[Hkeys Hsound] Hagree] Hsigned stats.
  unfold stats, StrategyManager.getStatistics.
  cbn [StrategyManager.totalOpportunities StrategyManager.strategyStats].
  rewrite <- (count_by_name _ _ Hkeys Hsigned). rewrite !map_map.
  f_equal. apply map_ext_in. intros kv Hin.
  rewrite Forall_forall in Hsound, Hagree.
  destruct (Hsound kv Hin) as [Hname _]. specialize (Hagree kv Hin).
  unfold agrees in Hagree. rewrite Hname.
  cbn [StrategyManager.statisticsOf StrategyManager.opportunitiesCount].
  now apply Permutation_length.
Qed.

Lemma getStatistics_counts_add_up_witness :
  let m := self (snd (StrategyManager.analyzePacket Examples.large_swap_packet
                        (mkCtx StrategyManager.new Examples.steady))) in
  StrategyManager.totalOpportunities (StrategyManager.getStatistics m)
  = list_sum (map StrategyManager.opportunitiesCount
                  (StrategyManager.strategyStats (StrategyManager.getStatistics m)))
  /\ StrategyManager.totalOpportunities (StrategyManager.getStatistics m) = 1%nat.
Proof.
  cbv zeta.
  assert (Hnew : in_step StrategyManager.new).
  { split; [exact new_manager_sound|].
    constructor; [apply perm_nil | constructor; [apply perm_nil | constructor]]. }
  pose proof (analyzePacket_in_step Examples.large_swap_packet
                (mkCtx StrategyManager.new Examples.steady) Hnew) as Hstep.
  assert (Hsigned :
    Forall (fun opp =>
              In (strategy opp)
                 (map fst (StrategyManager.strategies
                             (self (snd (StrategyManager.analyzePacket
                                           Examples.large_swap_packet
                                           (mkCtx StrategyManager.new Examples.steady)))))))
           (StrategyManager.opportunities
              (self (snd (StrategyManager.analyzePacket
                            Examples.large_swap_packet
                            (mkCtx StrategyManager.new Examples.steady))))))
    by (vm_compute; repeat constructor).
  pose proof (getStatistics_counts_add_up _ Hstep Hsigned) as Htotal.
  split; [exact Htotal | vm_compute; reflexivity].
Defined.

(** ** The capacity and the clean-up of the price cache *)

Section Eviction.
Import PriceCache CacheTrace.

Local Abbreviation older a b := (timestamp (snd a) <= timestamp (snd b))%Z.

Lemma insert_by_age_perm (x : string * Entry) (l : Pairs) :
  Permutation (insert_by_age x l) (x :: l).
Proof.
  induction l as [|y l IH]; cbn [insert_by_age]; [reflexivity|].
  destruct (_ <=? _)%Z; [reflexivity|].
  rewrite IH. apply perm_swap.
Qed.

Lemma sort_by_age_perm (l : Pairs) : Permutation (sort_by_age l) l.
Proof.
  induction l as [|x l IH]; [reflexivity|].
  unfold sort_by_age in *. cbn [fold_right].
  rewrite insert_by_age_perm. now constructor.
Qed.

Lemma insert_by_age_sorted (x : string * Entry) (l : Pairs) :
  StronglySorted (fun a b => older a b) l ->
  StronglySorted (fun a b => older a b) (insert_by_age x l).
Proof.
  induction 1 as [|y l Hl IH Hy]; cbn [insert_by_age].
  - repeat constructor.
  - destruct (Z.leb_spec (timestamp (snd x)) (timestamp (snd y))) as [Hxy|Hyx].
    + constructor; [now constructor|].
      constructor; [exact Hxy|].
      revert Hy. apply Forall_impl. intros z Hz. lia.
    + constructor; [exact IH|].
      apply (Permutation_Forall (x := x :: l));
        [symmetry; apply insert_by_age_perm|].
      constructor; [lia | exact Hy].
Qed.

Lemma sort_by_age_sorted (l : Pairs) :
  StronglySorted (fun a b => older a b) (sort_by_age l).
Proof.
  induction l as [|x l IH]; [constructor|].
  unfold sort_by_age in *. cbn [fold_right]. now apply insert_by_age_sorted.
Qed.

(** In a sorted list, the items taken from the front are not newer than
    the ones left. *)
Lemma sorted_front_older (n : nat) (l : Pairs) :
  StronglySorted (fun a b => older a b) l ->
  forall a b, In a (firstn n l) -> In b (skipn n l) -> older a b.
Proof.
  intro Hl. revert n. induction Hl as [|x l Hl IH Hx]; intros n a b.
  - now rewrite firstn_nil.
  - destruct n as [|n]; cbn [firstn skipn]; [intros []|].
    intros [<-|Ha] Hb.
    + rewrite Forall_forall in Hx. apply Hx.
      rewrite <- (firstn_skipn n l). apply in_or_app. now right.
    + now apply (IH n).
Qed.

Lemma In_keys_delete_other (k k' : string) (o : Pairs) :
  k' <> k -> In k' (map fst o) -> In k' (map fst (obj_delete k o)).
Proof.
  intro Hne. induction o as [|[k0 v0] o IH]; cbn; [tauto|].
  destruct (String.eqb_spec k k0) as [->|Hk]; cbn.
  - intros [Heq|Hin]; [congruence | exact Hin].
  - intros [Heq|Hin]; [now left | right; now apply IH].
Qed.

Lemma In_delete_other (k : string) (y : string * Entry) (o : Pairs) :
  fst y <> k -> In y o -> In y (obj_delete k o).
Proof.
  intro Hne. induction o as [|[k0 v0] o IH]; cbn; [tauto|].
  destruct (String.eqb_spec k k0) as [->|Hk]; cbn.
  - intros [Heq|Hin]; [subst y; now cbn in Hne | exact Hin].
  - intros [Heq|Hin]; [now left | right; now apply IH].
Qed.

Lemma not_In_keys_delete (k : string) (o : Pairs) :
  NoDup (map fst o) -> ~ In k (map fst (obj_delete k o)).
Proof.
  intros Hkeys Hin. apply (obj_get_None_keys k (obj_delete k o)); [|exact Hin].
  now apply obj_get_delete_same.
Qed.

(** Deleting the keys of [victims], each held once, takes that many
    entries away. *)
Lemma length_fold_delete (victims : Pairs) :
  forall o : Pairs,
    NoDup (map fst o) -> NoDup (map fst victims) -> incl (map fst victims) (map fst o) ->
    (List.length (fold_left (fun o kv => obj_delete (fst kv) o) victims o)
     + List.length victims = List.length o)%nat.
Proof.
  induction victims as [|v victims IH]; intros o Ho Hv Hincl; cbn [fold_left List.length].
  - lia.
  - cbn [map] in Hv, Hincl. inversion Hv as [|? ? Hnotin Hrest]; subst.
    assert (Hin : In (fst v) (map fst o)) by (apply Hincl; now left).
    assert (Hget : obj_get (fst v) o <> None)
      by (intro Hnone; now apply obj_get_None_keys in Hnone).
    pose proof (length_obj_delete (fst v) o Hget) as Hone.
    assert (Hother : incl (map fst victims) (map fst (obj_delete (fst v) o))).
    { intros k Hk. apply In_keys_delete_other.
      - intros ->. contradiction.
      - apply Hincl. now right. }
    pose proof (IH (obj_delete (fst v) o) (NoDup_obj_delete _ _ Ho) Hrest Hother).
    lia.
Qed.

Lemma fold_delete_keeps (victims : Pairs) :
  forall (o : Pairs) y,
    In y o -> ~ In (fst y) (map fst victims) ->
    In y (fold_left (fun o kv => obj_delete (fst kv) o) victims o).
Proof.
  induction victims as [|v victims IH]; intros o y Hy Hnot; cbn [fold_left]; [exact Hy|].
  apply IH.
  - apply In_delete_other; [|exact Hy]. intro Heq. apply Hnot. left. now symmetry.
  - intro H. apply Hnot. now right.
Qed.

Lemma fold_delete_drops (victims : Pairs) :
  forall (o : Pairs) k,
    NoDup (map fst o) -> In k (map fst victims) ->
    ~ In k (map fst (fold_left (fun o kv => obj_delete (fst kv) o) victims o)).
Proof.
  induction victims as [|v victims IH]; intros o k Ho; cbn [fold_left map]; [intros []|].
  intros [<-|Hin].
  - intro H. apply in_map_iff in H. destruct H as (y & Hk & Hy).
    apply In_fold_delete in Hy.
    apply (not_In_keys_delete (fst v) o Ho). apply in_map_iff. now exists y.
  - apply IH; [now apply NoDup_obj_delete | exact Hin].
Qed.

Lemma victims_keys (n : nat) (ps : Pairs) :
  NoDup (map fst ps) ->
  NoDup (map fst (firstn n (sort_by_age ps)))
  /\ incl (map fst (firstn n (sort_by_age ps))) (map fst ps).
Proof.
  intro Hps.
  assert (Hsorted : NoDup (map fst (sort_by_age ps))).
  { apply (Permutation_NoDup (l := map fst ps)); [|exact Hps].
    apply Permutation_map. symmetry. apply sort_by_age_perm. }
  split.
  - rewrite <- (firstn_skipn n (sort_by_age ps)), map_app in Hsorted.
    now apply NoDup_app_remove_r in Hsorted.
  - intros k Hk. apply in_map_iff in Hk. destruct Hk as (y & <- & Hy).
    apply in_map. apply In_firstn in Hy.
    now apply (Permutation_in _ (sort_by_age_perm ps)).
Qed.

Lemma length_evict_oldest (ps : Pairs) :
  NoDup (map fst ps) -> (List.length (evict_oldest ps) <= MAX_CACHE_SIZE)%nat.
Proof.
  intro Hps. unfold evict_oldest.
  destruct (Nat.ltb_spec MAX_CACHE_SIZE (List.length ps)) as [Hmore|Hfits]; [|exact Hfits].
  destruct (victims_keys (List.length ps - MAX_CACHE_SIZE) ps Hps) as [Hv Hincl].
  pose proof (length_fold_delete _ ps Hps Hv Hincl) as Hlen.
  rewrite length_firstn, (Permutation_length (sort_by_age_perm ps)) in Hlen.
  lia.
Qed.

End Eviction.

Section CacheInvariant.
Import PriceCache CacheTrace.

Lemma Forall_obj_set {V : Type} (P : string * V -> Prop) (k : string) (v : V)
      (o : list (string * V)) :
  (forall k', P (k', v)) -> Forall P o -> Forall P (obj_set k v o).
Proof.
  intros Hv. induction 1 as [|[k' v'] o Hx Ho IH]; cbn [obj_set].
  - constructor; [apply Hv | constructor].
  - destruct (String.eqb k k'); constructor; auto.
Qed.

Lemma well_formed_obj_set (dex : string) (ps : Pairs) (c : PriceCache.t) :
  NoDup (map fst ps) -> well_formed c -> well_formed (obj_set dex ps c).
Proof.
  intros Hps [Hkeys Hall]. split.
  - now apply NoDup_obj_set.
  - apply Forall_obj_set; [intros ?; exact Hps | exact Hall].
Qed.

Lemma well_formed_cleanup (now : Z) (c : PriceCache.t) :
  well_formed c -> well_formed (cleanupPriceCache now c).
Proof.
  intros [Hkeys Hall]. unfold cleanupPriceCache. split.
  - rewrite map_map. cbn [fst]. exact Hkeys.
  - apply Forall_map. revert Hall. apply Forall_impl.
    intros dp Hdp. cbn [snd]. now apply (NoDup_cleaned now).
Qed.

Lemma well_formed_step (c : PriceCache.t) (op : Op) :
  well_formed c -> well_formed (step c op).
Proof.
  intro Hc. destruct op as [now now' dex tokenPair p | now dex tokenPair]; cbn [step].
  - unfold updatePriceCache. cbv zeta. apply well_formed_cleanup.
    destruct (obj_get dex c) as [ps|] eqn:Hget.
    + rewrite Hget. apply well_formed_obj_set; [|exact Hc].
      apply NoDup_obj_set.
      replace ps with (pairs_of dex c) by (unfold pairs_of; now rewrite Hget).
      now apply pairs_of_well_formed.
    + rewrite obj_get_set_same.
      apply well_formed_obj_set; [repeat constructor; intros []|].
      apply well_formed_obj_set; [constructor | exact Hc].
  - unfold getPriceFromCache, entry_of.
    destruct (obj_get dex c) as [ps|] eqn:Hget; [|exact Hc].
    destruct (obj_get tokenPair ps) as [e|]; [|exact Hc].
    destruct (expired now e); [|exact Hc]. cbn [snd].
    apply well_formed_obj_set; [|exact Hc].
    apply NoDup_obj_delete.
    replace ps with (pairs_of dex c) by (unfold pairs_of; now rewrite Hget).
    now apply pairs_of_well_formed.
Qed.

Lemma length_cleaned (now : Z) (ps : Pairs) :
  NoDup (map fst ps) -> (List.length (cleaned now ps) <= MAX_CACHE_SIZE)%nat.
Proof.
  intro Hps. unfold cleaned. apply length_evict_oldest.
  now apply NoDup_keys_filter.
Qed.

Lemma length_obj_delete_le (k : string) (ps : Pairs) :
  (List.length (obj_delete k ps) <= List.length ps)%nat.
Proof.
  induction ps as [|[k' v'] ps IH]; cbn; [lia|].
  destruct (String.eqb k k'); cbn; lia.
Qed.

Lemma capacity_step (c : PriceCache.t) (op : Op) (dex : string) :
  well_formed c ->
  (List.length (pairs_of dex c) <= MAX_CACHE_SIZE)%nat ->
  (List.length (pairs_of dex (step c op)) <= MAX_CACHE_SIZE)%nat.
Proof.
  intros Hc Hlen.
  pose proof (pairs_of_well_formed dex c Hc) as Hps.
  destruct op as [now now' dex' tokenPair p | now dex' tokenPair]; cbn [step].
  - destruct (String.eqb_spec dex dex') as [<-|Hne].
    + rewrite pairs_of_update_same. apply length_cleaned. now apply NoDup_obj_set.
    + rewrite pairs_of_update_other by exact Hne. now apply length_cleaned.
  - destruct (pairs_of_lookup now dex dex' tokenPair c) as [-> | (_ & _ & ->)];
      [exact Hlen|].
    pose proof (length_obj_delete_le tokenPair (pairs_of dex c)). lia.
Qed.

Lemma capacity_run (ops : list Op) :
  forall (c : PriceCache.t) (dex : string),
    well_formed c ->
    (List.length (pairs_of dex c) <= MAX_CACHE_SIZE)%nat ->
    (List.length (pairs_of dex (run ops c)) <= MAX_CACHE_SIZE)%nat.
Proof.
  induction ops as [|op ops IH]; intros c dex Hc Hlen; [exact Hlen|].
  cbn [run fold_left]. apply IH; [now apply well_formed_step | now apply capacity_step].
Qed.

Lemma new_cache_empty (dexes : list string) :
  forall c : PriceCache.t,
    well_formed c -> (forall dex, pairs_of dex c = []) ->
    well_formed (fold_left (fun c dex => obj_set dex [] c) dexes c)
    /\ forall dex, pairs_of dex (fold_left (fun c dex => obj_set dex [] c) dexes c) = [].
Proof.
  induction dexes as [|d dexes IH]; intros c Hc Hempty; cbn [fold_left]; [now split|].
  apply IH.
  - apply well_formed_obj_set; [constructor | exact Hc].
  - intro dex. unfold pairs_of. destruct (String.eqb_spec dex d) as [->|Hne].
    + now rewrite obj_get_set_same.
    + rewrite obj_get_set_other by exact Hne. apply Hempty.
Qed.

End CacheInvariant.

(** X17: from the cache of a new arbitrage strategy, whatever the
    configuration, no history of writes and reads leaves a venue with more
    than [MAX_CACHE_SIZE] = 1000 cached pairs. *)
Theorem price_cache_capacity :
  forall (cfg : Arbitrage.ArbitrageConfig) (ops : list CacheTrace.Op) (dex : string),
    (List.length
       (CacheTrace.cached_pairs dex
          (CacheTrace.run ops (Arbitrage.priceCache (Arbitrage.new cfg))))
     <= PriceCache.MAX_CACHE_SIZE)%nat.
Proof.
  intros cfg ops dex. unfold CacheTrace.cached_pairs. rewrite length_map.
  destruct (new_cache_empty (Arbitrage.dexes cfg) [] empty_cache_well_formed
              (fun _ => eq_refl)) as [Hc Hempty].
  apply capacity_run; [exact Hc|].
  cbn [Arbitrage.new Arbitrage.priceCache]. rewrite Hempty. cbn. lia.
Qed.

Section EvictionOrder.
Import PriceCache CacheTrace.

Lemma entry_of_pairs_of (c : PriceCache.t) (dex tokenPair : string) :
  entry_of c dex tokenPair = obj_get tokenPair (pairs_of dex c).
Proof. unfold entry_of, pairs_of. now destruct (obj_get dex c). Qed.

Lemma evicted_is_older (ps : Pairs) (x y : string * Entry) :
  NoDup (map fst ps) ->
  In x ps -> ~ In x (evict_oldest ps) -> In y (evict_oldest ps) ->
  (timestamp (snd x) <= timestamp (snd y))%Z.
Proof.
  intros Hps Hx Hgone Hy. unfold evict_oldest in *.
  destruct (MAX_CACHE_SIZE <? List.length ps)%nat; [|contradiction].
  set (n := (List.length ps - MAX_CACHE_SIZE)%nat) in *.
  set (victims := firstn n (sort_by_age ps)) in *.
  destruct (victims_keys n ps Hps) as [Hvkeys Hvincl]. fold victims in Hvkeys, Hvincl.
  apply (sorted_front_older n (sort_by_age ps) (sort_by_age_sorted ps)).
  - (* [x] is one of the victims *)
    destruct (in_dec string_dec (fst x) (map fst victims)) as [Hk|Hk];
      [|exfalso; apply Hgone; now apply fold_delete_keeps].
    apply in_map_iff in Hk. destruct Hk as (v & Hkey & Hv).
    assert (Hvps : In v ps)
      by (apply (Permutation_in _ (sort_by_age_perm ps)); now apply In_firstn in Hv).
    assert (v = x) as <-; [|exact Hv].
    destruct v as [kv ev], x as [kx ex]. cbn in Hkey. subst kx.
    apply (In_obj_get _ _ _ Hps) in Hvps, Hx. congruence.
  - (* [y] is none of them *)
    assert (Hyps : In y ps) by (now apply In_fold_delete in Hy).
    assert (Hysorted : In y (sort_by_age ps))
      by (apply (Permutation_in _ (Permutation_sym (sort_by_age_perm ps))); exact Hyps).
    rewrite <- (firstn_skipn n (sort_by_age ps)) in Hysorted.
    apply in_app_or in Hysorted. destruct Hysorted as [Hfront|Hback]; [|exact Hback].
    exfalso. apply (fold_delete_drops victims ps (fst y) Hps).
    + now apply in_map.
    + now apply in_map.
Qed.

End EvictionOrder.

(** X18: the capacity rule of the clean-up evicts the oldest entries: an
    entry that was not expired and is gone after the clean-up was written no
    later than every entry the venue still holds. *)
Theorem eviction_takes_the_oldest :
  forall (now : Z) (c : PriceCache.t) (dex tokenPair tokenPair' : string)
         (e e' : PriceCache.Entry),
    CacheTrace.well_formed c ->
    PriceCache.entry_of c dex tokenPair = Some e ->
    PriceCache.expired now e = false ->
    PriceCache.entry_of (PriceCache.cleanupPriceCache now c) dex tokenPair = None ->
    PriceCache.entry_of (PriceCache.cleanupPriceCache now c) dex tokenPair' = Some e' ->
    (PriceCache.timestamp e <= PriceCache.timestamp e')%Z.
Proof.
  intros now c dex tokenPair tokenPair' e e' Hc He Hfresh Hgone He'.
  rewrite entry_of_pairs_of in He, Hgone, He'.
  rewrite pairs_of_cleanup in Hgone, He'. unfold CacheTrace.cleaned in *.
  pose proof (pairs_of_well_formed dex c Hc) as Hps.
  pose proof (NoDup_keys_filter (fun kv => negb (PriceCache.expired now (snd kv))) _ Hps)
    as Hkept.
  apply (evicted_is_older (PriceCache.drop_expired now (CacheTrace.pairs_of dex c))
           (tokenPair, e) (tokenPair', e') Hkept).
  - apply filter_In. split; [now apply obj_get_In|]. cbn [snd]. now rewrite Hfresh.
  - intro Hin. apply In_obj_get in Hin; [congruence|].
    now apply NoDup_evict_oldest.
  - now apply obj_get_In.
Qed.

Lemma crowded_well_formed : CacheTrace.well_formed Examples.crowded.
Proof.
  split.
  - cbn. repeat constructor. intros [].
  - constructor; [|constructor]. cbn [snd Examples.crowded].
    match goal with
    | |- NoDup ?l =>
        replace l with (nodup string_dec l) by (vm_compute; reflexivity)
    end.
    apply NoDup_nodup.
Defined.

Lemma eviction_takes_the_oldest_witness :
  PriceCache.entry_of (PriceCache.cleanupPriceCache 1000 Examples.crowded)
                      "DeDust" (CacheTrace.numbered_pair 0) = None
  /\ (PriceCache.timestamp (PriceCache.mkEntry 1 0)
      <= PriceCache.timestamp (PriceCache.mkEntry 1 1000))%Z.
Proof.
  assert (Hgone : PriceCache.entry_of (PriceCache.cleanupPriceCache 1000 Examples.crowded)
                    "DeDust" (CacheTrace.numbered_pair 0) = None)
    by (vm_compute; reflexivity).
  split; [exact Hgone|].
  apply (eviction_takes_the_oldest 1000 Examples.crowded "DeDust"
           (CacheTrace.numbered_pair 0) (CacheTrace.numbered_pair 1000)
           (PriceCache.mkEntry 1 0) (PriceCache.mkEntry 1 1000) crowded_well_formed).
  - vm_compute; reflexivity.
  - reflexivity.
  - exact Hgone.
  - vm_compute; reflexivity.
Defined.

(** X19: the clean-up run by every write leaves no expired entry, in any
    venue: every entry the cache holds after [updatePriceCache] is at most
    [PRICE_CACHE_TTL] = 60000 ms older than the time of the clean-up. *)
Theorem update_leaves_fresh_entries :
  forall (now now' : Z) (dex tokenPair : string) (p : Q) (c : PriceCache.t)
         (dex' tokenPair' : string) (e : PriceCache.Entry),
    PriceCache.entry_of (PriceCache.updatePriceCache now now' dex tokenPair p c)
                        dex' tokenPair' = Some e ->
    (now' - PriceCache.timestamp e <= PriceCache.PRICE_CACHE_TTL)%Z.
Proof.
  intros now now' dex tokenPair p c dex' tokenPair' e.
  rewrite entry_of_pairs_of.
  assert (Hcleaned : exists ps,
             CacheTrace.pairs_of dex'
               (PriceCache.updatePriceCache now now' dex tokenPair p c)
             = CacheTrace.cleaned now' ps).
  { destruct (String.eqb_spec dex' dex) as [->|Hne].
    - eexists. apply pairs_of_update_same.
    - eexists. now apply pairs_of_update_other. }
  destruct Hcleaned as [ps ->]. intro He.
  apply obj_get_In, In_evict_oldest, filter_In in He. destruct He as [_ He].
  cbn [snd] in He. unfold PriceCache.expired in He.
  rewrite negb_true_iff, Z.gtb_ltb in He. apply Z.ltb_ge in He. exact He.
Qed.

Lemma update_leaves_fresh_entries_witness :
  PriceCache.entry_of Examples.written_at_0 "DeDust" "TON/USDT"
  = Some (PriceCache.mkEntry 0.52 0)
  /\ (0 - 0 <= PriceCache.PRICE_CACHE_TTL)%Z.
Proof.
  assert (H : PriceCache.entry_of Examples.written_at_0 "DeDust" "TON/USDT"
              = Some (PriceCache.mkEntry 0.52 0)) by reflexivity.
  split; [exact H|].
  exact (update_leaves_fresh_entries 0 0 "DeDust" "TON/USDT" 0.52 []
           "DeDust" "TON/USDT" (PriceCache.mkEntry 0.52 0) H).
Defined.

(** X20: a read of the cache touches its own key only: the entries under
    every other venue or pair are as they were; a read that returns a price,
    or finds no entry, leaves the whole cache as it is; and after a read that
    returns nothing the key holds no entry. *)
Theorem read_touches_its_own_key_only :
  forall (now : Z) (dex tokenPair : string) (c : PriceCache.t),
    let answer := fst (PriceCache.getPriceFromCache now dex tokenPair c) in
    let after := snd (PriceCache.getPriceFromCache now dex tokenPair c) in
    (forall dex' tokenPair',
        dex' <> dex \/ tokenPair' <> tokenPair ->
        PriceCache.entry_of after dex' tokenPair' = PriceCache.entry_of c dex' tokenPair')
    /\ (answer <> None -> after = c)
    /\ (PriceCache.entry_of c dex tokenPair = None -> answer = None /\ after = c)
    /\ (CacheTrace.well_formed c -> answer = None ->
        PriceCache.entry_of after dex tokenPair = None).
Proof.
  intros now dex tokenPair c answer after. subst answer after.
  unfold PriceCache.getPriceFromCache.
  destruct (PriceCache.entry_of c dex tokenPair) as [e|] eqn:Hentry.
  2: { cbn [fst snd]. repeat split; try reflexivity; try congruence. }
  destruct (PriceCache.expired now e) eqn:Hexpired; cbn [fst snd].
  2: { repeat split; try reflexivity; try congruence. }
  unfold PriceCache.entry_of in Hentry.
  destruct (PriceCache.obj_get dex c) as [ps|] eqn:Hget; [|discriminate].
  split; [|split; [congruence | split; [discriminate|]]].
  - intros dex' tokenPair' Hother. unfold PriceCache.entry_of.
    destruct (String.eqb_spec dex' dex) as [->|Hne].
    + rewrite obj_get_set_same, Hget.
      destruct Hother as [Hd|Hp]; [contradiction|]. now apply obj_get_delete_other.
    + now rewrite obj_get_set_other.
  - intros Hc _. unfold PriceCache.entry_of. rewrite obj_get_set_same.
    apply obj_get_delete_same.
    replace ps with (CacheTrace.pairs_of dex c)
      by (unfold CacheTrace.pairs_of; now rewrite Hget).
    now apply pairs_of_well_formed.
Qed.

(** ** What the strategy stores in its cache *)

(** *** Computations that keep an invariant of the state *)

Section Preservation.
Context {S : Type} (I : S -> Prop).

Lemma preserves_ret {A} (a : A) : preserves I (ret a).
Proof. intros s H. exact H. Qed.

Lemma preserves_throw {A} (e : Exn) : preserves I (@throw S A e).
Proof. intros s H. exact H. Qed.

Lemma preserves_lift_outcome {A} (o : Outcome A) : preserves I (lift_outcome o).
Proof. intros s H. exact H. Qed.

Lemma preserves_bind {A C} (m : M S A) (k : A -> M S C) :
  preserves I m -> (forall a, preserves I (k a)) -> preserves I (bind m k).
Proof.
  intros Hm Hk s H. unfold bind. specialize (Hm s H).
  destruct (m s) as [[a|e] s1]; [now apply Hk | exact Hm].
Qed.

(** The continuation may rely on what is known of the value returned. *)
Lemma preserves_bind_with {A C} (R : A -> Prop) (m : M S A) (k : A -> M S C) :
  (forall s a, fst (m s) = Returned a -> R a) ->
  preserves I m -> (forall a, R a -> preserves I (k a)) -> preserves I (bind m k).
Proof.
  intros HR Hm Hk s H. unfold bind. specialize (Hm s H). specialize (HR s).
  destruct (m s) as [[a|e] s1]; [|exact Hm].
  apply Hk; [now apply HR | exact Hm].
Qed.

Lemma preserves_try_catch {A} (m : M S A) (h : Exn -> M S A) :
  preserves I m -> (forall e, preserves I (h e)) -> preserves I (try_catch m h).
Proof.
  intros Hm Hh s H. unfold try_catch. specialize (Hm s H).
  destruct (m s) as [[a|e] s1]; [exact Hm | now apply Hh].
Qed.

Lemma preserves_for_each {A} (l : list A) (body : A -> M S unit) :
  (forall x, preserves I (body x)) -> preserves I (for_each l body).
Proof.
  intro Hbody. induction l as [|x l IH]; cbn [for_each].
  - apply preserves_ret.
  - apply preserves_bind; [apply Hbody | intros _; exact IH].
Qed.

Lemma preserves_on_object {L A} (m : M S A) :
  preserves I m -> preserves (fun sl : S * L => I (fst sl)) (on_object m).
Proof.
  intros Hm sl H. unfold on_object. specialize (Hm (fst sl) H).
  now destruct (m (fst sl)).
Qed.

Lemma preserves_with_local {L} (init : L) (m : M (S * L) unit) :
  preserves (fun sl => I (fst sl)) m -> preserves I (with_local init m).
Proof.
  intros Hm s H. unfold with_local. specialize (Hm (s, init) H).
  now destruct (m (s, init)) as [[u|e] [s1 l]].
Qed.

End Preservation.

(** *** The cache of the arbitrage strategy *)

Section CacheWithinPairs.
Import PriceCache CacheTrace Arbitrage.

Local Abbreviation cache_within :=
  (fun c : Ctx State => within_configured_pairs (priceCache (self c))).

Lemma within_in_world {A} (f : World -> A * World) :
  preserves cache_within (in_world f).
Proof. intros c H. unfold in_world. now destruct (f (world c)). Qed.

Lemma within_get_self : preserves cache_within get_self.
Proof. intros c H. exact H. Qed.

Lemma within_push (o : MEVOpportunity) :
  preserves cache_within (update_self (push o)).
Proof. intros c H. exact H. Qed.

Ltac within_step :=
  first
    [ apply preserves_ret | apply preserves_throw | apply preserves_lift_outcome
    | apply within_get_self | apply within_in_world | apply within_push
    | apply preserves_bind; [|intros ?]
    | apply preserves_try_catch; [|intros ?]
    | progress cbv zeta
    | match goal with
      | |- preserves _ (match ?x with _ => _ end) => destruct x
      | |- preserves _ (if ?b then _ else _) => destruct b
      end ].

Lemma extractDexInfo_within (tx : Js.JsVal) : preserves cache_within (extractDexInfo tx).
Proof. unfold extractDexInfo. repeat within_step. Qed.

Lemma within_lookup (now : Z) (dex tokenPair : string) (c : PriceCache.t) :
  within_configured_pairs c ->
  within_configured_pairs (snd (getPriceFromCache now dex tokenPair c)).
Proof.
  intros [Hc Hpairs]. split; [exact (well_formed_step c (Lookup now dex tokenPair) Hc)|].
  intros venue pair. unfold cached_pairs.
  destruct (pairs_of_lookup now venue dex tokenPair c) as [-> | (_ & _ & ->)].
  - apply Hpairs.
  - intro Hin. apply (Hpairs venue). unfold cached_pairs.
    apply in_map_iff in Hin. destruct Hin as (x & <- & Hx).
    apply in_map. now apply In_obj_delete in Hx.
Qed.

Lemma within_update (now now' : Z) (dex tokenPair : string) (p : Q) (c : PriceCache.t) :
  In tokenPair ["TON/USDT"; "TON/USDC"; "TON/ETH"] ->
  within_configured_pairs c ->
  within_configured_pairs (updatePriceCache now now' dex tokenPair p c).
Proof.
  intros Hpair [Hc Hpairs].
  split; [exact (well_formed_step c (Update now now' dex tokenPair p) Hc)|].
  intros venue pair. unfold cached_pairs. intro Hin.
  apply in_map_iff in Hin. destruct Hin as (x & <- & Hx).
  destruct (String.eqb_spec venue dex) as [->|Hne].
  - rewrite pairs_of_update_same in Hx. apply In_cleaned in Hx.
    apply (in_map fst) in Hx. apply incl_keys_obj_set in Hx.
    destruct Hx as [<-|Hx]; [exact Hpair | now apply (Hpairs dex)].
  - rewrite pairs_of_update_other in Hx by exact Hne. apply In_cleaned in Hx.
    apply (Hpairs venue). unfold cached_pairs. now apply in_map.
Qed.

Lemma do_getPriceFromCache_within (dex tokenPair : string) :
  preserves cache_within (do_getPriceFromCache dex tokenPair).
Proof.
  unfold do_getPriceFromCache.
  intros c H. unfold bind at 1. unfold get_self at 1.
  destruct (entry_of (priceCache (self c)) dex tokenPair); [|exact H].
  unfold bind at 1. unfold in_world at 1.
  destruct (Date_now (world c)) as [now w1]. cbn [self].
  pose proof (within_lookup now dex tokenPair _ H) as Hafter.
  destruct (getPriceFromCache now dex tokenPair (priceCache (self c))) as [p c1].
  exact Hafter.
Qed.

Lemma do_updatePriceCache_within (dex tokenPair : string) (p : Q) :
  In tokenPair ["TON/USDT"; "TON/USDC"; "TON/ETH"] ->
  preserves cache_within (do_updatePriceCache dex tokenPair p).
Proof.
  intro Hpair. unfold do_updatePriceCache.
  apply preserves_bind; [apply within_in_world|]. intro now.
  apply preserves_bind; [apply within_in_world|]. intro now'.
  intros c H. now apply within_update.
Qed.

Lemma checkOtherDex_within (packet : MempoolPacket) (cfg : ArbitrageConfig)
      (info : DexInfo) (otherDex : string) :
  preserves cache_within (checkOtherDex packet cfg info otherDex).
Proof.
  unfold checkOtherDex.
  destruct (String.eqb otherDex (dex info)); [apply preserves_ret|].
  apply preserves_bind; [apply do_getPriceFromCache_within|]. intro otherPrice.
  repeat within_step.
Qed.

Lemma arbitrage_analyze_within (packet : MempoolPacket) :
  preserves cache_within (analyze packet).
Proof.
  unfold analyze. apply preserves_bind; [apply within_get_self|]. intro this.
  destruct (negb (enabled (config this))); [apply preserves_ret|]. cbv zeta.
  apply preserves_bind; [destruct (extractTransactions packet); repeat within_step|].
  intros _. apply preserves_with_local, preserves_try_catch; [|intros _; apply preserves_ret].
  apply preserves_for_each. intro tx.
  apply preserves_bind; [apply (preserves_on_object cache_within), preserves_lift_outcome|]. intro isDex.
  destruct (negb isDex); [apply preserves_ret|].
  apply preserves_bind; [apply (preserves_on_object cache_within), preserves_lift_outcome|]. intros _.
  apply preserves_bind_with
    with (R := fun found =>
                 forall info, found = Some info ->
                              In (tokenPair info) ["TON/USDT"; "TON/USDC"; "TON/ETH"]).
  - intros sl found Hfound info ->. unfold on_object in Hfound.
    destruct (extractDexInfo tx (fst sl)) as [o c1] eqn:Hrun. cbn [fst] in Hfound.
    assert (Hinfo : fst (extractDexInfo tx (fst sl)) = Returned (Some info))
      by (rewrite Hrun; exact Hfound).
    apply extractDexInfo_pair in Hinfo. destruct Hinfo as (Hd & Hp & _).
    exact (configured_pair _ _ Hd Hp).
  - apply (preserves_on_object cache_within), extractDexInfo_within.
  - intros [info|] Hinfo; [|apply preserves_ret].
    apply preserves_bind; [apply (preserves_on_object cache_within), preserves_lift_outcome|]. intros _.
    apply preserves_bind.
    { apply (preserves_on_object cache_within), do_updatePriceCache_within, Hinfo. reflexivity. }
    intros _. apply preserves_for_each. intro otherDex.
    apply preserves_bind; [apply (preserves_on_object cache_within), checkOtherDex_within|].
    intros found sl H. exact H.
Qed.

Lemma within_length (c : PriceCache.t) (dex : string) :
  within_configured_pairs c -> (List.length (cached_pairs dex c) <= 3)%nat.
Proof.
  intros [Hc Hpairs].
  apply (NoDup_incl_length (l' := ["TON/USDT"; "TON/USDC"; "TON/ETH"])).
  - apply pairs_of_well_formed, Hc.
  - intros pair. apply Hpairs.
Qed.

Lemma new_within (cfg : ArbitrageConfig) : within_configured_pairs (priceCache (new cfg)).
Proof.
  destruct (new_cache_empty (dexes cfg) [] empty_cache_well_formed (fun _ => eq_refl))
    as [Hc Hempty].
  split; [exact Hc|].
  intros dex pair. unfold cached_pairs. cbn [new priceCache]. now rewrite Hempty.
Qed.

Lemma run_within (ops : list ArbitrageTrace.Op) :
  forall c : Ctx State,
    within_configured_pairs (priceCache (self c)) ->
    within_configured_pairs (priceCache (self (ArbitrageTrace.run ops c))).
Proof.
  induction ops as [|op ops IH]; intros c H; [exact H|].
  cbn [ArbitrageTrace.run fold_left]. apply IH.
  destruct op as [packet|]; [now apply arbitrage_analyze_within | exact H].
Qed.

(** Below the capacity, the clean-up only drops what has expired. *)
Lemma cleanup_below_capacity (now : Z) (c : PriceCache.t) :
  within_configured_pairs c ->
  cleanupPriceCache now c = map (fun dp => (fst dp, drop_expired now (snd dp))) c.
Proof.
  intros Hc. unfold cleanupPriceCache. apply map_ext_in. intros [d ps] Hin.
  cbn [fst snd]. f_equal. unfold evict_oldest.
  destruct (Nat.ltb_spec MAX_CACHE_SIZE (List.length (drop_expired now ps)))
    as [Hmore|Hfits]; [exfalso | reflexivity].
  pose proof (within_length c d Hc) as Hlen.
  unfold cached_pairs, pairs_of in Hlen.
  rewrite (In_obj_get d ps c (proj1 (proj1 Hc)) Hin), length_map in Hlen.
  pose proof (filter_length_le (fun kv => negb (expired now (snd kv))) ps) as Hle.
  unfold drop_expired in Hmore. unfold MAX_CACHE_SIZE in Hmore. lia.
Qed.

End CacheWithinPairs.

(** X27: the capacity rule of the price cache is never reached by the
    strategy itself.  From a new strategy, whatever the configuration, the
    packets analyzed and the clock, the pairs cached for a venue are among
    TON/USDT, TON/USDC and TON/ETH, so a venue holds at most three prices,
    far below [MAX_CACHE_SIZE]; a clean-up of that cache only drops the
    entries that have expired. *)
Theorem arbitrage_cache_never_fills :
  forall (cfg : Arbitrage.ArbitrageConfig) (w : World) (ops : list ArbitrageTrace.Op)
         (dex : string) (now : Z),
    let cache :=
      Arbitrage.priceCache (self (ArbitrageTrace.run ops (mkCtx (Arbitrage.new cfg) w))) in
    incl (CacheTrace.cached_pairs dex cache) ["TON/USDT"; "TON/USDC"; "TON/ETH"]
    /\ (List.length (CacheTrace.cached_pairs dex cache) <= 3)%nat
    /\ PriceCache.cleanupPriceCache now cache
       = map (fun venue => (fst venue, PriceCache.drop_expired now (snd venue))) cache.
Proof.
  intros cfg w ops dex now cache.
  assert (Hcache : within_configured_pairs cache)
    by (apply run_within, new_within).
  split; [intros pair; apply (proj2 Hcache)|].
  split; [now apply within_length | now apply cleanup_below_capacity].
Qed.

(** ** The private key read from a key file *)

(** X21: from the decoded buffer on, [extractPrivateKeyFromPEM] returns
    exactly 32 bytes whenever the buffer holds at least 32 bytes, and the
    empty buffer otherwise; it never fails. *)
Theorem keyFromDer_length :
  forall der : list byte,
    List.length (Client.keyFromDer der)
    = if (32 <=? List.length der)%nat then 32%nat else 0%nat.
Proof.
  intro der. unfold Client.keyFromDer. cbv zeta.
  assert (Hfallback :
    List.length (if (32 <=? List.length der)%nat
                 then skipn (List.length der - 32) der else [])
    = if (32 <=? List.length der)%nat then 32%nat else 0%nat).
  { destruct (Nat.leb_spec 32 (List.length der)); [|reflexivity].
    rewrite length_skipn. lia. }
  destruct (Client.find_key_start der 0 (List.length der - 5)) as [keyStart|];
    [|exact Hfallback].
  destruct (Nat.leb_spec (keyStart + 32) (List.length der)) as [Hfits|Hshort];
    [|exact Hfallback].
  rewrite length_firstn, length_skipn.
  destruct (Nat.leb_spec 32 (List.length der)); lia.
Qed.

(** X22: from a PKCS#8 document that holds an ED25519 private key (the
    sixteen bytes of the header, with the object identifier 06 03 2B 65 70 and
    the octet string 04 20, followed by the 32 bytes of the key), the key is
    returned as it is. *)
Theorem keyFromDer_pkcs8 :
  forall key : list byte,
    List.length key = 32%nat ->
    Client.keyFromDer (Client.pkcs8_header ++ key) = key.
Proof.
  intros key Hlen.
  do 32 (destruct key as [|? key]; [discriminate|]).
  destruct key; [|discriminate].
  reflexivity.
Qed.

Lemma keyFromDer_pkcs8_witness :
  Client.keyFromDer (Client.pkcs8_header ++ Examples.sample_key) = Examples.sample_key.
Proof. exact (keyFromDer_pkcs8 Examples.sample_key eq_refl). Defined.

(** ** The display helpers of the dashboard *)

(** X23: [formatHash] is idempotent and returns at most fifteen
    characters: a hash of more than twelve characters is shortened to its
    first six and its last six characters around three dots, and formatting
    the result again changes nothing. *)
Theorem formatHash_idempotent :
  forall hash : string,
    DashboardUtils.formatHash (DashboardUtils.formatHash hash)
    = DashboardUtils.formatHash hash
    /\ (String.length (DashboardUtils.formatHash hash) <= 15)%nat.
Proof.
  intro hash. unfold DashboardUtils.formatHash at 2 3 4.
  destruct (String.eqb_spec hash "") as [->|Hne]; [split; [reflexivity | cbn; lia]|].
  destruct (Nat.leb_spec (String.length hash) 12) as [Hshort|Hlong].
  - split; [|lia]. unfold DashboardUtils.formatHash.
    destruct (String.eqb_spec hash ""); [contradiction|].
    destruct (Nat.leb_spec (String.length hash) 12); [reflexivity | lia].
  - set (front := String.substring 0 6 hash).
    set (back := String.substring (String.length hash - 6) 6 hash).
    assert (Hfront : String.length front = 6%nat) by (apply length_substring; lia).
    assert (Hback : String.length back = 6%nat) by (apply length_substring; lia).
    assert (Hlen : String.length (front ++ "..." ++ back) = 15%nat)
      by (rewrite !length_append, Hfront, Hback; reflexivity).
    split; [|lia].
    unfold DashboardUtils.formatHash. rewrite Hlen.
    destruct (String.eqb_spec (front ++ "..." ++ back) "") as [Hempty|_];
      [rewrite Hempty in Hlen; discriminate|].
    cbn [Nat.leb Nat.sub].
    f_equal; [|f_equal].
    + rewrite <- Hfront. apply substring_whole_prefix.
    + replace 9%nat with (String.length front + 3)%nat
        by (rewrite Hfront; reflexivity).
      rewrite substring_past_prefix.
      cbn [String.append String.substring Nat.add].
      rewrite <- Hback at 1. apply substring_whole.
Qed.

(** ** The histories of the two strategies *)

(** X25: each of the two strategies records in its own history exactly
    what [analyze] returns: after a call the history is the one before,
    followed by the returned opportunities, each bearing the strategy's name,
    which does not change.  When an exception leaves the arbitrage strategy's
    [analyze], or when its loop is cut short by one, the history has grown by
    what the call returns and by nothing else. *)
Theorem strategies_record_what_they_return :
  (forall (packet : MempoolPacket) (c : Ctx Sandwich.State),
      let after := self (snd (Sandwich.analyze packet c)) in
      let returned := contribution (fst (Sandwich.analyze packet c)) in
      Sandwich.opportunities after = Sandwich.opportunities (self c) ++ returned
      /\ Sandwich.name after = Sandwich.name (self c)
      /\ Forall (fun opp => strategy opp = Sandwich.name (self c)) returned)
  /\ (forall (packet : MempoolPacket) (c : Ctx Arbitrage.State),
         let after := self (snd (Arbitrage.analyze packet c)) in
         let returned := contribution (fst (Arbitrage.analyze packet c)) in
         Arbitrage.opportunities after = Arbitrage.opportunities (self c) ++ returned
         /\ Arbitrage.name after = Arbitrage.name (self c)
         /\ Forall (fun opp => strategy opp = Arbitrage.name (self c)) returned).
Proof.
  split; intros packet c after returned.
  - destruct (sandwich_analyze_appends packet c) as (Hname & Hhistory & Hsigned).
    repeat split; assumption.
  - destruct (arbitrage_analyze_appends packet c) as (Hname & Hhistory & Hsigned).
    repeat split; assumption.
Qed.
